(** * Thrylos: a shallow embedding of the transaction, ledger and validator code

    The Go sources are embedded function by function.  Go values are modelled
    as follows: [int], [int32] and [int64] are [Z] with the wrap-around of the
    machine width written out; [[]byte] is [list byte]; [string] is [string]
    (a Go string is a byte string, and so is a Rocq one); a Go [map] is a
    [gmap], and a [range] over it is a walk over an enumeration of the map in
    an order the language leaves unspecified; [(T, error)] is [result T].
    Where the code writes through the pointers of a slice, the slice is a
    list of addresses, [None] for nil, into a heap that is passed along. *)

From Stdlib Require Import ZArith List String Ascii Strings.Byte Lia Bool.
From Bignums Require Import BigZ.BigZ.
From stdpp Require Import functions gmap strings list sorting.

Local Open Scope string_scope.
Local Open Scope list_scope.
Local Open Scope Z_scope.

(** ** Go values *)

Module Go.

(** Two's complement wrap-around of a [w]-bit signed integer. *)
Definition wrap (w z : Z) : Z := (z + 2 ^ (w - 1)) mod 2 ^ w - 2 ^ (w - 1).

(** [int] is 64 bits wide on the platforms the node runs on. *)
Definition int (z : Z) : Z := wrap 64 z.
Definition int32 (z : Z) : Z := wrap 32 z.
Definition int64 (z : Z) : Z := wrap 64 z.

Definition MaxInt64 : Z := 2 ^ 63 - 1.
Definition MinInt64 : Z := - 2 ^ 63.

(** A Go [error] value is represented by its message; [(T, error)] with a
    nil error is [Ok], anything else is [Err]. *)
Definition error : Type := string.

Inductive result (A : Type) : Type :=
| Ok (a : A)
| Err (e : error).
Global Arguments Ok {A} a.
Global Arguments Err {A} e.

Definition is_ok {A} (r : result A) : bool :=
  match r with Ok _ => true | Err _ => false end.

(** A call either returns or panics. *)
Inductive exec (A : Type) : Type :=
| Return (a : A)
| Panic (msg : string).
Global Arguments Return {A} a.
Global Arguments Panic {A} msg.

(** [range m] visits every entry of the map [m] exactly once, in an order
    that is not specified and may change from one loop to the next. *)
Definition range_order {V} (m : gmap string V) (order : list (string * V)) : Prop :=
  order ≡ₚ map_to_list m.

(** *** Bytes *)

Definition byte_to_Z (b : byte) : Z := Z.of_N (Byte.to_N b).

Definition byte_of_Z (z : Z) : byte :=
  match Byte.of_N (Z.to_N (z mod 256)) with
  | Some b => b
  | None => x00
  end.

Definition byte_xor (a b : byte) : byte :=
  byte_of_Z (Z.lxor (byte_to_Z a) (byte_to_Z b)).

Definition ascii_to_Z (c : ascii) : Z := Z.of_N (N_of_ascii c).

(** [bytes.Equal]. *)
Fixpoint bytes_Equal (a b : list byte) : bool :=
  match a, b with
  | [], [] => true
  | x :: a', y :: b' => Byte.eqb x y && bytes_Equal a' b'
  | _, _ => false
  end.

(** [[]byte(s)] and [string(b)]. *)
Definition bytes_of_string (s : string) : list byte := list_byte_of_string s.
Definition string_of_bytes (b : list byte) : string := string_of_list_byte b.

(** *** package strings *)

Definition HasPrefix (s prefix : string) : bool := String.prefix prefix s.

Definition TrimPrefix (s prefix : string) : string :=
  if HasPrefix s prefix
  then String.substring (String.length prefix) (String.length s - String.length prefix) s
  else s.

(** The white space of [unicode.IsSpace], as the byte sequences that encode
    it in UTF-8: the six ASCII characters, U+0085, U+00A0, U+1680,
    U+2000..U+200A, U+2028, U+2029, U+202F, U+205F and U+3000. *)
Definition space_tokens : list (list Z) :=
  [ [9]; [10]; [11]; [12]; [13]; [32];
    [194; 133]; [194; 160]; [225; 154; 128];
    [226; 128; 128]; [226; 128; 129]; [226; 128; 130]; [226; 128; 131];
    [226; 128; 132]; [226; 128; 133]; [226; 128; 134]; [226; 128; 135];
    [226; 128; 136]; [226; 128; 137]; [226; 128; 138];
    [226; 128; 168]; [226; 128; 169]; [226; 128; 175];
    [226; 129; 159]; [227; 128; 128] ].

Fixpoint starts_with (tok l : list Z) : bool :=
  match tok, l with
  | [], _ => true
  | t :: tok', x :: l' => (t =? x) && starts_with tok' l'
  | _ :: _, [] => false
  end.

(** The length of the white-space rune [l] starts with, if any. *)
Definition leading_space (l : list Z) : option nat :=
  match List.filter (fun tok => starts_with tok l) space_tokens with
  | tok :: _ => Some (length tok)
  | [] => None
  end.

Fixpoint trim_left (fuel : nat) (l : list Z) : list Z :=
  match fuel with
  | O => l
  | S fuel' =>
      match leading_space l with
      | Some n => trim_left fuel' (drop n l)
      | None => l
      end
  end.

(** Trimming on the right reads the last rune backwards; the white-space
    encodings are self-delimiting, so this is trimming the reversed tokens
    on the left of the reversed string. *)
Definition trailing_space (r : list Z) : option nat :=
  match List.filter (fun tok => starts_with (rev tok) r) space_tokens with
  | tok :: _ => Some (length tok)
  | [] => None
  end.

Fixpoint trim_right_rev (fuel : nat) (r : list Z) : list Z :=
  match fuel with
  | O => r
  | S fuel' =>
      match trailing_space r with
      | Some n => trim_right_rev fuel' (drop n r)
      | None => r
      end
  end.

Definition codes (s : string) : list Z := map ascii_to_Z (list_ascii_of_string s).
Definition of_codes (l : list Z) : string :=
  string_of_list_ascii (map (fun z => ascii_of_N (Z.to_N z)) l).

Definition TrimSpace (s : string) : string :=
  let l := trim_left (String.length s) (codes s) in
  of_codes (rev (trim_right_rev (length l) (rev l))).

(** [strings.ToLower] on the ASCII letters.  On a string with runes outside
    ASCII Go also applies the Unicode case mapping; no such rune lowers to a
    hexadecimal digit, so the address pattern below rejects those strings
    under either mapping. *)
Definition lower_code (z : Z) : Z :=
  if (65 <=? z) && (z <=? 90) then z + 32 else z.

Definition ToLower (s : string) : string := of_codes (map lower_code (codes s)).

(** *** package strconv *)

Definition digit_char (d : Z) : ascii := ascii_of_N (Z.to_N (48 + d)).

Fixpoint format_digits (fuel : nat) (n : Z) (acc : string) : string :=
  match fuel with
  | O => acc
  | S fuel' =>
      let acc' := String (digit_char (n mod 10)) acc in
      if n / 10 =? 0 then acc' else format_digits fuel' (n / 10) acc'
  end.

(** [strconv.Itoa], which is also what the verb [%d] prints. *)
Definition Itoa (n : Z) : string :=
  if n <? 0
  then String "-" (format_digits (Z.to_nat (Z.log2 (- n)) + 1) (- n) "")
  else format_digits (Z.to_nat (Z.log2 n) + 1) n "".

Definition digit_value (c : ascii) : option Z :=
  let n := ascii_to_Z c in
  if (48 <=? n) && (n <=? 57) then Some (n - 48) else None.

Fixpoint parse_digits (s : string) (acc : Z) : option Z :=
  match s with
  | EmptyString => Some acc
  | String c rest =>
      match digit_value c with
      | Some d => parse_digits rest (10 * acc + d)
      | None => None
      end
  end.

(** [strconv.Quote], which [NumError.Error] applies to the input it
    reports.  The string is read rune by rune: a byte that starts no
    well-formed UTF-8 sequence is written [\xhh], the double quote and the
    backslash get a backslash, printable runes are copied, the control
    characters are written [\a \b \f \n \r \t \v] or [\xhh], and the other
    runes [\u] and four digits.  What is printable is exact up to U+00FF
    (U+0020..U+007E and U+00A1..U+00FF without the soft hyphen); above that
    [strconv.IsPrint] reads the Unicode tables of the Go release, which the
    sources do not name, and the runes are copied as the printable ones
    are. *)
Definition quote_hex (d : Z) : Z := if d <? 10 then 48 + d else 87 + d.

Definition quote_ascii (a : Z) : list Z :=
  if (a =? 34) || (a =? 92) then [92; a]
  else if (32 <=? a) && (a <=? 126) then [a]
  else if a =? 7 then [92; 97]
  else if a =? 8 then [92; 98]
  else if a =? 12 then [92; 102]
  else if a =? 10 then [92; 110]
  else if a =? 13 then [92; 114]
  else if a =? 9 then [92; 116]
  else if a =? 11 then [92; 118]
  else [92; 120; quote_hex (a / 16); quote_hex (a mod 16)].

(** [utf8.DecodeRuneInString] at a byte above 0x7f: the rune and its width,
    [None] where Go returns [RuneError] with width 1. *)
Definition decode_rune (l : list Z) : option (Z * nat) :=
  let cont (x : Z) := (128 <=? x) && (x <=? 191) in
  match l with
  | a :: b :: r =>
      if (194 <=? a) && (a <=? 223) then
        if cont b then Some ((a - 192) * 64 + (b - 128), 2%nat) else None
      else
        match r with
        | c :: r' =>
            if (224 <=? a) && (a <=? 239) then
              if cont b && cont c
                 && (if a =? 224 then 160 <=? b else if a =? 237 then b <=? 159 else true)
              then Some ((a - 224) * 4096 + (b - 128) * 64 + (c - 128), 3%nat)
              else None
            else
              match r' with
              | e :: _ =>
                  if (240 <=? a) && (a <=? 244) && cont b && cont c && cont e
                     && (if a =? 240 then 144 <=? b else if a =? 244 then b <=? 143
                         else true)
                  then Some ((a - 240) * 262144 + (b - 128) * 4096 + (c - 128) * 64
                             + (e - 128), 4%nat)
                  else None
              | [] => None
              end
        | [] => None
        end
  | _ => None
  end.

Definition quote_rune (r : Z) (bytes : list Z) : list Z :=
  if (r <=? 255) && negb ((161 <=? r) && negb (r =? 173))
  then [92; 117; 48; 48; quote_hex (r / 16); quote_hex (r mod 16)]
  else bytes.

Fixpoint quote_codes (fuel : nat) (l : list Z) : list Z :=
  match fuel with
  | O => []
  | S fuel' =>
      match l with
      | [] => []
      | a :: rest =>
          if a <? 128 then quote_ascii a ++ quote_codes fuel' rest
          else
            match decode_rune l with
            | Some (r, width) => quote_rune r (take width l) ++ quote_codes fuel' (drop width l)
            | None =>
                [92; 120; quote_hex (a / 16); quote_hex (a mod 16)] ++ quote_codes fuel' rest
            end
      end
  end.

Definition Quote (s : string) : string :=
  of_codes ([34] ++ quote_codes (String.length s) (codes s) ++ [34]).

(** [strconv.Atoi]: an optional sign, then one or more decimal digits; the
    value has to fit an [int]. *)
Definition Atoi (s : string) : result Z :=
  let syntax := Err ("strconv.Atoi: parsing " +:+ Quote s +:+ ": invalid syntax") in
  let '(neg, body) :=
    match s with
    | String "-" rest => (true, rest)
    | String "+" rest => (false, rest)
    | _ => (false, s)
    end in
  match body with
  | EmptyString => syntax
  | _ =>
      match parse_digits body 0 with
      | None => syntax
      | Some n =>
          let v := if neg then - n else n in
          if (MinInt64 <=? v) && (v <=? MaxInt64) then Ok v
          else Err ("strconv.Atoi: parsing " +:+ Quote s +:+ ": value out of range")
      end
  end.

(** *** package encoding/hex *)

Definition hex_digit (n : Z) : ascii :=
  if n <? 10 then ascii_of_N (Z.to_N (48 + n)) else ascii_of_N (Z.to_N (87 + n)).

Fixpoint EncodeToString (b : list byte) : string :=
  match b with
  | [] => ""
  | x :: rest =>
      String (hex_digit (byte_to_Z x / 16))
        (String (hex_digit (byte_to_Z x mod 16)) (EncodeToString rest))
  end.

(** The codes of the digits [hex.EncodeToString] writes. *)
Definition lower_hex (c : Z) : Prop := 48 <= c <= 57 \/ 97 <= c <= 102.

Definition hex_value (c : ascii) : Z :=
  let n := ascii_to_Z c in
  if (48 <=? n) && (n <=? 57) then n - 48
  else if (97 <=? n) && (n <=? 102) then n - 87
  else if (65 <=? n) && (n <=? 70) then n - 55
  else 0.

(** [hex.DecodeString] on well-formed input, used to write down byte strings. *)
Fixpoint DecodeString (s : string) : list byte :=
  match s with
  | String h (String l rest) => byte_of_Z (16 * hex_value h + hex_value l) :: DecodeString rest
  | _ => []
  end.

End Go.

Import Go.


(** ** The cryptographic packages the node calls

    These follow the published algorithms the Go packages implement; each is
    checked below against a test vector of its standard. *)

(** Words and byte order. *)
Module Word.

Definition add64 (a b : Z) : Z := (a + b) mod 2 ^ 64.

Definition rotr64 (x n : Z) : Z :=
  Z.lor (Z.shiftr x n) (Z.land (Z.shiftl x (64 - n)) (Z.ones 64)).

Definition not64 (x : Z) : Z := Z.lxor x (Z.ones 64).

(** Little-endian and big-endian integers. *)
Definition le_to_Z (bs : list byte) : Z :=
  fold_right (fun b acc => byte_to_Z b + 256 * acc) 0 bs.

Definition be_to_Z (bs : list byte) : Z :=
  fold_left (fun acc b => 256 * acc + byte_to_Z b) bs 0.

Fixpoint Z_to_le (n : nat) (z : Z) : list byte :=
  match n with
  | O => []
  | S n' => byte_of_Z z :: Z_to_le n' (z / 256)
  end.

Definition Z_to_be (n : nat) (z : Z) : list byte := rev (Z_to_le n z).

(** [n] words of [w] bytes each, read off the front of [bs]. *)
Fixpoint words (read : list byte -> Z) (w n : nat) (bs : list byte) : list Z :=
  match n with
  | O => []
  | S n' => read (take w bs) :: words read w n' (drop w bs)
  end.

Definition get (v : list Z) (i : nat) : Z := nth i v 0.

End Word.

(** golang.org/x/crypto/blake2b (RFC 7693), unkeyed, 32-byte digest. *)
Module blake2b.
Import Word.

Definition IV : list Z :=
  [ 0x6a09e667f3bcc908; 0xbb67ae8584caa73b; 0x3c6ef372fe94f82b; 0xa54ff53a5f1d36f1;
    0x510e527fade682d1; 0x9b05688c2b3e6c1f; 0x1f83d9abfb41bd6b; 0x5be0cd19137e2179 ].

Definition SIGMA : list (list nat) :=
  [ [0; 1; 2; 3; 4; 5; 6; 7; 8; 9; 10; 11; 12; 13; 14; 15];
    [14; 10; 4; 8; 9; 15; 13; 6; 1; 12; 0; 2; 11; 7; 5; 3];
    [11; 8; 12; 0; 5; 2; 15; 13; 10; 14; 3; 6; 7; 1; 9; 4];
    [7; 9; 3; 1; 13; 12; 11; 14; 2; 6; 5; 10; 4; 0; 15; 8];
    [9; 0; 5; 7; 2; 4; 10; 15; 14; 1; 11; 12; 6; 8; 3; 13];
    [2; 12; 6; 10; 0; 11; 8; 3; 4; 13; 7; 5; 15; 14; 1; 9];
    [12; 5; 1; 15; 14; 13; 4; 10; 0; 7; 6; 3; 9; 2; 8; 11];
    [13; 11; 7; 14; 12; 1; 3; 9; 5; 0; 15; 4; 8; 6; 2; 10];
    [6; 15; 14; 9; 11; 3; 0; 8; 12; 2; 13; 7; 1; 4; 10; 5];
    [10; 2; 8; 4; 7; 6; 1; 5; 15; 11; 9; 14; 3; 12; 13; 0] ]%nat.

Definition G (v : list Z) (a b c d : nat) (x y : Z) : list Z :=
  let va := add64 (add64 (get v a) (get v b)) x in
  let vd := rotr64 (Z.lxor (get v d) va) 32 in
  let vc := add64 (get v c) vd in
  let vb := rotr64 (Z.lxor (get v b) vc) 24 in
  let va := add64 (add64 va vb) y in
  let vd := rotr64 (Z.lxor vd va) 16 in
  let vc := add64 vc vd in
  let vb := rotr64 (Z.lxor vb vc) 63 in
  <[a := va]> (<[b := vb]> (<[c := vc]> (<[d := vd]> v))).

Definition round (m : list Z) (v : list Z) (s : list nat) : list Z :=
  let x (i : nat) := get m (nth i s O) in
  let v := G v 0 4 8 12 (x 0%nat) (x 1%nat) in
  let v := G v 1 5 9 13 (x 2%nat) (x 3%nat) in
  let v := G v 2 6 10 14 (x 4%nat) (x 5%nat) in
  let v := G v 3 7 11 15 (x 6%nat) (x 7%nat) in
  let v := G v 0 5 10 15 (x 8%nat) (x 9%nat) in
  let v := G v 1 6 11 12 (x 10%nat) (x 11%nat) in
  let v := G v 2 7 8 13 (x 12%nat) (x 13%nat) in
  G v 3 4 9 14 (x 14%nat) (x 15%nat).

(** The compression function: [h] the chain value, [m] the 16 message
    words, [t] the byte counter, [last] the final-block flag. *)
Definition F (h m : list Z) (t : Z) (last : bool) : list Z :=
  let v := h ++ IV in
  let v := <[12%nat := Z.lxor (get v 12) (t mod 2 ^ 64)]> v in
  let v := <[13%nat := Z.lxor (get v 13) (t / 2 ^ 64)]> v in
  let v := if last then <[14%nat := not64 (get v 14)]> v else v in
  let v := fold_left (round m) (SIGMA ++ take 2 SIGMA) v in
  map (fun i => Z.lxor (Z.lxor (get h i) (get v i)) (get v (i + 8)))
      (seq 0 8).

Definition block_words (block : list byte) : list Z :=
  words le_to_Z 8 16 (block ++ repeat x00 (128 - length block)).

Fixpoint absorb (fuel : nat) (h : list Z) (t : Z) (data : list byte) : list Z :=
  match fuel with
  | O => h
  | S fuel' =>
      if (length data <=? 128)%nat
      then F h (block_words data) (t + Z.of_nat (length data)) true
      else absorb fuel' (F h (block_words (take 128 data)) (t + 128) false)
                  (t + 128) (drop 128 data)
  end.

(** [blake2b.Sum256]. *)
Definition Sum256 (data : list byte) : list byte :=
  let h0 := <[0%nat := Z.lxor (get IV 0) 0x01010020]> IV in
  let h := absorb (length data / 128 + 1) h0 0 data in
  concat (map (Z_to_le 8) (take 4 h)).

(** The [hash.Hash] returned by [blake2b.New256(nil)], as the bytes written
    to it so far. *)
Definition Hash : Type := list byte.
Definition New256 : Hash := [].
Definition Write (h : Hash) (data : list byte) : Hash := h ++ data.
Definition Reset (h : Hash) : Hash := [].
(** [h.Sum(b)] appends the digest of what was written to [b]. *)
Definition Sum (h : Hash) (b : list byte) : list byte := b ++ Sum256 h.

End blake2b.

(** crypto/sha512 (FIPS 180-4). *)
Module sha512.
Import Word.

Definition H0 : list Z := blake2b.IV.

Definition K : list Z :=
  [
    0x428a2f98d728ae22; 0x7137449123ef65cd; 0xb5c0fbcfec4d3b2f; 0xe9b5dba58189dbbc;
    0x3956c25bf348b538; 0x59f111f1b605d019; 0x923f82a4af194f9b; 0xab1c5ed5da6d8118;
    0xd807aa98a3030242; 0x12835b0145706fbe; 0x243185be4ee4b28c; 0x550c7dc3d5ffb4e2;
    0x72be5d74f27b896f; 0x80deb1fe3b1696b1; 0x9bdc06a725c71235; 0xc19bf174cf692694;
    0xe49b69c19ef14ad2; 0xefbe4786384f25e3; 0x0fc19dc68b8cd5b5; 0x240ca1cc77ac9c65;
    0x2de92c6f592b0275; 0x4a7484aa6ea6e483; 0x5cb0a9dcbd41fbd4; 0x76f988da831153b5;
    0x983e5152ee66dfab; 0xa831c66d2db43210; 0xb00327c898fb213f; 0xbf597fc7beef0ee4;
    0xc6e00bf33da88fc2; 0xd5a79147930aa725; 0x06ca6351e003826f; 0x142929670a0e6e70;
    0x27b70a8546d22ffc; 0x2e1b21385c26c926; 0x4d2c6dfc5ac42aed; 0x53380d139d95b3df;
    0x650a73548baf63de; 0x766a0abb3c77b2a8; 0x81c2c92e47edaee6; 0x92722c851482353b;
    0xa2bfe8a14cf10364; 0xa81a664bbc423001; 0xc24b8b70d0f89791; 0xc76c51a30654be30;
    0xd192e819d6ef5218; 0xd69906245565a910; 0xf40e35855771202a; 0x106aa07032bbd1b8;
    0x19a4c116b8d2d0c8; 0x1e376c085141ab53; 0x2748774cdf8eeb99; 0x34b0bcb5e19b48a8;
    0x391c0cb3c5c95a63; 0x4ed8aa4ae3418acb; 0x5b9cca4f7763e373; 0x682e6ff3d6b2b8a3;
    0x748f82ee5defb2fc; 0x78a5636f43172f60; 0x84c87814a1f0ab72; 0x8cc702081a6439ec;
    0x90befffa23631e28; 0xa4506cebde82bde9; 0xbef9a3f7b2c67915; 0xc67178f2e372532b;
    0xca273eceea26619c; 0xd186b8c721c0c207; 0xeada7dd6cde0eb1e; 0xf57d4f7fee6ed178;
    0x06f067aa72176fba; 0x0a637dc5a2c898a6; 0x113f9804bef90dae; 0x1b710b35131c471b;
    0x28db77f523047d84; 0x32caab7b40c72493; 0x3c9ebe0a15c9bebc; 0x431d67c49c100d4c;
    0x4cc5d4becb3e42b6; 0x597f299cfc657e2a; 0x5fcb6fab3ad6faec; 0x6c44198c4a475817 ].

Definition Ch (x y z : Z) : Z := Z.lxor (Z.land x y) (Z.land (not64 x) z).
Definition Maj (x y z : Z) : Z :=
  Z.lxor (Z.lxor (Z.land x y) (Z.land x z)) (Z.land y z).
Definition Sigma0 (x : Z) : Z := Z.lxor (Z.lxor (rotr64 x 28) (rotr64 x 34)) (rotr64 x 39).
Definition Sigma1 (x : Z) : Z := Z.lxor (Z.lxor (rotr64 x 14) (rotr64 x 18)) (rotr64 x 41).
Definition sigma0 (x : Z) : Z := Z.lxor (Z.lxor (rotr64 x 1) (rotr64 x 8)) (Z.shiftr x 7).
Definition sigma1 (x : Z) : Z := Z.lxor (Z.lxor (rotr64 x 19) (rotr64 x 61)) (Z.shiftr x 6).

(** The message schedule, newest word first. *)
Fixpoint schedule (n : nat) (w : list Z) : list Z :=
  match n with
  | O => w
  | S n' =>
      let next :=
        add64 (add64 (sigma1 (get w 1)) (get w 6))
              (add64 (sigma0 (get w 14)) (get w 15)) in
      schedule n' (next :: w)
  end.

Definition step (s : list Z) (kw : Z * Z) : list Z :=
  match s with
  | [a; b; c; d; e; f; g; h] =>
      let t1 := add64 (add64 (add64 h (Sigma1 e)) (Ch e f g)) (add64 (fst kw) (snd kw)) in
      let t2 := add64 (Sigma0 a) (Maj a b c) in
      [add64 t1 t2; a; b; c; add64 d t1; e; f; g]
  | _ => s
  end.

Definition compress (h : list Z) (block : list byte) : list Z :=
  let w := rev (schedule 64 (rev (words be_to_Z 8 16 block))) in
  let s := fold_left step (combine K w) h in
  map (fun '(x, y) => add64 x y) (combine h s).

Definition pad (data : list byte) : list byte :=
  let n := Z.of_nat (length data) in
  data ++ [x80] ++ repeat x00 (Z.to_nat ((111 - n) mod 128)) ++ Z_to_be 16 (8 * n).

Fixpoint blocks (n : nat) (bs : list byte) : list (list byte) :=
  match n with
  | O => []
  | S n' => take 128 bs :: blocks n' (drop 128 bs)
  end.

(** [sha512.Sum512]. *)
Definition Sum512 (data : list byte) : list byte :=
  let padded := pad data in
  let h := fold_left compress (blocks (length padded / 128) padded) H0 in
  concat (map (Z_to_be 8) h).

End sha512.


(** crypto/ed25519 (RFC 8032, as Go's edwards25519 decodes and compares
    points).  Field elements are [bigZ] so that the model runs. *)
Module ed25519.
Import Word.

Definition PublicKeySize : nat := 32.
Definition PrivateKeySize : nat := 64.
Definition SignatureSize : nat := 64.
Definition SeedSize : nat := 32.

Definition p_Z : Z := 2 ^ 255 - 19.
Definition L_Z : Z := 2 ^ 252 + 27742317777372353535851937790883648493.

Definition p : bigZ := Eval vm_compute in BigZ.of_Z p_Z.

Definition fadd (a b : bigZ) : bigZ := ((a + b) mod p)%bigZ.
Definition fsub (a b : bigZ) : bigZ := ((a - b) mod p)%bigZ.
Definition fmul (a b : bigZ) : bigZ := ((a * b) mod p)%bigZ.
Definition feq (a b : bigZ) : bool := BigZ.eqb (a mod p)%bigZ (b mod p)%bigZ.

Fixpoint fpow_pos (b : bigZ) (e : positive) : bigZ :=
  match e with
  | xH => b
  | xO e' => let h := fpow_pos b e' in fmul h h
  | xI e' => let h := fpow_pos b e' in fmul b (fmul h h)
  end.

Definition fpow (b : bigZ) (e : Z) : bigZ :=
  match e with
  | Zpos e' => fpow_pos b e'
  | _ => 1%bigZ
  end.

Definition finv (x : bigZ) : bigZ := fpow x (p_Z - 2).

Definition d : bigZ := Eval vm_compute in fmul (fsub 0 121665) (finv 121666).
Definition sqrt_m1 : bigZ := Eval vm_compute in fpow 2 ((p_Z - 1) / 4).

(** Points in extended homogeneous coordinates (X, Y, Z, T). *)
Definition point : Type := bigZ * bigZ * bigZ * bigZ.

Definition identity : point := (0, 1, 1, 0)%bigZ.

Definition point_add (P Q : point) : point :=
  let '(X1, Y1, Z1, T1) := P in
  let '(X2, Y2, Z2, T2) := Q in
  let A := fmul (fsub Y1 X1) (fsub Y2 X2) in
  let B := fmul (fadd Y1 X1) (fadd Y2 X2) in
  let C := fmul (fmul (fmul 2 T1) T2) d in
  let D := fmul (fmul 2 Z1) Z2 in
  let E := fsub B A in
  let F := fsub D C in
  let G := fadd D C in
  let H := fadd B A in
  (fmul E F, fmul G H, fmul F G, fmul E H).

Definition point_neg (P : point) : point :=
  let '(X, Y, Z, T) := P in (fsub 0 X, Y, Z, fsub 0 T).

Fixpoint point_mul_pos (P : point) (k : positive) : point :=
  match k with
  | xH => P
  | xO k' => let Q := point_mul_pos P k' in point_add Q Q
  | xI k' => let Q := point_mul_pos P k' in point_add P (point_add Q Q)
  end.

Definition point_mul (k : Z) (P : point) : point :=
  match k with
  | Zpos k' => point_mul_pos P k'
  | _ => identity
  end.

(** The non-negative (even) square root of [u/v], if [u/v] is a square. *)
Definition sqrt_ratio (u v : bigZ) : option bigZ :=
  let x2 := fmul u (finv v) in
  let x := fpow x2 ((p_Z + 3) / 8) in
  let x := if feq (fmul x x) x2 then x else fmul x sqrt_m1 in
  if feq (fmul x x) x2
  then Some (if BigZ.odd x then fsub 0 x else x)
  else None.

(** [Point.SetBytes]: the top bit is the sign of x, the rest is y, which
    may be given unreduced. *)
Definition decode_point (bs : list byte) : option point :=
  let n := le_to_Z bs in
  let sign := Z.testbit n 255 in
  let y := (BigZ.of_Z (Z.land n (Z.ones 255)) mod p)%bigZ in
  let yy := fmul y y in
  match sqrt_ratio (fsub yy 1) (fadd (fmul d yy) 1) with
  | None => None
  | Some x =>
      let x := if sign then fsub 0 x else x in
      Some (x, y, 1%bigZ, fmul x y)
  end.

(** [Point.Bytes]. *)
Definition encode_point (P : point) : list byte :=
  let '(X, Y, Z, _) := P in
  let zinv := finv Z in
  let x := BigZ.to_Z (fmul X zinv) in
  let y := BigZ.to_Z (fmul Y zinv) in
  Z_to_le 32 (Z.lor y (Z.shiftl (x mod 2) 255)).

(** The base point: y = 4/5 and x the even root. *)
Definition base_point : option point :=
  let y := fmul 4 (finv 5) in
  let yy := fmul y y in
  option_map (fun x => (x, y, 1%bigZ, fmul x y))
             (sqrt_ratio (fsub yy 1) (fadd (fmul d yy) 1)).

Definition B : point := Eval vm_compute in default identity base_point.

(** [Scalar.SetBytesWithClamping]. *)
Definition clamp (bs : list byte) : Z :=
  Z.lor (Z.land (le_to_Z bs) (2 ^ 254 - 8)) (2 ^ 254).

(** [Scalar.SetUniformBytes] of a SHA-512 digest. *)
Definition hash_mod_L (data : list byte) : Z := le_to_Z (sha512.Sum512 data) mod L_Z.

(** [ed25519.NewKeyFromSeed]: the private key is the seed followed by the
    public key. *)
Definition NewKeyFromSeed (seed : list byte) : list byte :=
  let a := clamp (take 32 (sha512.Sum512 seed)) in
  seed ++ encode_point (point_mul a B).

(** [PrivateKey.Public]. *)
Definition Public (privateKey : list byte) : list byte := drop 32 privateKey.

Definition Sign (privateKey message : list byte) : exec (list byte) :=
  if negb (length privateKey =? PrivateKeySize)%nat
  then Panic ("ed25519: bad private key length: " +:+ Itoa (Z.of_nat (length privateKey)))
  else
    let seed := take 32 privateKey in
    let publicKey := drop 32 privateKey in
    let h := sha512.Sum512 seed in
    let s := clamp (take 32 h) in
    let prefix := drop 32 h in
    let r := hash_mod_L (prefix ++ message) in
    let R := encode_point (point_mul r B) in
    let k := hash_mod_L (R ++ publicKey ++ message) in
    let S := (k * s + r) mod L_Z in
    Return (R ++ Z_to_le 32 S).

Definition Verify (publicKey message sig : list byte) : exec bool :=
  if negb (length publicKey =? PublicKeySize)%nat
  then Panic ("ed25519: bad public key length: " +:+ Itoa (Z.of_nat (length publicKey)))
  else if negb (length sig =? SignatureSize)%nat
            || negb (Z.land (byte_to_Z (nth 63 sig x00)) 224 =? 0)
  then Return false
  else
    match decode_point publicKey with
    | None => Return false
    | Some A =>
        let k := hash_mod_L (take 32 sig ++ publicKey ++ message) in
        let S := le_to_Z (drop 32 sig) in
        if negb (S <? L_Z) then Return false
        else
          let R := point_add (point_mul k (point_neg A)) (point_mul S B) in
          Return (bytes_Equal (take 32 sig) (encode_point R))
    end.

End ed25519.


(** crypto/aes (FIPS 197): the block cipher, encryption direction only, which
    is all that CFB mode uses. *)
Module aes.

Definition BlockSize : nat := 16.

(** Arithmetic in GF(2^8) modulo x^8 + x^4 + x^3 + x + 1. *)
Definition xtime (a : Z) : Z :=
  if 2 * a <? 256 then 2 * a else Z.lxor (2 * a - 256) 0x1b.

Fixpoint gmul_bits (n : nat) (a b : Z) : Z :=
  match n with
  | O => 0
  | S n' => Z.lxor (if Z.odd b then a else 0) (gmul_bits n' (xtime a) (b / 2))
  end.

Definition gmul (a b : Z) : Z := gmul_bits 8 a b.

(** The multiplicative inverse a^254, with 0 mapped to 0. *)
Definition ginv (a : Z) : Z :=
  fold_left (fun acc _ => gmul acc a) (seq 0 253) a.

Definition rotl8 (x n : Z) : Z :=
  Z.land (Z.lor (Z.shiftl x n) (Z.shiftr x (8 - n))) 255.

Definition sbox_of (a : Z) : Z :=
  let b := ginv a in
  Z.lxor (Z.lxor (Z.lxor (Z.lxor (Z.lxor b (rotl8 b 1)) (rotl8 b 2)) (rotl8 b 3)) (rotl8 b 4)) 0x63.

Definition sbox_table : list Z :=
  Eval vm_compute in map (fun i => sbox_of (Z.of_nat i)) (seq 0 256).

Definition sbox (x : Z) : Z := nth (Z.to_nat x) sbox_table 0.

(** The state is the 16 bytes of the block, column after column. *)
Definition SubBytes (st : list Z) : list Z := map sbox st.

Definition ShiftRows (st : list Z) : list Z :=
  map (fun i => nth ((i mod 4) + 4 * ((i / 4 + i mod 4) mod 4))%nat st 0) (seq 0 16).

Definition mix_column (col : list Z) : list Z :=
  match col with
  | [a0; a1; a2; a3] =>
      [ Z.lxor (Z.lxor (gmul 2 a0) (gmul 3 a1)) (Z.lxor a2 a3);
        Z.lxor (Z.lxor a0 (gmul 2 a1)) (Z.lxor (gmul 3 a2) a3);
        Z.lxor (Z.lxor a0 a1) (Z.lxor (gmul 2 a2) (gmul 3 a3));
        Z.lxor (Z.lxor (gmul 3 a0) a1) (Z.lxor a2 (gmul 2 a3)) ]
  | _ => col
  end.

Definition MixColumns (st : list Z) : list Z :=
  concat (map (fun c => mix_column (take 4 (drop (4 * c) st))) (seq 0 4)).

Definition AddRoundKey (st rk : list Z) : list Z :=
  map (fun '(x, k) => Z.lxor x k) (combine st rk).

Definition xor_word (a b : list Z) : list Z :=
  map (fun '(x, y) => Z.lxor x y) (combine a b).

Definition RotWord (w : list Z) : list Z := drop 1 w ++ take 1 w.

Definition Rcon (j : nat) : list Z :=
  [fold_left (fun acc _ => xtime acc) (seq 0 (j - 1)) 1; 0; 0; 0].

(** The key schedule, newest word first: [i] is the index of the next word
    and [n] the number of words still to produce. *)
Fixpoint expand (n : nat) (Nk i : nat) (w : list (list Z)) : list (list Z) :=
  match n with
  | O => w
  | S n' =>
      let temp := nth 0 w [] in
      let temp :=
        if (i mod Nk =? 0)%nat then xor_word (map sbox (RotWord temp)) (Rcon (i / Nk))
        else if (6 <? Nk)%nat && (i mod Nk =? 4)%nat then map sbox temp
        else temp in
      expand n' Nk (S i) (xor_word (nth (Nk - 1) w []) temp :: w)
  end.

(** The round keys, 16 bytes each, for a key of 16, 24 or 32 bytes. *)
Definition KeyExpansion (key : list Z) : list (list Z) :=
  let Nk := (length key / 4)%nat in
  let Nr := (Nk + 6)%nat in
  let w0 := rev (map (fun i => take 4 (drop (4 * i) key)) (seq 0 Nk)) in
  let w := concat (rev (expand (4 * (Nr + 1) - Nk) Nk Nk w0)) in
  map (fun r => take 16 (drop (16 * r) w)) (seq 0 (Nr + 1)).

Definition cipher_rounds (rks : list (list Z)) (input : list Z) : list Z :=
  match rks with
  | [] => input
  | rk0 :: rest =>
      let middle := removelast rest in
      let final := List.last rest [] in
      let st := AddRoundKey input rk0 in
      let st := fold_left (fun st rk => AddRoundKey (MixColumns (ShiftRows (SubBytes st))) rk)
                          middle st in
      AddRoundKey (ShiftRows (SubBytes st)) final
  end.

(** A [cipher.Block]: the key schedule of a valid key. *)
Definition Block : Type := list (list Z).

(** [aes.NewCipher]. *)
Definition NewCipher (key : list byte) : result Block :=
  match length key with
  | 16%nat | 24%nat | 32%nat => Ok (KeyExpansion (map byte_to_Z key))
  | k => Err ("crypto/aes: invalid key size " +:+ Itoa (Z.of_nat k))
  end.

(** [Block.Encrypt] of one block. *)
Definition Encrypt (b : Block) (src : list byte) : list byte :=
  map byte_of_Z (cipher_rounds b (map byte_to_Z src)).

End aes.

(** crypto/cipher: cipher feedback mode.  A [cfb] stream holds the shift
    register [next], the key stream block [out] and how much of it is used;
    [XORKeyStream] consumes [src] in runs that end at a block boundary, which
    is written here one byte at a time. *)
Module cipher.

Fixpoint XORKeyStream (b : aes.Block) (decrypt : bool)
         (next out : list byte) (outUsed : nat) (src : list byte) : list byte :=
  match src with
  | [] => []
  | s :: src' =>
      let '(out, outUsed) :=
        if (outUsed =? aes.BlockSize)%nat then (aes.Encrypt b next, O) else (out, outUsed) in
      let dst := byte_xor s (nth outUsed out x00) in
      let next := <[outUsed := if decrypt then s else dst]> next in
      dst :: XORKeyStream b decrypt next out (S outUsed) src'
  end.

(** [NewCFBEncrypter(block, iv)] / [NewCFBDecrypter(block, iv)] followed by
    one [XORKeyStream(dst, src)]; the stream starts with an all-used key
    stream block.  The constructors panic unless the IV is one block long;
    the two callers below always pass [aes.BlockSize] bytes. *)
Definition CFB (b : aes.Block) (iv : list byte) (decrypt : bool) (src : list byte)
  : list byte :=
  XORKeyStream b decrypt iv (repeat x00 aes.BlockSize) aes.BlockSize src.

(** [io.ReadFull(r, buf)] on a reader that still holds the bytes [r]. *)
Definition ReadFull (r : list byte) (n : nat) : result (list byte) :=
  if (n <=? length r)%nat then Ok (take n r)
  else Err (if (length r =? 0)%nat then "EOF" else "unexpected EOF").

End cipher.


(** google.golang.org/protobuf: the proto3 wire format. *)
Module proto.

Fixpoint varint_digits (fuel : nat) (n : Z) : list byte :=
  match fuel with
  | O => []
  | S fuel' =>
      if n <? 128 then [byte_of_Z n]
      else byte_of_Z (n mod 128 + 128) :: varint_digits fuel' (n / 128)
  end.

(** A signed value is written as the varint of its 64-bit two's complement. *)
Definition varint (n : Z) : list byte := varint_digits 10 (n mod 2 ^ 64).

Definition tag (field wire : Z) : list byte := varint (8 * field + wire).

Definition len_delimited (field : Z) (payload : list byte) : list byte :=
  tag field 2 ++ varint (Z.of_nat (length payload)) ++ payload.

(** Singular scalar fields are left out when they hold the zero value. *)
Definition string_field (field : Z) (s : string) : list byte :=
  match s with
  | EmptyString => []
  | _ => len_delimited field (bytes_of_string s)
  end.

Definition bytes_field (field : Z) (b : list byte) : list byte :=
  match b with
  | [] => []
  | _ => len_delimited field b
  end.

Definition int_field (field : Z) (v : Z) : list byte :=
  if v =? 0 then [] else tag field 0 ++ varint v.

(** Well-formed UTF-8 (RFC 3629), which [Marshal] demands of string fields. *)
Fixpoint utf8_valid (fuel : nat) (l : list Z) : bool :=
  let cont (x : Z) := (128 <=? x) && (x <=? 191) in
  match fuel with
  | O => true
  | S fuel' =>
      match l with
      | [] => true
      | a :: r =>
          if a <? 128 then utf8_valid fuel' r
          else if (194 <=? a) && (a <=? 223) then
            match r with
            | b :: r' => cont b && utf8_valid fuel' r'
            | _ => false
            end
          else if (224 <=? a) && (a <=? 239) then
            match r with
            | b :: c :: r' =>
                cont b && cont c
                && (if a =? 224 then 160 <=? b else if a =? 237 then b <=? 159 else true)
                && utf8_valid fuel' r'
            | _ => false
            end
          else if (240 <=? a) && (a <=? 244) then
            match r with
            | b :: c :: e :: r' =>
                cont b && cont c && cont e
                && (if a =? 240 then 144 <=? b else if a =? 244 then b <=? 143 else true)
                && utf8_valid fuel' r'
            | _ => false
            end
          else false
      end
  end.

Definition ValidString (s : string) : bool := utf8_valid (String.length s) (codes s).

End proto.

(** The generated protobuf messages of package thrylos. *)
Module thrylos.

Record UTXO : Type := {
  TransactionId : string;
  Index : Z;          (* int32 *)
  OwnerAddress : string;
  Amount : Z          (* int64 *)
}.

Record Transaction : Type := {
  Id : string;
  Timestamp : Z;      (* int64 *)
  Inputs : list UTXO;
  Outputs : list UTXO;
  Signature : list byte;
  PreviousTxIds : list string;
  Sender : string
}.

Definition with_Signature (tx : Transaction) (sig : list byte) : Transaction :=
  {| Id := Id tx; Timestamp := Timestamp tx; Inputs := Inputs tx; Outputs := Outputs tx;
     Signature := sig; PreviousTxIds := PreviousTxIds tx; Sender := Sender tx |}.

Definition marshal_UTXO (u : UTXO) : list byte :=
  proto.string_field 1 (TransactionId u) ++ proto.int_field 2 (Index u)
  ++ proto.string_field 3 (OwnerAddress u) ++ proto.int_field 4 (Amount u).

Definition valid_UTXO (u : UTXO) : bool :=
  proto.ValidString (TransactionId u) && proto.ValidString (OwnerAddress u).

(** Modelled from the spec: the generated message code (thrylos.pb.go) is
    not among the sources, so the field numbers are taken from the order in
    which the specification lists the fields of the encoding (id, sender,
    timestamp, inputs, outputs, previous_tx_ids), with the signature last;
    the wire format itself is proto3's.  [proto.Marshal] fails on a string
    field that is not valid UTF-8. *)
Definition Marshal (tx : Transaction) : result (list byte) :=
  if proto.ValidString (Id tx) && proto.ValidString (Sender tx)
     && forallb valid_UTXO (Inputs tx) && forallb valid_UTXO (Outputs tx)
     && forallb proto.ValidString (PreviousTxIds tx)
  then
    Ok (proto.string_field 1 (Id tx)
        ++ proto.string_field 2 (Sender tx)
        ++ proto.int_field 3 (Timestamp tx)
        ++ concat (map (fun u => proto.len_delimited 4 (marshal_UTXO u)) (Inputs tx))
        ++ concat (map (fun u => proto.len_delimited 5 (marshal_UTXO u)) (Outputs tx))
        ++ concat (map (fun s => proto.len_delimited 6 (bytes_of_string s)) (PreviousTxIds tx))
        ++ proto.bytes_field 7 (Signature tx))
  else Err "proto: string field contains invalid UTF-8".

End thrylos.

(** ** package shared, src/shared/transaction.go *)
Module shared.

(** The struct declaration of [UTXO] is not among the sources; these are the
    fields the code reads and writes. *)
Record UTXO : Type := {
  ID : string;
  TransactionID : string;
  Index : Z;          (* int *)
  OwnerAddress : string;
  Amount : Z;         (* int *)
  IsSpent : bool
}.

Record Transaction : Type := {
  tx_ID : string;
  tx_Timestamp : Z;
  tx_Inputs : list UTXO;
  tx_Outputs : list UTXO;
  tx_EncryptedInputs : list byte;
  tx_EncryptedOutputs : list byte;
  tx_Signature : list byte;
  tx_EncryptedAESKey : list byte;
  tx_PreviousTxIds : list string;
  tx_Sender : string
}.

(** [rand] is what [rand.Reader] delivers. *)
Definition EncryptWithAES (key plaintext : list byte) (rand : list byte)
  : result (list byte) :=
  match aes.NewCipher key with
  | Err err => Err err
  | Ok block =>
      match cipher.ReadFull rand aes.BlockSize with
      | Err err => Err err
      | Ok iv => Ok (iv ++ cipher.CFB block iv false plaintext)
      end
  end.

Definition DecryptWithAES (key ciphertext : list byte) : result (list byte) :=
  match aes.NewCipher key with
  | Err err => Err err
  | Ok block =>
      if (length ciphertext <? aes.BlockSize)%nat then Err "ciphertext too short"
      else
        let iv := take aes.BlockSize ciphertext in
        let ciphertext := drop aes.BlockSize ciphertext in
        Ok (cipher.CFB block iv true ciphertext)
  end.

(** A fresh hasher is created and nothing is written to it: [Sum(pubKey)]
    appends the digest of the empty input to the key. *)
Definition computeAddressFromPublicKey (pubKey : list byte) : string :=
  let blake2bHasher := blake2b.New256 in
  let hash := blake2b.Sum blake2bHasher pubKey in
  EncodeToString hash.

Definition HashData (data : list byte) : list byte :=
  let hash := blake2b.Write blake2b.New256 data in
  blake2b.Sum hash [].

(** [tx] is updated in place; the updated message is returned with the
    error. *)
Definition SignTransaction (tx : thrylos.Transaction) (ed25519PrivateKey : list byte)
  : exec (thrylos.Transaction * option error) :=
  match thrylos.Marshal tx with
  | Err err => Return (tx, Some ("failed to serialize transaction: " +:+ err))
  | Ok txBytes =>
      match ed25519.Sign ed25519PrivateKey txBytes with
      | Panic msg => Panic msg
      | Return ed25519Signature =>
          Return (thrylos.with_Signature tx ed25519Signature, None)
      end
  end.

Definition VerifyTransactionSignature (tx : thrylos.Transaction) (ed25519PublicKey : list byte)
  : exec (option error) :=
  match thrylos.Marshal tx with
  | Err err => Return (Some ("failed to serialize transaction for verification: " +:+ err))
  | Ok txBytes =>
      match ed25519.Verify ed25519PublicKey txBytes (thrylos.Signature tx) with
      | Panic msg => Panic msg
      | Return false => Return (Some "Ed25519 signature verification failed")
      | Return true => Return None
      end
  end.

Definition VerifyTransaction (tx : thrylos.Transaction)
           (utxos : gmap string (list thrylos.UTXO))
           (getPublicKeyFunc : string -> result (list byte))
  : exec (bool * option error) :=
  if (length (thrylos.Inputs tx) =? 0)%nat
  then Return (false, Some "Transaction has no inputs")
  else
    let senderAddress := thrylos.Sender tx in
    match getPublicKeyFunc senderAddress with
    | Err err =>
        Return (false, Some ("Error retrieving Ed25519 public key for address "
                             +:+ senderAddress +:+ ": " +:+ err))
    | Ok ed25519PublicKey =>
        let txCopy := thrylos.with_Signature tx [] in
        match thrylos.Marshal txCopy with
        | Err err =>
            Return (false, Some ("Error serializing transaction for verification: " +:+ err))
        | Ok txBytes =>
            match VerifyTransactionSignature tx ed25519PublicKey with
            | Panic msg => Panic msg
            | Return (Some err) =>
                Return (false, Some ("Transaction signature verification failed: " +:+ err))
            | Return None => Return (true, None)
            end
        end
    end.

(** [int(input.Index)] and [int(input.Amount)] widen without loss; the [ID]
    and the spent flag are left at their zero values. *)
Definition local_UTXO (u : thrylos.UTXO) : UTXO :=
  {| ID := ""; TransactionID := thrylos.TransactionId u; Index := thrylos.Index u;
     OwnerAddress := thrylos.OwnerAddress u; Amount := thrylos.Amount u; IsSpent := false |}.

Definition ConvertThrylosTransactionToLocal (tx : thrylos.Transaction) : result Transaction :=
  Ok {| tx_ID := thrylos.Id tx;
        tx_Timestamp := thrylos.Timestamp tx;
        tx_Inputs := map local_UTXO (thrylos.Inputs tx);
        tx_Outputs := map local_UTXO (thrylos.Outputs tx);
        tx_EncryptedInputs := [];
        tx_EncryptedOutputs := [];
        tx_Signature := thrylos.Signature tx;
        tx_EncryptedAESKey := [];
        tx_PreviousTxIds := thrylos.PreviousTxIds tx;
        tx_Sender := "" |}.

Definition sum_Amounts (l : list UTXO) : Z :=
  fold_left (fun acc u => int (acc + Amount u)) l 0.

(** The loop over the inputs: [None] when an input is not found. *)
Fixpoint input_sum (inputs : list UTXO) (availableUTXOs : gmap string (list UTXO))
         (inputSum : Z) : option Z :=
  match inputs with
  | [] => Some inputSum
  | input :: rest =>
      let utxoKey := TransactionID input +:+ Itoa (Index input) in
      match availableUTXOs !! utxoKey with
      | Some (u :: _) => input_sum rest availableUTXOs (int (inputSum + Amount u))
      | _ => None
      end
  end.

Definition ValidateTransaction (tx : Transaction) (availableUTXOs : gmap string (list UTXO))
  : bool :=
  match input_sum (tx_Inputs tx) availableUTXOs 0 with
  | None => false
  | Some inputSum =>
      let outputSum := sum_Amounts (tx_Outputs tx) in
      inputSum =? outputSum
  end.

(** The pattern [^[0-9a-fA-F]{40,64}$]. *)
Definition is_hex_code (z : Z) : bool :=
  ((48 <=? z) && (z <=? 57)) || ((97 <=? z) && (z <=? 102)) || ((65 <=? z) && (z <=? 70)).

Definition addressRegex_MatchString (s : string) : bool :=
  forallb is_hex_code (codes s)
  && (40 <=? String.length s)%nat && (String.length s <=? 64)%nat.

Definition SanitizeAndFormatAddress (address : string) : result string :=
  let address := TrimSpace address in
  let address := ToLower address in
  if negb (addressRegex_MatchString address)
  then Err ("invalid address format: " +:+ address)
  else Ok address.

(** The sum of the amounts, as a mathematical integer. *)
Definition amount_sum (l : list UTXO) : Z := foldr (fun u acc => Amount u + acc) 0 l.

(** The key under which [ValidateTransaction] looks an input up. *)
Definition utxoKey (input : UTXO) : string := TransactionID input +:+ Itoa (Index input).

(** The ledger entries the inputs refer to: under the key of each input, the
    first element of the slice. *)
Fixpoint referred (inputs : list UTXO) (availableUTXOs : gmap string (list UTXO))
  : option (list UTXO) :=
  match inputs with
  | [] => Some []
  | input :: rest =>
      match availableUTXOs !! utxoKey input, referred rest availableUTXOs with
      | Some (u :: _), Some found => Some (u :: found)
      | _, _ => None
      end
  end.

(** [int32(input.Index)] keeps the low 32 bits; [int64(input.Amount)] is the
    amount itself on a 64-bit platform. *)
Definition thrylos_UTXO (u : UTXO) : thrylos.UTXO :=
  {| thrylos.TransactionId := TransactionID u; thrylos.Index := int32 (Index u);
     thrylos.OwnerAddress := OwnerAddress u; thrylos.Amount := int64 (Amount u) |}.

(** The signature and the sender are left at their zero values. *)
Definition ConvertLocalTransactionToThrylosTransaction (tx : Transaction)
  : result thrylos.Transaction :=
  Ok {| thrylos.Id := tx_ID tx;
        thrylos.Timestamp := tx_Timestamp tx;
        thrylos.Inputs := map thrylos_UTXO (tx_Inputs tx);
        thrylos.Outputs := map thrylos_UTXO (tx_Outputs tx);
        thrylos.Signature := [];
        thrylos.PreviousTxIds := tx_PreviousTxIds tx;
        thrylos.Sender := "" |}.

(** The previous transaction ids are left out. *)
Definition ConvertToProtoTransaction (tx : Transaction) : thrylos.Transaction :=
  {| thrylos.Id := tx_ID tx;
     thrylos.Timestamp := tx_Timestamp tx;
     thrylos.Inputs := map thrylos_UTXO (tx_Inputs tx);
     thrylos.Outputs := map thrylos_UTXO (tx_Outputs tx);
     thrylos.Signature := tx_Signature tx;
     thrylos.PreviousTxIds := [];
     thrylos.Sender := tx_Sender tx |}.

Definition selectTips : result (list string) := Ok ["prevTxID1"; "prevTxID2"].

Section Serialize.

(** [serializeUTXOs] is not among the sources. *)
Variable serializeUTXOs : list UTXO -> result (list byte).

(** [now] is [time.Now().Unix()], [rand] what [rand.Reader] delivers from
    the call on: each [EncryptWithAES] takes the 16 bytes of its IV. *)
Definition CreateAndSignTransaction (id sender : string) (inputs outputs : list UTXO)
           (ed25519PrivateKey aesKey : list byte) (now : Z) (rand : list byte)
  : exec (result Transaction) :=
  match selectTips with
  | Err err => Return (Err ("failed to select previous transactions: " +:+ err))
  | Ok previousTxIDs =>
  match serializeUTXOs inputs with
  | Err err => Return (Err ("failed to serialize inputs: " +:+ err))
  | Ok serializedInputs =>
  match EncryptWithAES aesKey serializedInputs rand with
  | Err err => Return (Err ("failed to encrypt inputs: " +:+ err))
  | Ok encryptedInputs =>
  match serializeUTXOs outputs with
  | Err err => Return (Err ("failed to serialize outputs: " +:+ err))
  | Ok serializedOutputs =>
  match EncryptWithAES aesKey serializedOutputs (drop aes.BlockSize rand) with
  | Err err => Return (Err ("failed to encrypt outputs: " +:+ err))
  | Ok encryptedOutputs =>
      let tx := {| tx_ID := id; tx_Timestamp := now; tx_Inputs := []; tx_Outputs := [];
                   tx_EncryptedInputs := encryptedInputs;
                   tx_EncryptedOutputs := encryptedOutputs;
                   tx_Signature := []; tx_EncryptedAESKey := [];
                   tx_PreviousTxIds := previousTxIDs; tx_Sender := sender |} in
      match ConvertLocalTransactionToThrylosTransaction tx with
      | Err err => Return (Err ("failed to convert transaction for signing: " +:+ err))
      | Ok thrylosTx =>
          match SignTransaction thrylosTx ed25519PrivateKey with
          | Panic msg => Panic msg
          | Return (_, Some err) => Return (Err ("failed to sign transaction: " +:+ err))
          | Return (thrylosTx, None) =>
              match ConvertThrylosTransactionToLocal thrylosTx with
              | Err err =>
                  Return (Err ("failed to convert signed transaction back to local format: "
                               +:+ err))
              | Ok signedTx => Return (Ok signedTx)
              end
          end
      end
  end end end end end.

End Serialize.

(** The text that [GenerateTransactionID] hashes. *)
Definition transaction_text (inputs outputs : list UTXO) (address : string)
           (amount gasFee : Z) : string :=
  let builder := address in
  let builder := builder +:+ (Itoa amount +:+ Itoa gasFee) in
  let builder :=
    fold_left (fun b input => b +:+ (OwnerAddress input +:+ Itoa (Amount input)))
              inputs builder in
  fold_left (fun b output => b +:+ (OwnerAddress output +:+ Itoa (Amount output)))
            outputs builder.

Definition GenerateTransactionID (inputs outputs : list UTXO) (address : string)
           (amount gasFee : Z) : result string :=
  let hash := blake2b.Write blake2b.New256
                (bytes_of_string (transaction_text inputs outputs address amount gasFee)) in
  Ok (EncodeToString (blake2b.Sum hash [])).


(** [addressCache] is the package-level map; the call returns the address
    and the map it leaves behind. *)
Definition PublicKeyToAddressWithCache (addressCache : gmap string string)
           (pubKey : list byte) : string * gmap string string :=
  let pubKeyStr := EncodeToString pubKey in
  match addressCache !! pubKeyStr with
  | Some address => (address, addressCache)
  | None =>
      let address := computeAddressFromPublicKey pubKey in
      (address, <[pubKeyStr := address]> addressCache)
  end.


(** *** Signing in batches

    [BatchSignTransactions] starts one goroutine per batch; the goroutines
    share the buffered channel [errChan], and the caller waits for all of
    them before it reads the channel.

    The slice holds pointers: an element is nil ([None]) or the address of
    a transaction ([Some p]); [heap] gives the transaction at each address,
    and signing writes there. *)

Inductive outcome (A : Type) : Type :=
| Finished (a : A)       (* the call returns *)
| Crashed (msg : string) (* a run-time panic *)
| Blocked                (* every goroutine left waits to send, the caller waits for them *)
| Running.               (* the schedule ended before the goroutines did *)
Global Arguments Finished {A} a.
Global Arguments Crashed {A} msg.
Global Arguments Blocked {A}.
Global Arguments Running {A}.

Definition heap : Type := nat -> Transaction.

Definition with_tx_Signature (tx : Transaction) (sig : list byte) : Transaction :=
  {| tx_ID := tx_ID tx; tx_Timestamp := tx_Timestamp tx; tx_Inputs := tx_Inputs tx;
     tx_Outputs := tx_Outputs tx; tx_EncryptedInputs := tx_EncryptedInputs tx;
     tx_EncryptedOutputs := tx_EncryptedOutputs tx; tx_Signature := sig;
     tx_EncryptedAESKey := tx_EncryptedAESKey tx; tx_PreviousTxIds := tx_PreviousTxIds tx;
     tx_Sender := tx_Sender tx |}.

(** The body of the loop over a batch, for the transaction [customTx]
    points to: the transaction as it is left, and the error that is sent on
    the channel. *)
Definition sign_one (edPrivateKey : list byte) (customTx : Transaction)
  : exec (Transaction * option error) :=
  let protoTx := ConvertToProtoTransaction customTx in
  match thrylos.Marshal protoTx with
  | Err err => Return (customTx, Some err)
  | Ok txBytes =>
      match ed25519.Sign edPrivateKey txBytes with
      | Panic msg => Panic msg
      | Return edSignature => Return (with_tx_Signature customTx edSignature, None)
      end
  end.

(** A goroutine: the elements of its batch it has dealt with, and those it
    has still to deal with. *)
Definition worker : Type := list (option nat) * list (option nat).

Inductive move : Type :=
| Moved (errChan : list error) (h : heap) (w : worker)
| Waits                  (* the channel is full *)
| Returned               (* the batch is done *)
| Panics (msg : string).

(** One iteration of the loop of a goroutine; [capacity] is the size of the
    buffer of [errChan], [errChan] the errors in it.  On a nil element
    [ConvertToProtoTransaction] reads [tx.ID] through the nil pointer. *)
Definition step (capacity : nat) (edPrivateKey : list byte) (errChan : list error)
           (h : heap) (w : worker) : move :=
  match w.2 with
  | [] => Returned
  | None :: _ => Panics "runtime error: invalid memory address or nil pointer dereference"
  | Some p :: rest =>
      match sign_one edPrivateKey (h p) with
      | Panic msg => Panics msg
      | Return (_, Some err) =>
          if (length errChan <? capacity)%nat
          then Moved (errChan ++ [err]) h (w.1 ++ [Some p], rest)
          else Waits
      | Return (customTx, None) => Moved errChan (<[p := customTx]> h) (w.1 ++ [Some p], rest)
      end
  end.

Definition returned (w : worker) : bool := match w.2 with [] => true | _ => false end.

Definition waits (capacity : nat) (edPrivateKey : list byte) (errChan : list error)
           (h : heap) (w : worker) : bool :=
  match step capacity edPrivateKey errChan h w with Waits => true | _ => false end.

(** The goroutines under a schedule: [schedule] names, step by step, the
    goroutine that runs next.  When all have returned, [wg.Wait] returns and
    the caller takes the first error off the channel. *)
Fixpoint run (capacity : nat) (edPrivateKey : list byte) (schedule : list nat)
         (errChan : list error) (h : heap) (workers : list worker)
  : outcome (heap * option error) :=
  match schedule with
  | [] =>
      if forallb returned workers
      then Finished (h, head errChan)
      else if forallb (fun w => returned w || waits capacity edPrivateKey errChan h w) workers
           then Blocked
           else Running
  | j :: schedule =>
      match workers !! j with
      | None => run capacity edPrivateKey schedule errChan h workers
      | Some w =>
          match step capacity edPrivateKey errChan h w with
          | Moved errChan h w =>
              run capacity edPrivateKey schedule errChan h (<[j := w]> workers)
          | Panics msg => Crashed msg
          | Waits | Returned => run capacity edPrivateKey schedule errChan h workers
          end
      end
  end.

(** The slices [transactions[i:end]] of the loop that starts the goroutines. *)
Fixpoint batches {A} (fuel : nat) (batchSize : nat) (transactions : list A)
  : list (list A) :=
  match fuel, transactions with
  | S fuel, _ :: _ =>
      take batchSize transactions :: batches fuel batchSize (drop batchSize transactions)
  | _, _ => []
  end.

(** The heap as the call leaves it, and the error it returns. *)
Definition BatchSignTransactions (transactions : list (option nat))
           (edPrivateKey : list byte) (batchSize : Z) (schedule : list nat) (h : heap)
  : outcome (heap * option error) :=
  let len := Z.of_nat (length transactions) in
  if batchSize =? 0 then Crashed "runtime error: integer divide by zero"
  else
    let capacity := int (Z.quot len batchSize + 1) in
    if capacity <? 0 then Crashed "makechan: size out of range"
    else if batchSize <? 0 then
      match transactions with
      | [] => Finished (h, None)
      | _ => Crashed ("runtime error: slice bounds out of range [:" +:+ Itoa batchSize +:+ "]")
      end
    else
      run (Z.to_nat capacity) edPrivateKey schedule [] h
          (map (fun batch => ([], batch))
               (batches (length transactions) (Z.to_nat batchSize) transactions)).

(** The transactions that [proto.Marshal] refuses. *)
Definition unsignable (tx : Transaction) : bool :=
  match thrylos.Marshal (ConvertToProtoTransaction tx) with
  | Err _ => true
  | Ok _ => false
  end.

(** The elements of the slice whose transaction [proto.Marshal] refuses. *)
Definition fails (h : heap) (customTx : option nat) : bool :=
  match customTx with
  | Some p => unsignable (h p)
  | None => false
  end.

(** A transaction after its turn in a batch. *)
Definition signed (edPrivateKey : list byte) (tx : Transaction) : Transaction :=
  match sign_one edPrivateKey tx with
  | Return (tx, _) => tx
  | Panic _ => tx
  end.


End shared.

(** ** package shared, the revision in src/unnamed/part_002

    [EncryptWithAES], [DecryptWithAES], [SignTransaction],
    [VerifyTransactionSignature], [ValidateTransaction] and
    [SanitizeAndFormatAddress] read as in src/shared/transaction.go; the
    functions below differ. *)
Module shared_rev.

(** The cache maps the hex digest of [data] to that same digest, so a hit
    and a miss return the same bytes: the BLAKE2b-256 digest of [data]. *)
Definition cachedHashData (data : list byte) : list byte :=
  let hasher := blake2b.Reset blake2b.New256 in
  let hasher := blake2b.Write hasher data in
  blake2b.Sum hasher [].

Definition computeAddressFromPublicKey (pubKey : list byte) : string :=
  EncodeToString pubKey.

Definition VerifyTransaction (tx : thrylos.Transaction)
           (utxos : gmap string (list thrylos.UTXO))
           (getPublicKeyFunc : string -> result (list byte))
  : exec (bool * option error) :=
  if (length (thrylos.Inputs tx) =? 0)%nat
  then Return (false, Some "Transaction has no inputs")
  else
    let senderAddress := thrylos.Sender tx in
    match getPublicKeyFunc senderAddress with
    | Err err =>
        Return (false, Some ("Error retrieving Ed25519 public key for address "
                             +:+ senderAddress +:+ ": " +:+ err))
    | Ok ed25519PublicKey =>
        let txCopy := thrylos.with_Signature tx [] in
        match thrylos.Marshal txCopy with
        | Err err =>
            Return (false, Some ("Error serializing transaction for verification: " +:+ err))
        | Ok txBytes =>
            let cachedHash := cachedHashData txBytes in
            match ed25519.Verify ed25519PublicKey cachedHash (thrylos.Signature tx) with
            | Panic msg => Panic msg
            | Return false => Return (false, Some "Transaction signature verification failed")
            | Return true => Return (true, None)
            end
        end
    end.

(** [validateTimestamp]: less than an hour before [now] (both in seconds;
    the source compares the elapsed time in hours as a float). *)
Definition validateTimestamp (now timestamp : Z) : bool := now - timestamp <? 3600.

(** The goroutines of [ParallelVerifyTransactions], taken in the order in
    which they finish: [results] is the shared map, [errors] what has been
    sent on the error channel. *)
Fixpoint verify_each (completed : list thrylos.Transaction)
         (utxos : gmap string (list thrylos.UTXO))
         (getPublicKeyFunc : string -> result (list byte))
         (results : gmap string bool) (errors : list error)
  : exec (gmap string bool * list error) :=
  match completed with
  | [] => Return (results, errors)
  | tx :: rest =>
      match VerifyTransaction tx utxos getPublicKeyFunc with
      | Panic msg => Panic msg
      | Return (_, Some err) =>
          verify_each rest utxos getPublicKeyFunc results (errors ++ [err])
      | Return (isValid, None) =>
          verify_each rest utxos getPublicKeyFunc (<[thrylos.Id tx := isValid]> results) errors
      end
  end.

(** [completed] is the slice of transactions in the order in which the
    goroutines finish. *)
Definition ParallelVerifyTransactions (completed : list thrylos.Transaction)
           (utxos : gmap string (list thrylos.UTXO))
           (getPublicKeyFunc : string -> result (list byte))
  : exec (result (gmap string bool)) :=
  match verify_each completed utxos getPublicKeyFunc ∅ [] with
  | Panic msg => Panic msg
  | Return (_, err :: _) => Return (Err err)
  | Return (results, []) => Return (Ok results)
  end.


(** [cachedHashData] with [hashCache], the package-level [sync.Map], made
    explicit: the call returns the digest and the cache it leaves behind. *)
Definition cachedHashData_cache (hashCache : gmap string (list byte)) (data : list byte)
  : list byte * gmap string (list byte) :=
  let keyHash := blake2b.Sum256 data in
  let key := EncodeToString keyHash in
  match hashCache !! key with
  | Some val => (val, hashCache)
  | None =>
      let hasher := blake2b.Reset blake2b.New256 in
      let hasher := blake2b.Write hasher data in
      let computedHash := blake2b.Sum hasher [] in
      (computedHash, <[key := computedHash]> hashCache)
  end.

Section WithSHA256.

(** [crypto/sha256]: the digest is computed and not used. *)
Variable sha256_Sum : list byte -> list byte.

Definition PublicKeyToAddress (pubKey : list byte) : string :=
  let shaHashedPubKey := sha256_Sum pubKey in
  let blakeHasher := blake2b.Write blake2b.New256 shaHashedPubKey in
  EncodeToString (cachedHashData pubKey).

End WithSHA256.


(** *** Signing in batches, as part_002 has it

    The batch size is checked, [ConvertToProtoTransaction] refuses a nil
    pointer, the goroutine of a batch returns at its first error, and the
    error channel is sized by the number of batches. *)

(** [tx] is the transaction the pointer leads to, [None] for nil. *)
Definition ConvertToProtoTransaction (tx : option shared.Transaction)
  : result thrylos.Transaction :=
  match tx with
  | None => Err "transaction is nil"
  | Some tx => Ok (shared.ConvertToProtoTransaction tx)
  end.

(** The body of the loop over a batch: the heap as it is left, and the
    error that is sent on the channel before the goroutine returns. *)
Definition sign_one (edPrivateKey : list byte) (h : shared.heap) (customTx : option nat)
  : exec (shared.heap * option error) :=
  match ConvertToProtoTransaction (h <$> customTx) with
  | Err err => Return (h, Some ("conversion error: " +:+ err))
  | Ok protoTx =>
      match thrylos.Marshal protoTx with
      | Err err => Return (h, Some ("marshal error: " +:+ err))
      | Ok txBytes =>
          match ed25519.Sign edPrivateKey txBytes with
          | Panic msg => Panic msg
          | Return edSignature =>
              match customTx with
              | None => Panic "runtime error: invalid memory address or nil pointer dereference"
              | Some p => Return (<[p := shared.with_tx_Signature (h p) edSignature]> h, None)
              end
          end
      end
  end.

(** One iteration of the loop of a goroutine: after an error is sent the
    goroutine returns, and nothing of its batch is left to do. *)
Definition step (capacity : nat) (edPrivateKey : list byte) (errChan : list error)
           (h : shared.heap) (w : shared.worker) : shared.move :=
  match w.2 with
  | [] => shared.Returned
  | customTx :: rest =>
      match sign_one edPrivateKey h customTx with
      | Panic msg => shared.Panics msg
      | Return (_, Some err) =>
          if (length errChan <? capacity)%nat
          then shared.Moved (errChan ++ [err]) h (w.1, [])
          else shared.Waits
      | Return (h, None) => shared.Moved errChan h (w.1 ++ [customTx], rest)
      end
  end.

Definition waits (capacity : nat) (edPrivateKey : list byte) (errChan : list error)
           (h : shared.heap) (w : shared.worker) : bool :=
  match step capacity edPrivateKey errChan h w with shared.Waits => true | _ => false end.

Fixpoint run (capacity : nat) (edPrivateKey : list byte) (schedule : list nat)
         (errChan : list error) (h : shared.heap) (workers : list shared.worker)
  : shared.outcome (shared.heap * option error) :=
  match schedule with
  | [] =>
      if forallb shared.returned workers
      then shared.Finished (h, head errChan)
      else if forallb (fun w => shared.returned w || waits capacity edPrivateKey errChan h w)
                      workers
           then shared.Blocked
           else shared.Running
  | j :: schedule =>
      match workers !! j with
      | None => run capacity edPrivateKey schedule errChan h workers
      | Some w =>
          match step capacity edPrivateKey errChan h w with
          | shared.Moved errChan h w =>
              run capacity edPrivateKey schedule errChan h (<[j := w]> workers)
          | shared.Panics msg => shared.Crashed msg
          | shared.Waits | shared.Returned =>
              run capacity edPrivateKey schedule errChan h workers
          end
      end
  end.

Definition BatchSignTransactions (transactions : list (option nat))
           (edPrivateKey : list byte) (batchSize : Z) (schedule : list nat) (h : shared.heap)
  : shared.outcome (shared.heap * option error) :=
  if batchSize <? 1
  then shared.Finished (h, Some ("invalid batch size: " +:+ Itoa batchSize))
  else
    let len := Z.of_nat (length transactions) in
    let capacity := Z.quot (int (int (len + batchSize) - 1)) batchSize in
    if capacity <? 0 then shared.Crashed "makechan: size out of range"
    else
      run (Z.to_nat capacity) edPrivateKey schedule [] h
          (map (fun batch => ([], batch))
               (shared.batches (length transactions) (Z.to_nat batchSize) transactions)).

(** The elements at which the goroutine of a batch sends an error: a nil
    pointer, or a transaction that [proto.Marshal] refuses. *)
Definition stops (h : shared.heap) (customTx : option nat) : bool :=
  match customTx with
  | None => true
  | Some p => shared.unsignable (h p)
  end.

(** The elements of a batch before the first at which its goroutine
    stops. *)
Fixpoint signed_part (h : shared.heap) (batch : list (option nat)) : list (option nat) :=
  match batch with
  | [] => []
  | customTx :: rest => if stops h customTx then [] else customTx :: signed_part h rest
  end.



End shared_rev.


(** ** github.com/dgraph-io/badger, as the code uses it

    The store is a map from byte-string keys to byte-string values; an
    iterator visits the keys in the byte-wise lexicographic order, ascending
    or, with [opts.Reverse], descending. *)
Module badger.

Definition key_le (a b : string * list byte) : Prop := String.le a.1 b.1.

Global Instance key_le_dec : RelDecision key_le :=
  fun a b => decide (String.le a.1 b.1).

Definition ascending (db : gmap string (list byte)) : list (string * list byte) :=
  merge_sort key_le (map_to_list db).

Definition descending (db : gmap string (list byte)) : list (string * list byte) :=
  rev (ascending db).

(** [it.Seek(prefix)] on a forward iterator: skip the keys below [prefix]. *)
Fixpoint Seek (prefix : string) (items : list (string * list byte))
  : list (string * list byte) :=
  match items with
  | [] => []
  | (k, v) :: rest => if String.ltb k prefix then Seek prefix rest else items
  end.

(** The items visited while [it.ValidForPrefix(prefix)] holds. *)
Fixpoint ValidForPrefix (prefix : string) (items : list (string * list byte))
  : list (string * list byte) :=
  match items with
  | [] => []
  | (k, v) :: rest => if HasPrefix k prefix then (k, v) :: ValidForPrefix prefix rest else []
  end.

(** [txn.Set]. *)
Definition Set_ (db : gmap string (list byte)) (key : string) (val : list byte)
  : gmap string (list byte) := <[key := val]> db.

End badger.

(** ** package database (BlockchainDB), src/unnamed/part_004 *)
Module database.

Section WithJSON.

(** [json.Unmarshal] into a [shared.UTXO]. *)
Variable json_Unmarshal_UTXO : list byte -> result shared.UTXO.

(** The body of the iterator loops: decode every visited value, stop at
    the first error, [keep] decides what is appended. *)
Fixpoint collect (keep : shared.UTXO -> bool) (items : list (string * list byte))
         (utxos : list shared.UTXO) : list shared.UTXO * option error :=
  match items with
  | [] => (utxos, None)
  | (_, val) :: rest =>
      match json_Unmarshal_UTXO val with
      | Err err => (utxos, Some err)
      | Ok utxo => collect keep rest (if keep utxo then utxos ++ [utxo] else utxos)
      end
  end.

Definition GetUTXOsForAddress (txn : gmap string (list byte)) (address : string)
  : result (list shared.UTXO) :=
  let prefix := "utxo-" +:+ address +:+ "-" in
  let items := badger.ValidForPrefix prefix (badger.Seek prefix (badger.ascending txn)) in
  match collect (fun _ => true) items [] with
  | (_, Some err) => Err err
  | (utxos, None) => Ok utxos
  end.

(** The returned map has at most the key [address]. *)
Definition GetUTXOs (db : gmap string (list byte)) (address : string)
  : gmap string (list shared.UTXO) * option error :=
  let prefix := "utxo-" +:+ address in
  let items := badger.ValidForPrefix prefix (badger.Seek prefix (badger.ascending db)) in
  let '(found, err) := collect (fun utxo => negb (shared.IsSpent utxo)) items [] in
  (match found with [] => ∅ | _ => {[ address := found ]} end, err).

End WithJSON.

(** [utxos] is the map argument in the order the [range] visits it. *)
Definition GetUTXOsForUser (address : string) (utxos : list (string * shared.UTXO))
  : result (list shared.UTXO) :=
  Ok (map snd (List.filter (fun kv => String.eqb (shared.OwnerAddress kv.2) address) utxos)).

(** [bdb.Blockchain] is a field of the interface type
    [shared.BlockchainDBInterface], which [NewBlockchainDB] leaves nil and
    nothing in the package assigns.  [None] is the nil interface, on which
    the method call panics; [Some f] is a value whose [GetUTXOsForUser]
    method is [f]. *)
Definition GetBalance
           (Blockchain : option (string -> list (string * shared.UTXO)
                                 -> result (list shared.UTXO)))
           (address : string) (utxos : list (string * shared.UTXO)) : exec (result Z) :=
  match Blockchain with
  | None => Panic "runtime error: invalid memory address or nil pointer dereference"
  | Some Blockchain_GetUTXOsForUser =>
      match Blockchain_GetUTXOsForUser address utxos with
      | Err err => Return (Err err)
      | Ok userUTXOs =>
          Return (Ok (fold_left (fun balance utxo => int (balance + shared.Amount utxo))
                                userUTXOs 0))
      end
  end.

Definition InsertBlock (db : gmap string (list byte)) (blockData : list byte)
           (blockNumber : Z) : gmap string (list byte) :=
  let key := "block-" +:+ Itoa blockNumber in
  badger.Set_ db key blockData.

Definition StoreBlock (db : gmap string (list byte)) (blockData : list byte)
           (blockNumber : Z) : gmap string (list byte) :=
  let key := "block-" +:+ Itoa blockNumber in
  badger.Set_ db key blockData.

Definition RetrieveBlock (db : gmap string (list byte)) (blockNumber : Z)
  : result (list byte) :=
  let key := "block-" +:+ Itoa blockNumber in
  match db !! key with
  | None => Err "failed to retrieve block data: Key not found"
  | Some blockData => Ok blockData
  end.

(** The reverse loop of [GetLastBlockData]: the first key with the prefix
    decides. *)
Fixpoint last_block_loop (items : list (string * list byte)) : result (list byte * Z) :=
  match items with
  | [] => Err "no blocks found in the database"
  | (key, val) :: rest =>
      if HasPrefix key "block-" then
        let blockNumberStr := TrimPrefix key "block-" in
        match Atoi blockNumberStr with
        | Err parseErr => Err ("error parsing block number: " +:+ parseErr)
        | Ok lastIndex => Ok (val, lastIndex)
        end
      else last_block_loop rest
  end.

Definition GetLastBlockData (db : gmap string (list byte)) : result (list byte * Z) :=
  match last_block_loop (badger.descending db) with
  | Err err => Err err
  | Ok (blockData, lastIndex) =>
      if lastIndex =? -1 then Err "no blocks found in the database"
      else Ok (blockData, lastIndex)
  end.

(** Only the first item of the reverse iterator is looked at. *)
Definition GetLastBlockIndex (db : gmap string (list byte)) : result Z :=
  match badger.descending db with
  | (key, _) :: _ =>
      if HasPrefix key "block-" then
        let blockNumberStr := TrimPrefix key "block-" in
        match Atoi blockNumberStr with
        | Err parseErr => Err parseErr
        | Ok lastIndex => Ok lastIndex
        end
      else Err "no blocks found in the database"
  | [] => Err "no blocks found in the database"
  end.

(** The outputs of [utxos] that [address] owns, in the order of [utxos]. *)
Definition owned_by (address : string) (utxos : list (string * shared.UTXO))
  : list shared.UTXO :=
  map snd (List.filter (fun kv : string * shared.UTXO =>
                          String.eqb (shared.OwnerAddress kv.2) address) utxos).

Section WithMarshal.

(** [json.Marshal] of a [shared.UTXO]. *)
Variable json_Marshal_UTXO : shared.UTXO -> result (list byte).

Definition with_IsSpent (utxo : shared.UTXO) (spent : bool) : shared.UTXO :=
  {| shared.ID := shared.ID utxo; shared.TransactionID := shared.TransactionID utxo;
     shared.Index := shared.Index utxo; shared.OwnerAddress := shared.OwnerAddress utxo;
     shared.Amount := shared.Amount utxo; shared.IsSpent := spent |}.

(** The key [utxo-<transaction id>-<index>] that the writers use. *)
Definition utxo_key (utxo : shared.UTXO) : string :=
  "utxo-" +:+ shared.TransactionID utxo +:+ "-" +:+ Itoa (shared.Index utxo).

Definition MarkUTXOAsSpent (txn : gmap string (list byte)) (utxo : shared.UTXO)
  : result (gmap string (list byte)) :=
  let key := utxo_key utxo in
  let utxo := with_IsSpent utxo true in
  match json_Marshal_UTXO utxo with
  | Err err => Err err
  | Ok utxoData => Ok (badger.Set_ txn key utxoData)
  end.

Definition addNewUTXO (txn : gmap string (list byte)) (utxo : shared.UTXO)
  : result (gmap string (list byte)) :=
  let key := utxo_key utxo in
  match json_Marshal_UTXO utxo with
  | Err err => Err err
  | Ok utxoData => Ok (badger.Set_ txn key utxoData)
  end.

(** The two loops of [UpdateUTXOs]. *)
Fixpoint mark_inputs (txn : gmap string (list byte)) (inputs : list shared.UTXO)
  : result (gmap string (list byte)) :=
  match inputs with
  | [] => Ok txn
  | input :: rest =>
      match MarkUTXOAsSpent txn input with
      | Err err => Err ("error marking UTXO as spent: " +:+ err)
      | Ok txn => mark_inputs txn rest
      end
  end.

Fixpoint add_outputs (txn : gmap string (list byte)) (outputs : list shared.UTXO)
  : result (gmap string (list byte)) :=
  match outputs with
  | [] => Ok txn
  | output :: rest =>
      match addNewUTXO txn output with
      | Err err => Err ("error adding new UTXO: " +:+ err)
      | Ok txn => add_outputs txn rest
      end
  end.

(** The store after the call, and the error: the writes are made in a
    transaction that is committed at the end and discarded on an error. *)
Definition UpdateUTXOs (db : gmap string (list byte)) (inputs outputs : list shared.UTXO)
  : gmap string (list byte) * option error :=
  match mark_inputs db inputs with
  | Err err => (db, Some err)
  | Ok txn =>
      match add_outputs txn outputs with
      | Err err => (db, Some err)
      | Ok txn => (txn, None)
      end
  end.

End WithMarshal.


End database.

(** ** package core: the node and the validator choice, src/core/tps_test.go *)
Module core.

(** The declaration of [Blockchain] is not among the sources; the code here
    uses its stakeholder table. *)
Record Blockchain : Type := {
  Stakeholders : gmap string Z
}.

Record Vote : Type := {
  BlockHash : string;
  Validator : string;
  Stake : Z
}.

Record Node : Type := {
  Address : string;
  Peers : list string;
  Votes : list Vote;
  PendingTransactions : list thrylos.Transaction
}.

Definition with_PendingTransactions (node : Node) (pending : list thrylos.Transaction)
  : Node :=
  {| Address := Address node; Peers := Peers node; Votes := Votes node;
     PendingTransactions := pending |}.

Definition HasTransaction (node : Node) (txID : string) : bool :=
  existsb (fun tx => String.eqb (thrylos.Id tx) txID) (PendingTransactions node).

Definition AddPendingTransaction (node : Node) (tx : thrylos.Transaction)
  : Node * option error :=
  (with_PendingTransactions node (PendingTransactions node ++ [tx]), None).

Definition minStakeRequirement : Z := 1000.

(** [order] is the stakeholder table in the order the [range] visits it. *)
Definition TotalStake (order : list (string * Z)) : Z :=
  fold_left (fun total kv => int (total + kv.2)) order 0.

(** The second loop of [SelectValidator]. *)
Fixpoint select_loop (order : list (string * Z)) (randStake : Z) : string :=
  match order with
  | [] => ""
  | (address, stake) :: rest =>
      let randStake := int (randStake - stake) in
      if randStake <? 0 then address else select_loop rest randStake
  end.

(** [order1] and [order2] are the orders of the two [range] loops over
    [bc.Stakeholders]; [SecureRandomInt] is not among the sources and is
    taken as it is called. *)
Definition SelectValidator (order1 order2 : list (string * Z))
           (SecureRandomInt : Z -> result Z) : string :=
  let totalStake := fold_left (fun total kv => int (total + kv.2)) order1 0 in
  if totalStake =? 0 then ""
  else
    match SecureRandomInt totalStake with
    | Err _ => ""
    | Ok randStake => select_loop order2 randStake
    end.

(** The sum of the stakes, as a mathematical integer. *)
Definition stake_sum (order : list (string * Z)) : Z :=
  foldr (fun kv acc => kv.2 + acc) 0 order.

(** The number of pool entries with the id [txID]. *)
Definition pending_count (node : Node) (txID : string) : nat :=
  length (List.filter (fun tx => String.eqb (thrylos.Id tx) txID) (PendingTransactions node)).

(** The stakeholders in lexicographic order of address. *)
Definition lexicographic (m : gmap string Z) : list (string * Z) :=
  merge_sort (fun a b => String.le a.1 b.1) (map_to_list m).

Section Handler.

(** [VerifyAndProcessTransaction] looks the keys up through methods of
    [Blockchain] and checks the signature with a three-argument
    [shared.VerifyTransactionSignature]; none of the three is among the
    sources. *)
Variable RetrievePublicKey : string -> result (list byte).
Variable RetrieveDilithiumPublicKey : string -> result (list byte).
Variable VerifyTransactionSignature :
  thrylos.Transaction -> list byte -> list byte -> option error.

Definition VerifyAndProcessTransaction (node : Node) (tx : thrylos.Transaction)
  : option error :=
  match thrylos.Inputs tx with
  | [] => Some "transaction has no inputs"
  | input0 :: _ =>
      match RetrievePublicKey (thrylos.OwnerAddress input0) with
      | Err err => Some ("failed to retrieve Ed25519 public key: " +:+ err)
      | Ok senderEd25519PublicKey =>
          match RetrieveDilithiumPublicKey (thrylos.OwnerAddress input0) with
          | Err err => Some ("failed to retrieve Dilithium public key: " +:+ err)
          | Ok senderDilithiumPublicKey =>
              match VerifyTransactionSignature tx senderEd25519PublicKey
                                               senderDilithiumPublicKey with
              | Some err => Some ("transaction signature verification failed: " +:+ err)
              | None => None
              end
          end
      end
  end.

Definition StatusOK : Z := 200.
Definition StatusBadRequest : Z := 400.
Definition StatusUnprocessableEntity : Z := 422.
Definition StatusInternalServerError : Z := 500.

(** One request to the handler; [body] is the request body as
    [json.Decode] reads it.  The result is the node afterwards and the
    HTTP status of the response. *)
Definition SubmitTransactionHandler (node : Node) (body : result thrylos.Transaction)
  : Node * Z :=
  match body with
  | Err _ => (node, StatusBadRequest)
  | Ok tx =>
      match VerifyAndProcessTransaction node tx with
      | Some _ => (node, StatusUnprocessableEntity)
      | None =>
          match AddPendingTransaction node tx with
          | (node', Some _) => (node', StatusInternalServerError)
          | (node', None) => (node', StatusOK)
          end
      end
  end.

End Handler.

(** *** The rest of the node *)

Definition GetPendingTransactions (node : Node) : list thrylos.Transaction :=
  PendingTransactions node.

(** [node.PublicKeyMap], which [RetrievePublicKey] and [StorePublicKey] of
    [Node] read and write. *)
Definition Node_RetrievePublicKey (PublicKeyMap : gmap string (list byte)) (address : string)
  : result (list byte) :=
  match PublicKeyMap !! address with
  | None => Err ("public key not found for address: " +:+ address)
  | Some pubKey => Ok pubKey
  end.

Definition Node_StorePublicKey (PublicKeyMap : gmap string (list byte)) (address : string)
           (publicKey : list byte) : gmap string (list byte) :=
  <[address := publicKey]> PublicKeyMap.

(** The loop of [CollectInputsForTransaction] over [utxos], the slice that
    [node.Blockchain.GetUTXOsForAddress(senderAddress)] returns (the method
    is not among the sources). *)
Fixpoint collect_loop (utxos : list shared.UTXO) (amount collectedAmount : Z)
         (collectedInputs : list shared.UTXO) : Z * list shared.UTXO :=
  match utxos with
  | [] => (collectedAmount, collectedInputs)
  | utxo :: rest =>
      if collectedAmount >=? amount then (collectedAmount, collectedInputs)
      else collect_loop rest amount (int (collectedAmount + shared.Amount utxo))
                        (collectedInputs ++ [utxo])
  end.

(** The inputs and the change. *)
Definition CollectInputsForTransaction (utxos : list shared.UTXO) (amount : Z)
  : result (list shared.UTXO * Z) :=
  let '(collectedAmount, collectedInputs) := collect_loop utxos amount 0 [] in
  if collectedAmount <? amount then Err "not enough funds available"
  else Ok (collectedInputs, int (collectedAmount - amount)).

Definition output_to (owner : string) (amount : Z) : shared.UTXO :=
  {| shared.ID := ""; shared.TransactionID := ""; shared.Index := 0;
     shared.OwnerAddress := owner; shared.Amount := amount; shared.IsSpent := false |}.

(** The outputs [CreateAndBroadcastTransaction] prepares. *)
Definition transaction_outputs (recipientAddress sender : string) (amount change : Z)
  : list shared.UTXO :=
  let outputs := [output_to recipientAddress amount] in
  if change >? 0 then outputs ++ [output_to sender change] else outputs.

Section Broadcast.

(** The six-argument [shared.CreateAndSignTransaction] this revision of the
    node calls is not among the sources. *)
Variable CreateAndSignTransaction :
  string -> list shared.UTXO -> list shared.UTXO -> list byte -> list byte -> list byte ->
  result shared.Transaction.

(** The result is the transaction handed to [BroadcastTransaction]. *)
Definition CreateAndBroadcastTransaction (node : Node) (utxos : list shared.UTXO)
           (recipientAddress : string) (aesKey : list byte) (amount : Z)
           (ed25519PrivateKey dilithiumPrivateKey : list byte) : result shared.Transaction :=
  match CollectInputsForTransaction utxos amount with
  | Err err => Err ("failed to collect inputs for transaction: " +:+ err)
  | Ok (inputs, change) =>
      let outputs := transaction_outputs recipientAddress (Address node) amount change in
      match CreateAndSignTransaction "txID" inputs outputs ed25519PrivateKey
                                     dilithiumPrivateKey aesKey with
      | Err err => Err ("failed to create and sign transaction: " +:+ err)
      | Ok transaction => Ok transaction
      end
  end.

End Broadcast.

(** The tally of [CountVotes]: [true] as soon as the stake collected by the
    hash of the current vote reaches the majority. *)
Fixpoint tally (votes : list Vote) (majorityStake : Z) (voteStakes : gmap string Z) : bool :=
  match votes with
  | [] => false
  | vote :: rest =>
      let voteStakes :=
        <[BlockHash vote := int (default 0 (voteStakes !! BlockHash vote) + Stake vote)]>
          voteStakes in
      if default 0 (voteStakes !! BlockHash vote) >=? majorityStake then true
      else tally rest majorityStake voteStakes
  end.

Definition with_Votes (node : Node) (votes : list Vote) : Node :=
  {| Address := Address node; Peers := Peers node; Votes := votes;
     PendingTransactions := PendingTransactions node |}.

(** [order] is the stakeholder table as [TotalStake] ranges over it.  The
    second component tells whether a block was broadcast; the block that is
    broadcast is the nil pointer, and nothing is added to the chain. *)
Definition CountVotes (node : Node) (order : list (string * Z)) : Node * bool :=
  let majorityStake := int (Z.quot (TotalStake order) 2 + 1) in
  if tally (Votes node) majorityStake ∅ then (with_Votes node [], true)
  else (node, false).

(** The stake a block hash has collected in [votes]. *)
Definition stake_for (hash : string) (votes : list Vote) : Z :=
  foldr (fun vote acc => if String.eqb (BlockHash vote) hash then Stake vote + acc else acc)
        0 votes.

(** *** The block producer, src/unnamed/part_004

    Times are in nanoseconds, as [time.Duration] counts them.  The
    [NetworkLoadFactor] of the configuration is never read and is left
    out. *)

Record BlockProducerConfig : Type := {
  TargetBlockTime : Z;
  MinTransactions : Z;
  MaxTransactions : Z;
  MaxBlockSize : Z
}.

(** The fields of the producer that its methods read and write. *)
Record ModernBlockProducer : Type := {
  config : BlockProducerConfig;
  isProducing : bool;
  lastBlockTime : Z
}.

(** [now] is [time.Now()]. *)
Definition NewBlockProducer (now : Z) : ModernBlockProducer :=
  {| config := {| TargetBlockTime := 1200 * 1000000; MinTransactions := 1;
                  MaxTransactions := 1000; MaxBlockSize := Z.shiftl 1 20 |};
     isProducing := false;
     lastBlockTime := now |}.

(** [pendingCount] is [len(bp.blockchain.PendingTransactions)]. *)
Definition shouldProduceBlock (bp : ModernBlockProducer) (now pendingCount : Z) : bool :=
  if isProducing bp then false
  else
    let timeSinceLastBlock := now - lastBlockTime bp in
    (timeSinceLastBlock >=? TargetBlockTime (config bp))
    && (pendingCount >=? MinTransactions (config bp)).

Section Producer.

(** [Block] and [Blockchain.ProcessPendingTransactions] are not among the
    sources: [processed] is what the call returns (a nil block is [None]),
    [now] the time when it has returned. *)
Variable Block : Type.

Definition tryProduceBlock (bp : ModernBlockProducer) (processed : result (option Block))
           (now : Z) : ModernBlockProducer :=
  if isProducing bp then bp
  else
    match processed with
    | Err _ | Ok None =>
        {| config := config bp; isProducing := false; lastBlockTime := lastBlockTime bp |}
    | Ok (Some newBlock) =>
        {| config := config bp; isProducing := false; lastBlockTime := now |}
    end.

Definition Stop (bp : ModernBlockProducer) : ModernBlockProducer :=
  {| config := config bp; isProducing := false; lastBlockTime := lastBlockTime bp |}.

(** A tick of the ticker that [Start] sets up: when it is handled, how many
    transactions are pending then, and what processing them would return
    and when. *)
Record tick : Type := {
  tick_time : Z;
  pendingCount : Z;
  processed : result (option Block);
  finished : Z
}.

(** The body of the [for range ticker.C] loop, with the times at which a
    block has been produced so far, the latest first. *)
Definition on_tick (state : ModernBlockProducer * list Z) (t : tick)
  : ModernBlockProducer * list Z :=
  let '(bp, produced) := state in
  if shouldProduceBlock bp (tick_time t) (pendingCount t)
  then
    let bp' := tryProduceBlock bp (processed t) (finished t) in
    (bp', match processed t with
          | Ok (Some _) => lastBlockTime bp' :: produced
          | _ => produced
          end)
  else (bp, produced).

Definition ticks (bp : ModernBlockProducer) (l : list tick) : ModernBlockProducer * list Z :=
  fold_left on_tick l (bp, []).

End Producer.

Global Arguments tick_time {Block} t.
Global Arguments pendingCount {Block} t.
Global Arguments processed {Block} t.
Global Arguments finished {Block} t.
Global Arguments tryProduceBlock {Block} bp processed now.
Global Arguments on_tick {Block} state t.
Global Arguments ticks {Block} bp l.


End core.



(** ** Inputs the code is run on below *)
Module examples.

Definition transfer : thrylos.Transaction :=
  {| thrylos.Id := "tx1";
     thrylos.Timestamp := 1700000000;
     thrylos.Inputs :=
       [ {| thrylos.TransactionId := "prev-tx-id"; thrylos.Index := 0;
            thrylos.OwnerAddress := "Alice"; thrylos.Amount := 100 |} ];
     thrylos.Outputs :=
       [ {| thrylos.TransactionId := "tx1"; thrylos.Index := 0;
            thrylos.OwnerAddress := "Bob"; thrylos.Amount := 100 |} ];
     thrylos.Signature := [];
     thrylos.PreviousTxIds := [];
     thrylos.Sender := "Alice" |}.

(** The key pair of the first test of RFC 8032. *)
Definition seed : list byte :=
  DecodeString "9d61b19deffd5a60ba844af492ec2cc44449c5697b326919703bac031cae7f60".

Definition private_key : list byte := Eval vm_compute in ed25519.NewKeyFromSeed seed.

Definition public_key : list byte := Eval vm_compute in ed25519.Public private_key.

(** [getPublicKeyFunc]: the key is registered for Alice only. *)
Definition lookup_key (address : string) : result (list byte) :=
  if String.eqb address "Alice" then Ok public_key
  else Err ("public key not found for address: " +:+ address).

(** [transfer] after [SignTransaction]. *)
Definition signed_transfer : thrylos.Transaction :=
  Eval vm_compute in
    match shared.SignTransaction transfer private_key with
    | Return (tx, _) => tx
    | Panic _ => transfer
    end.

(** A transaction of Alice that spends an output of Bob which no ledger
    holds, pays out more than it takes in and is dated 1970. *)
Definition unbacked_body : thrylos.Transaction :=
  {| thrylos.Id := "tx2";
     thrylos.Timestamp := 1;
     thrylos.Inputs :=
       [ {| thrylos.TransactionId := "missing-tx"; thrylos.Index := 0;
            thrylos.OwnerAddress := "Bob"; thrylos.Amount := 100 |} ];
     thrylos.Outputs :=
       [ {| thrylos.TransactionId := "tx2"; thrylos.Index := 0;
            thrylos.OwnerAddress := "Alice"; thrylos.Amount := 1000000 |} ];
     thrylos.Signature := [];
     thrylos.PreviousTxIds := [];
     thrylos.Sender := "Alice" |}.

(** The bytes [VerifyTransaction] of part_002 checks the signature against:
    the digest of the message without its signature. *)
Definition unbacked_digest : list byte :=
  Eval vm_compute in
    match thrylos.Marshal unbacked_body with
    | Ok txBytes => shared_rev.cachedHashData txBytes
    | Err _ => []
    end.

(** [unbacked_body] with Alice's signature over that digest. *)
Definition unbacked : thrylos.Transaction :=
  Eval vm_compute in
    match ed25519.Sign private_key unbacked_digest with
    | Return sig => thrylos.with_Signature unbacked_body sig
    | Panic _ => unbacked_body
    end.

Definition node_with_transfer : core.Node :=
  {| core.Address := "localhost:8080"; core.Peers := []; core.Votes := [];
     core.PendingTransactions := [transfer] |}.

Definition two_stakeholders : gmap string Z := {[ "a" := 1000; "b" := 1000 ]}.

(** The store of blocks 0 to [n], block [i] holding the single byte [i]. *)
Definition blocks_up_to (n : nat) : gmap string (list byte) :=
  fold_left (fun db i => database.InsertBlock db [byte_of_Z i] i)
            (map Z.of_nat (seq 0 (S n))) ∅.

Definition eleven_blocks : gmap string (list byte) := blocks_up_to 10.

Definition spent_utxo : shared.UTXO :=
  {| shared.ID := "u1"; shared.TransactionID := "tx0"; shared.Index := 0;
     shared.OwnerAddress := "alice"; shared.Amount := 50; shared.IsSpent := true |}.

(** A node holding two votes of one validator for the same block. *)
Definition voting_node : core.Node :=
  {| core.Address := "node"; core.Peers := [];
     core.Votes := [ {| core.BlockHash := "block"; core.Validator := "a"; core.Stake := 600 |};
                     {| core.BlockHash := "block"; core.Validator := "a"; core.Stake := 600 |} ];
     core.PendingTransactions := [] |}.


(** A stand-in for [serializeUTXOs]: the owners, one per line. *)
Definition owners (utxos : list shared.UTXO) : result (list byte) :=
  Ok (bytes_of_string (String.concat (String "010" "") (map shared.OwnerAddress utxos))).

(** What [CreateAndSignTransaction] returns for a payment of [spent_utxo]. *)
Definition created : shared.Transaction :=
  Eval vm_compute in
    match shared.CreateAndSignTransaction owners "tx3" "Alice" [spent_utxo] [spent_utxo]
            private_key (bytes_of_string "sixteen byte key") 1700000000
            (map byte_of_Z (map Z.of_nat (seq 0 32))) with
    | Return (Ok tx) => tx
    | _ => {| shared.tx_ID := ""; shared.tx_Timestamp := 0; shared.tx_Inputs := [];
              shared.tx_Outputs := []; shared.tx_EncryptedInputs := [];
              shared.tx_EncryptedOutputs := []; shared.tx_Signature := [];
              shared.tx_EncryptedAESKey := []; shared.tx_PreviousTxIds := [];
              shared.tx_Sender := "failed" |}
    end.


(** A signed payment in the node's own transaction type. *)
Definition local_transfer : shared.Transaction :=
  {| shared.tx_ID := "tx4"; shared.tx_Timestamp := 1700000000;
     shared.tx_Inputs := [spent_utxo];
     shared.tx_Outputs :=
       [ {| shared.ID := "u2"; shared.TransactionID := "tx4"; shared.Index := 0;
            shared.OwnerAddress := "bob"; shared.Amount := 50; shared.IsSpent := false |} ];
     shared.tx_EncryptedInputs := []; shared.tx_EncryptedOutputs := [];
     shared.tx_Signature := bytes_of_string "signature"; shared.tx_EncryptedAESKey := [];
     shared.tx_PreviousTxIds := ["tx0"]; shared.tx_Sender := "alice" |}.


(** A stand-in for [json.Marshal] and [json.Unmarshal] of an output: the
    owner, a comma and the digit of the spent flag. *)
Definition marshal_owner (utxo : shared.UTXO) : result (list byte) :=
  Ok (bytes_of_string (shared.OwnerAddress utxo +:+ ","
                       +:+ (if shared.IsSpent utxo then "1" else "0"))).

Definition unmarshal_owner (val : list byte) : result shared.UTXO :=
  match rev val with
  | flag :: _ :: owner =>
      Ok {| shared.ID := ""; shared.TransactionID := ""; shared.Index := 0;
            shared.OwnerAddress := string_of_list_byte (rev owner); shared.Amount := 0;
            shared.IsSpent := Byte.eqb flag "1"%byte |}
  | _ => Err "unexpected end of JSON input"
  end.

(** An output of transaction tx9 that alice owns. *)
Definition alice_output : shared.UTXO :=
  {| shared.ID := "u9"; shared.TransactionID := "tx9"; shared.Index := 0;
     shared.OwnerAddress := "alice"; shared.Amount := 70; shared.IsSpent := false |}.


(** A transaction that [proto.Marshal] refuses: its id is the byte 0xff,
    which is not UTF-8. *)
Definition garbled : shared.Transaction :=
  {| shared.tx_ID := String (ascii_of_nat 255) ""; shared.tx_Timestamp := 1700000000;
     shared.tx_Inputs := []; shared.tx_Outputs := [];
     shared.tx_EncryptedInputs := []; shared.tx_EncryptedOutputs := [];
     shared.tx_Signature := []; shared.tx_EncryptedAESKey := [];
     shared.tx_PreviousTxIds := []; shared.tx_Sender := "alice" |}.


(** Two ticks, 1.2 and 2.4 seconds after the producer was created, each
    with one transaction pending and a block that takes 0.1 seconds to
    make. *)
Definition two_ticks : list (core.tick unit) :=
  [ {| core.tick_time := 1200000000; core.pendingCount := 1;
       core.processed := Ok (Some tt); core.finished := 1300000000 |};
    {| core.tick_time := 2400000000; core.pendingCount := 1;
       core.processed := Ok (Some tt); core.finished := 2500000000 |} ].


(** A stand-in for the six-argument [CreateAndSignTransaction]: the
    transaction of the id, the inputs and the outputs it is given, with an
    empty signature; it refuses an empty private key. *)
Definition assemble (id : string) (inputs outputs : list shared.UTXO)
           (ed25519PrivateKey dilithiumPrivateKey aesKey : list byte)
  : result shared.Transaction :=
  match ed25519PrivateKey with
  | [] => Err "no private key"
  | _ =>
      Ok {| shared.tx_ID := id; shared.tx_Timestamp := 1700000000;
            shared.tx_Inputs := inputs; shared.tx_Outputs := outputs;
            shared.tx_EncryptedInputs := []; shared.tx_EncryptedOutputs := [];
            shared.tx_Signature := []; shared.tx_EncryptedAESKey := [];
            shared.tx_PreviousTxIds := []; shared.tx_Sender := "" |}
  end.


End examples.

(** * Properties *)

(** Conjunctions of closed equations are settled by running the code. *)
Ltac run_code :=
  intros; repeat match goal with |- _ /\ _ => split end; vm_compute; reflexivity.

(** ** Machine integers *)

Lemma int_small z : - 2 ^ 63 <= z < 2 ^ 63 -> int z = z.
Proof.
  intros Hz. unfold int, wrap.
  change (2 ^ (64 - 1)) with (2 ^ 63). change (2 ^ 64) with (2 * 2 ^ 63).
  rewrite Z.mod_small by lia. lia.
Qed.

(** ** The pending pool *)

Lemma pending_count_app node tx txID :
  core.pending_count (core.AddPendingTransaction node tx).1 txID
  = (core.pending_count node txID + (if String.eqb (thrylos.Id tx) txID then 1 else 0))%nat.
Proof.
  unfold core.pending_count, core.AddPendingTransaction. simpl.
  rewrite List.filter_app, length_app. simpl.
  destruct (String.eqb (thrylos.Id tx) txID); reflexivity.
Qed.

(** C3, as stated, fails: a pool that already holds the transfer holds it
    twice after [AddPendingTransaction]. *)
Lemma AddPendingTransaction_keeps_duplicates :
  core.HasTransaction examples.node_with_transfer (thrylos.Id examples.transfer) = true
  /\ core.PendingTransactions
       (core.AddPendingTransaction examples.node_with_transfer examples.transfer).1
     = [examples.transfer; examples.transfer]
  /\ (core.AddPendingTransaction examples.node_with_transfer examples.transfer).1
     <> examples.node_with_transfer.
Proof.
  split; [reflexivity|]. split; [reflexivity|].
  intros H. apply (f_equal core.PendingTransactions) in H. discriminate H.
Qed.

(** C3, amended: admission through [SubmitTransactionHandler] only requires
    [VerifyAndProcessTransaction] to succeed; the transaction is then appended
    whether or not its id is in the pool, so submitting it twice leaves two
    more entries with its id, each answered with 200.  A transaction that
    does not verify is answered with 422 and leaves the node as it was. *)
Theorem SubmitTransactionHandler_twice
        (RetrievePublicKey RetrieveDilithiumPublicKey : string -> result (list byte))
        (VerifyTransactionSignature : thrylos.Transaction -> list byte -> list byte -> option error)
        (node : core.Node) (tx : thrylos.Transaction) :
  let submit n :=
    core.SubmitTransactionHandler RetrievePublicKey RetrieveDilithiumPublicKey
                                  VerifyTransactionSignature n (Ok tx) in
  match core.VerifyAndProcessTransaction RetrievePublicKey RetrieveDilithiumPublicKey
                                         VerifyTransactionSignature node tx with
  | None =>
      (submit node).2 = core.StatusOK
      /\ (submit (submit node).1).2 = core.StatusOK
      /\ core.PendingTransactions (submit (submit node).1).1
         = core.PendingTransactions node ++ [tx; tx]
      /\ core.pending_count (submit (submit node).1).1 (thrylos.Id tx)
         = (core.pending_count node (thrylos.Id tx) + 2)%nat
  | Some _ => submit node = (node, core.StatusUnprocessableEntity)
  end.
Proof.
  intros submit.
  destruct (core.VerifyAndProcessTransaction _ _ _ node tx) eqn:Hv.
  - unfold submit, core.SubmitTransactionHandler. rewrite Hv. reflexivity.
  - assert (Hv' : forall n, core.VerifyAndProcessTransaction RetrievePublicKey
              RetrieveDilithiumPublicKey VerifyTransactionSignature n tx = None).
    { intros n. exact Hv. }
    assert (Hs : forall n, submit n = ((core.AddPendingTransaction n tx).1, core.StatusOK)).
    { intros n. unfold submit, core.SubmitTransactionHandler. rewrite Hv'. reflexivity. }
    rewrite !Hs. simpl.
    split; [reflexivity|]. split; [reflexivity|]. split.
    + rewrite <- app_assoc. reflexivity.
    + pose proof (pending_count_app (core.AddPendingTransaction node tx).1 tx (thrylos.Id tx)) as H2.
      pose proof (pending_count_app node tx (thrylos.Id tx)) as H1.
      rewrite String.eqb_refl in H1, H2. simpl in H1, H2.
      unfold core.pending_count in *. simpl in *. lia.
Qed.

(** ** Validator selection *)

Lemma stake_sum_app o1 o2 : core.stake_sum (o1 ++ o2) = core.stake_sum o1 + core.stake_sum o2.
Proof. unfold core.stake_sum. induction o1 as [|kv o1 IH]; simpl; lia. Qed.

Lemma stake_sum_Permutation o1 o2 : o1 ≡ₚ o2 -> core.stake_sum o1 = core.stake_sum o2.
Proof. unfold core.stake_sum. induction 1; simpl; lia. Qed.

Lemma stake_sum_nonneg order : Forall (fun kv : string * Z => 0 <= kv.2) order -> 0 <= core.stake_sum order.
Proof. unfold core.stake_sum. induction 1; simpl; lia. Qed.

(** Without overflow the first loop computes the sum of the stakes. *)
Lemma total_loop_sum order acc :
  Forall (fun kv : string * Z => 0 <= kv.2) order ->
  0 <= acc -> acc + core.stake_sum order < 2 ^ 63 ->
  fold_left (fun total (kv : string * Z) => int (total + kv.2)) order acc
  = acc + core.stake_sum order.
Proof.
  intros Hpos. revert acc.
  induction Hpos as [|kv order Hkv Hrest IH]; intros acc Hacc Hsum; simpl.
  - unfold core.stake_sum. simpl. lia.
  - pose proof (stake_sum_nonneg order Hrest) as Hn.
    change (core.stake_sum (kv :: order)) with (kv.2 + core.stake_sum order) in *.
    rewrite int_small by lia. rewrite IH by lia. lia.
Qed.

(** The second loop stops at the first entry whose stakes, added up in the
    order of the walk, exceed the draw. *)
Lemma select_loop_spec order r :
  Forall (fun kv : string * Z => 0 <= kv.2) order ->
  core.stake_sum order < 2 ^ 63 ->
  0 <= r < core.stake_sum order ->
  exists pre address stake post,
    order = pre ++ (address, stake) :: post
    /\ core.stake_sum pre <= r < core.stake_sum pre + stake
    /\ core.select_loop order r = address.
Proof.
  intros Hpos. revert r.
  induction Hpos as [|[a s] order Hkv Hrest IH]; intros r Hsum Hr.
  - unfold core.stake_sum in Hr. simpl in Hr. lia.
  - pose proof (stake_sum_nonneg order Hrest) as Hn.
    change (core.stake_sum ((a, s) :: order)) with (s + core.stake_sum order) in *.
    simpl in Hkv. simpl. rewrite int_small by lia.
    destruct (r - s <? 0) eqn:Hlt.
    + apply Z.ltb_lt in Hlt. exists [], a, s, order.
      unfold core.stake_sum. simpl. repeat split; lia.
    + apply Z.ltb_ge in Hlt.
      destruct (IH (r - s)) as (pre & a' & s' & post & -> & Hb & Hsel); [lia|lia|].
      exists ((a, s) :: pre), a', s', post.
      change (core.stake_sum ((a, s) :: pre)) with (s + core.stake_sum pre).
      repeat split; [lia|lia|exact Hsel].
Qed.

Lemma range_order_nonneg (m : gmap string Z) order :
  range_order m order ->
  map_Forall (fun _ stake => 0 <= stake) m ->
  Forall (fun kv : string * Z => 0 <= kv.2) order.
Proof.
  intros Hperm Hm. apply Forall_forall. intros [a s] Hin. simpl.
  unfold range_order in Hperm. rewrite Hperm in Hin.
  apply elem_of_map_to_list in Hin. exact (Hm a s Hin).
Qed.

(** C5, as stated, fails: on the table {a: 1000, b: 1000} and the draw 0 the
    walk in the range order b, a returns b, the walk in lexicographic order
    returns a. *)
Lemma SelectValidator_depends_on_range_order :
  let draw := fun _ : Z => Ok 0 in
  let order := [("b", 1000); ("a", 1000)] in
  range_order examples.two_stakeholders order
  /\ range_order examples.two_stakeholders (core.lexicographic examples.two_stakeholders)
  /\ core.SelectValidator order order draw = "b"
  /\ core.SelectValidator (core.lexicographic examples.two_stakeholders)
                          (core.lexicographic examples.two_stakeholders) draw = "a".
Proof.
  assert (Hl : map_to_list examples.two_stakeholders = [("a", 1000); ("b", 1000)])
    by (vm_compute; reflexivity).
  assert (Hs : core.lexicographic examples.two_stakeholders = [("a", 1000); ("b", 1000)])
    by (vm_compute; reflexivity).
  unfold range_order. rewrite Hs, Hl.
  split; [apply perm_swap|]. split; [reflexivity|]. split; vm_compute; reflexivity.
Qed.

(** C5, amended: for a stakeholder table with non-negative stakes whose sum
    fits an [int], and a draw [r] in [0, total), [SelectValidator] walks the
    stakeholders in the order of the map iteration, which the language does
    not fix, subtracting each stake from [r] until [r < 0], and returns that
    address: the first stakeholder at which the stakes added up along the
    walk exceed [r].  The result is a function of the table, the draw and the
    iteration order. *)
Theorem SelectValidator_walks_range_order
        (m : gmap string Z) (order1 order2 : list (string * Z))
        (SecureRandomInt : Z -> result Z) (r : Z) :
  range_order m order1 ->
  range_order m order2 ->
  map_Forall (fun _ stake => 0 <= stake) m ->
  core.stake_sum (map_to_list m) < 2 ^ 63 ->
  SecureRandomInt (core.stake_sum (map_to_list m)) = Ok r ->
  0 <= r < core.stake_sum (map_to_list m) ->
  exists pre address stake post,
    order2 = pre ++ (address, stake) :: post
    /\ m !! address = Some stake
    /\ core.stake_sum pre <= r < core.stake_sum pre + stake
    /\ core.SelectValidator order1 order2 SecureRandomInt = address.
Proof.
  intros H1 H2 Hm Hsum Hdraw Hr.
  pose proof (range_order_nonneg m order1 H1 Hm) as Hp1.
  pose proof (range_order_nonneg m order2 H2 Hm) as Hp2.
  pose proof (stake_sum_Permutation _ _ H1) as E1.
  pose proof (stake_sum_Permutation _ _ H2) as E2.
  destruct (select_loop_spec order2 r Hp2) as (pre & a & s & post & Ho & Hb & Hsel);
    [lia|lia|].
  exists pre, a, s, post. repeat split; try tauto.
  - apply elem_of_map_to_list. unfold range_order in H2. rewrite <- H2, Ho.
    apply elem_of_app. right. apply elem_of_cons. left. reflexivity.
  - unfold core.SelectValidator.
    rewrite (total_loop_sum order1 0 Hp1) by lia.
    rewrite Z.add_0_l, E1.
    destruct (core.stake_sum (map_to_list m) =? 0) eqn:Hz; [apply Z.eqb_eq in Hz; lia|].
    rewrite Hdraw. exact Hsel.
Qed.

Lemma SelectValidator_walks_range_order_witness :
  exists pre address stake post,
    [("b", 1000); ("a", 1000)] = pre ++ (address, stake) :: post
    /\ examples.two_stakeholders !! address = Some stake
    /\ core.stake_sum pre <= 0 < core.stake_sum pre + stake
    /\ core.SelectValidator [("b", 1000); ("a", 1000)] [("b", 1000); ("a", 1000)]
                            (fun _ => Ok 0) = address.
Proof.
  assert (Hl : map_to_list examples.two_stakeholders = [("a", 1000); ("b", 1000)])
    by (vm_compute; reflexivity).
  apply (SelectValidator_walks_range_order examples.two_stakeholders _ _ (fun _ => Ok 0) 0).
  - unfold range_order. rewrite Hl. apply perm_swap.
  - unfold range_order. rewrite Hl. apply perm_swap.
  - apply map_Forall_to_list. rewrite Hl. repeat constructor; simpl; lia.
  - rewrite Hl. vm_compute. reflexivity.
  - reflexivity.
  - rewrite Hl. vm_compute. split; [discriminate|reflexivity].
Defined.

(** C8: when the total stake is zero, as it is for the empty table,
    [SelectValidator] returns the empty string whatever the random source
    would give; the empty string is the failure value, and it is not an
    address ([SanitizeAndFormatAddress] rejects it). *)
Theorem SelectValidator_without_stake
        (order1 order2 : list (string * Z)) (SecureRandomInt : Z -> result Z) :
  core.TotalStake order1 = 0 ->
  core.SelectValidator order1 order2 SecureRandomInt = ""
  /\ shared.SanitizeAndFormatAddress "" = Err "invalid address format: ".
Proof.
  intros Hzero. split; [|reflexivity].
  unfold core.SelectValidator. unfold core.TotalStake in Hzero. rewrite Hzero. reflexivity.
Qed.

Lemma SelectValidator_without_stake_witness :
  core.SelectValidator (map_to_list (∅ : gmap string Z)) (map_to_list (∅ : gmap string Z))
                       (fun total => Ok (total - 1)) = ""
  /\ shared.SanitizeAndFormatAddress "" = Err "invalid address format: ".
Proof.
  apply SelectValidator_without_stake. rewrite map_to_list_empty. reflexivity.
Defined.

(** ** The block store *)

Lemma descending_lookup (db : gmap string (list byte)) k v :
  (k, v) ∈ badger.descending db -> db !! k = Some v.
Proof.
  unfold badger.descending, badger.ascending. intros Hin.
  apply list_elem_of_In, in_rev, list_elem_of_In in Hin.
  rewrite merge_sort_Permutation in Hin.
  apply elem_of_map_to_list in Hin. exact Hin.
Qed.

Lemma last_block_loop_no_blocks items :
  Forall (fun kv : string * list byte => HasPrefix kv.1 "block-" = false) items ->
  database.last_block_loop items = Err "no blocks found in the database".
Proof.
  induction 1 as [|[k v] items Hk Hrest IH]; [reflexivity|].
  simpl in *. rewrite Hk. exact IH.
Qed.

(** With no key under the prefix, both lookups of the tip fail. *)
Lemma last_block_of_store_without_blocks (db : gmap string (list byte)) :
  (forall k v, db !! k = Some v -> HasPrefix k "block-" = false) ->
  database.GetLastBlockData db = Err "no blocks found in the database"
  /\ database.GetLastBlockIndex db = Err "no blocks found in the database".
Proof.
  intros Hdb.
  assert (Hall : Forall (fun kv : string * list byte => HasPrefix kv.1 "block-" = false)
                        (badger.descending db)).
  { apply Forall_forall. intros [k v] Hin. simpl. eapply Hdb, descending_lookup, Hin. }
  split.
  - unfold database.GetLastBlockData. rewrite (last_block_loop_no_blocks _ Hall). reflexivity.
  - unfold database.GetLastBlockIndex.
    destruct (badger.descending db) as [|[k v] rest]; [reflexivity|].
    apply Forall_cons in Hall as [Hk _]. simpl in Hk. rewrite Hk. reflexivity.
Qed.

(** Up to block 9 the decimal keys sort like the indices, and the tip is found. *)
Lemma last_block_up_to_nine (n : nat) :
  (n <= 9)%nat ->
  database.GetLastBlockData (examples.blocks_up_to n) = Ok ([byte_of_Z (Z.of_nat n)], Z.of_nat n)
  /\ database.GetLastBlockIndex (examples.blocks_up_to n) = Ok (Z.of_nat n).
Proof.
  intros Hn.
  do 10 (destruct n as [|n]; [split; vm_compute; reflexivity|]).
  lia.
Qed.

(** A key that sorts after the blocks hides them from [GetLastBlockIndex]. *)
Lemma GetLastBlockIndex_behind_other_keys :
  database.GetLastBlockIndex (badger.Set_ (examples.blocks_up_to 3) "transaction-tx1" [])
  = Err "no blocks found in the database".
Proof. vm_compute. reflexivity. Qed.

(** C7: the code at the store that holds block-0 to block-10.  Block 10 is
    in the store, yet both lookups of the tip answer 9: the reverse iterator
    orders the keys as byte strings, where block-9 comes after block-10. *)
Theorem GetLastBlockData_eleven_blocks :
  database.RetrieveBlock examples.eleven_blocks 10 = Ok [byte_of_Z 10]
  /\ database.GetLastBlockData examples.eleven_blocks = Ok ([byte_of_Z 9], 9)
  /\ database.GetLastBlockIndex examples.eleven_blocks = Ok 9.
Proof. run_code. Qed.

(** ** Unspent outputs *)

Lemma collect_keeps json_Unmarshal_UTXO keep items acc :
  Forall (fun u => keep u = true) acc ->
  Forall (fun u => keep u = true) (database.collect json_Unmarshal_UTXO keep items acc).1.
Proof.
  revert acc. induction items as [|[k val] items IH]; intros acc Hacc; simpl; [exact Hacc|].
  destruct (json_Unmarshal_UTXO val) as [utxo|err]; simpl; [|exact Hacc].
  apply IH. destruct (keep utxo) eqn:Hk; [|exact Hacc].
  apply Forall_app. split; [exact Hacc|]. repeat constructor. exact Hk.
Qed.

(** [GetUTXOs] filters on the spent flag: whatever the store holds, every
    output it returns is unspent. *)
Lemma GetUTXOs_only_unspent json_Unmarshal_UTXO (db : gmap string (list byte)) address k l u :
  (database.GetUTXOs json_Unmarshal_UTXO db address).1 !! k = Some l ->
  u ∈ l -> shared.IsSpent u = false.
Proof.
  unfold database.GetUTXOs.
  set (items := badger.ValidForPrefix _ _).
  pose proof (collect_keeps json_Unmarshal_UTXO (fun utxo => negb (shared.IsSpent utxo))
                            items [] (Forall_nil_2 _)) as Hall.
  destruct (database.collect _ _ items []) as [found err]. simpl in *.
  destruct found as [|u0 found]; intros Hl Hu.
  - rewrite lookup_empty in Hl. discriminate.
  - apply lookup_singleton_Some in Hl as [_ <-].
    rewrite Forall_forall in Hall. apply Hall in Hu. apply negb_true_iff in Hu. exact Hu.
Qed.

(** [GetUTXOsForAddress] has no such filter: an output stored under the
    prefix of the address is returned with whatever flag it carries. *)
Lemma GetUTXOsForAddress_returns_stored json_Unmarshal_UTXO val u :
  json_Unmarshal_UTXO val = Ok u ->
  database.GetUTXOsForAddress json_Unmarshal_UTXO {[ "utxo-alice-tx0-0" := val ]} "alice"
  = Ok [u].
Proof.
  intros Hdec. unfold database.GetUTXOsForAddress, badger.ascending.
  rewrite map_to_list_singleton. simpl. rewrite Hdec. reflexivity.
Qed.

(** C4: a spent output is returned like an unspent one by the per-user
    filter and by the per-address iteration.  For every stored value that
    decodes to an output with the spent flag set, [GetUTXOsForUser] returns
    the output for its owner and [GetUTXOsForAddress] returns it for the
    address of its key; the sibling [GetUTXOs] reads the flag and leaves
    it out. *)
Theorem GetUTXOsForUser_returns_spent_outputs
        (json_Unmarshal_UTXO : list byte -> result shared.UTXO) (val : list byte)
        (utxo : shared.UTXO) (id : string) :
  json_Unmarshal_UTXO val = Ok utxo ->
  shared.IsSpent utxo = true ->
  database.GetUTXOsForUser (shared.OwnerAddress utxo) [(id, utxo)] = Ok [utxo]
  /\ database.GetUTXOsForAddress json_Unmarshal_UTXO {[ "utxo-alice-tx0-0" := val ]} "alice"
     = Ok [utxo]
  /\ database.GetUTXOs json_Unmarshal_UTXO {[ "utxo-alice-tx0-0" := val ]} "alice"
     = (∅, None).
Proof.
  intros Hdec Hspent. split; [|split].
  - unfold database.GetUTXOsForUser. simpl. rewrite String.eqb_refl. reflexivity.
  - exact (GetUTXOsForAddress_returns_stored json_Unmarshal_UTXO val utxo Hdec).
  - unfold database.GetUTXOs, badger.ascending. rewrite map_to_list_singleton. simpl.
    rewrite Hdec, Hspent. reflexivity.
Qed.

Lemma GetUTXOsForUser_returns_spent_outputs_witness :
  database.GetUTXOsForUser (shared.OwnerAddress examples.spent_utxo)
                           [("u1", examples.spent_utxo)] = Ok [examples.spent_utxo]
  /\ database.GetUTXOsForAddress (fun _ => Ok examples.spent_utxo)
       {[ "utxo-alice-tx0-0" := bytes_of_string "spent" ]} "alice"
     = Ok [examples.spent_utxo]
  /\ database.GetUTXOs (fun _ => Ok examples.spent_utxo)
       {[ "utxo-alice-tx0-0" := bytes_of_string "spent" ]} "alice"
     = (∅, None).
Proof.
  apply (GetUTXOsForUser_returns_spent_outputs (fun _ => Ok examples.spent_utxo)
           (bytes_of_string "spent") examples.spent_utxo "u1"); reflexivity.
Defined.

(** ** AES in cipher feedback mode *)

Lemma byte_to_Z_range b : 0 <= byte_to_Z b < 256.
Proof.
  unfold byte_to_Z. pose proof (Byte.to_N_bounded b) as H. lia.
Qed.

Lemma byte_of_to_Z b : byte_of_Z (byte_to_Z b) = b.
Proof.
  unfold byte_of_Z. pose proof (byte_to_Z_range b) as Hr.
  rewrite Z.mod_small by lia. unfold byte_to_Z. rewrite N2Z.id, Byte.of_to_N. reflexivity.
Qed.

Lemma byte_to_of_Z z : 0 <= z < 256 -> byte_to_Z (byte_of_Z z) = z.
Proof.
  intros Hz. unfold byte_of_Z, byte_to_Z. rewrite Z.mod_small by lia.
  destruct (Byte.of_N (Z.to_N z)) as [b|] eqn:Hb.
  - apply Byte.to_of_N in Hb. rewrite Hb. lia.
  - apply Byte.of_N_None_iff in Hb. lia.
Qed.

Lemma lxor_byte_range a b : 0 <= a < 256 -> 0 <= b < 256 -> 0 <= Z.lxor a b < 256.
Proof.
  intros Ha Hb.
  assert (Hn : 0 <= Z.lxor a b) by (apply Z.lxor_nonneg; lia).
  split; [exact Hn|].
  destruct (Z.eq_dec (Z.lxor a b) 0) as [->|Hne]; [lia|].
  change 256 with (2 ^ 8). apply Z.log2_lt_pow2; [lia|].
  pose proof (Z.log2_lxor a b ltac:(lia) ltac:(lia)) as Hl.
  assert (La : Z.log2 a < 8).
  { destruct (Z.eq_dec a 0) as [->|]; [reflexivity|]. apply Z.log2_lt_pow2; lia. }
  assert (Lb : Z.log2 b < 8).
  { destruct (Z.eq_dec b 0) as [->|]; [reflexivity|]. apply Z.log2_lt_pow2; lia. }
  lia.
Qed.

(** Adding the same key stream byte twice gives the byte back. *)
Lemma byte_xor_cancel s k : byte_xor (byte_xor s k) k = s.
Proof.
  unfold byte_xor.
  rewrite byte_to_of_Z by (apply lxor_byte_range; apply byte_to_Z_range).
  rewrite Z.lxor_assoc, Z.lxor_nilpotent, Z.lxor_0_r. apply byte_of_to_Z.
Qed.

(** A decrypting stream that starts in the state of the encrypting one reads
    the plaintext back: both keep the ciphertext in the shift register. *)
Lemma XORKeyStream_inverse b next out outUsed src :
  cipher.XORKeyStream b true next out outUsed (cipher.XORKeyStream b false next out outUsed src)
  = src.
Proof.
  revert next out outUsed.
  induction src as [|s src IH]; intros next out outUsed; [reflexivity|].
  cbn [cipher.XORKeyStream]. unfold aes.BlockSize.
  destruct (outUsed =? 16)%nat eqn:E; cbn [cipher.XORKeyStream]; unfold aes.BlockSize;
    rewrite E; cbv beta iota zeta; rewrite byte_xor_cancel, IH; reflexivity.
Qed.

Lemma NewCipher_valid_key key :
  (length key = 16 \/ length key = 24 \/ length key = 32)%nat ->
  aes.NewCipher key = Ok (aes.KeyExpansion (map byte_to_Z key)).
Proof.
  unfold aes.NewCipher. intros [H|[H|H]]; rewrite H; reflexivity.
Qed.

(** C10: for a key of 16, 24 or 32 bytes and a random source that delivers
    the 16 bytes of the IV, [EncryptWithAES] succeeds with the IV in front of
    the ciphertext and [DecryptWithAES] returns the plaintext; on anything
    shorter than one block [DecryptWithAES] fails with "ciphertext too
    short". *)
Theorem DecryptWithAES_EncryptWithAES (key plaintext rand short : list byte) :
  (length key = 16 \/ length key = 24 \/ length key = 32)%nat ->
  (16 <= length rand)%nat ->
  (length short < 16)%nat ->
  exists ciphertext,
    shared.EncryptWithAES key plaintext rand = Ok ciphertext
    /\ take 16 ciphertext = take 16 rand
    /\ length ciphertext = (16 + length plaintext)%nat
    /\ shared.DecryptWithAES key ciphertext = Ok plaintext
    /\ shared.DecryptWithAES key short = Err "ciphertext too short"
    /\ (forall other_key, is_ok (shared.DecryptWithAES other_key short) = false).
Proof.
  intros Hkey Hrand Hshort.
  unfold shared.EncryptWithAES, shared.DecryptWithAES.
  rewrite (NewCipher_valid_key key Hkey).
  unfold cipher.ReadFull, aes.BlockSize.
  destruct (16 <=? length rand)%nat eqn:Hle; [|apply Nat.leb_gt in Hle; lia].
  assert (Hiv : 16%nat = length (take 16 rand)) by (rewrite length_take; lia).
  assert (Hlen : forall b d n o u src, length (cipher.XORKeyStream b d n o u src) = length src).
  { intros b d n o u src. revert n o u.
    induction src as [|s src IH]; intros n o u; [reflexivity|].
    cbn [cipher.XORKeyStream]. unfold aes.BlockSize.
    destruct (u =? 16)%nat; cbn [length]; rewrite IH; reflexivity. }
  eexists. split; [reflexivity|].
  split; [rewrite take_app_length' by exact Hiv; reflexivity|].
  split; [rewrite length_app, <- Hiv; unfold cipher.CFB; rewrite Hlen; reflexivity|].
  split.
  - rewrite length_app, <- Hiv.
    destruct (16 + length (cipher.CFB _ (take 16 rand) false plaintext) <? 16)%nat eqn:Hlt;
      [apply Nat.ltb_lt in Hlt; lia|].
    rewrite take_app_length' by exact Hiv.
    rewrite drop_app_length' by exact Hiv.
    unfold cipher.CFB. rewrite XORKeyStream_inverse. reflexivity.
  - assert (Hlt : (length short <? 16)%nat = true) by (apply Nat.ltb_lt; exact Hshort).
    rewrite Hlt. split; [reflexivity|].
    intros other_key. destruct (aes.NewCipher other_key); reflexivity.
Qed.

Lemma DecryptWithAES_EncryptWithAES_witness :
  exists ciphertext,
    shared.EncryptWithAES (DecodeString "000102030405060708090a0b0c0d0e0f")
                          (bytes_of_string "100 base units to Bob")
                          (DecodeString "0f0e0d0c0b0a09080706050403020100") = Ok ciphertext
    /\ take 16 ciphertext = take 16 (DecodeString "0f0e0d0c0b0a09080706050403020100")
    /\ length ciphertext = (16 + length (bytes_of_string "100 base units to Bob"))%nat
    /\ shared.DecryptWithAES (DecodeString "000102030405060708090a0b0c0d0e0f") ciphertext
       = Ok (bytes_of_string "100 base units to Bob")
    /\ shared.DecryptWithAES (DecodeString "000102030405060708090a0b0c0d0e0f")
                             (bytes_of_string "too short")
       = Err "ciphertext too short"
    /\ (forall other_key,
          is_ok (shared.DecryptWithAES other_key (bytes_of_string "too short")) = false).
Proof.
  apply DecryptWithAES_EncryptWithAES.
  - left. reflexivity.
  - vm_compute. lia.
  - vm_compute. lia.
Defined.

(** ** Addresses *)

Lemma ascii_to_Z_of_code x : 0 <= x < 256 -> ascii_to_Z (ascii_of_N (Z.to_N x)) = x.
Proof.
  intros Hx. unfold ascii_to_Z. rewrite N_ascii_embedding by lia. lia.
Qed.

Lemma of_codes_codes s : of_codes (codes s) = s.
Proof.
  unfold of_codes, codes. induction s as [|c s IH]; [reflexivity|].
  simpl. unfold ascii_to_Z at 1. rewrite N2Z.id, ascii_N_embedding. f_equal. exact IH.
Qed.

Lemma length_codes s : length (codes s) = String.length s.
Proof.
  unfold codes. rewrite length_map. induction s as [|c s IH]; simpl; [reflexivity|].
  f_equal. exact IH.
Qed.

Lemma hex_digit_lower n : 0 <= n < 16 -> lower_hex (ascii_to_Z (hex_digit n)).
Proof.
  intros Hn. unfold hex_digit, lower_hex.
  destruct (n <? 10) eqn:Hlt; rewrite ascii_to_Z_of_code by lia; lia.
Qed.

(** [hex.EncodeToString] writes two lowercase hexadecimal digits per byte. *)
Lemma EncodeToString_lower_hex b :
  Forall lower_hex (codes (EncodeToString b))
  /\ String.length (EncodeToString b) = (2 * length b)%nat.
Proof.
  induction b as [|x b [IH1 IH2]]; [split; [constructor|reflexivity]|].
  pose proof (byte_to_Z_range x) as Hx. split.
  - unfold codes in *. simpl.
    constructor; [apply hex_digit_lower; split; [apply Z.div_pos; lia|apply Z.div_lt_upper_bound; lia]|].
    constructor; [apply hex_digit_lower; apply Z.mod_pos_bound; lia|]. exact IH1.
  - simpl. rewrite IH2. lia.
Qed.

Lemma filter_none {A} (f : A -> bool) l :
  Forall (fun x => f x = false) l -> List.filter f l = [].
Proof. induction 1 as [|x l Hx _ IH]; simpl; [reflexivity|]. rewrite Hx. exact IH. Qed.

Ltac no_space_token :=
  match goal with H : lower_hex _ |- _ => unfold lower_hex in H end;
  apply filter_none; unfold space_tokens;
  repeat (apply List.Forall_cons;
          [cbn [starts_with rev app]; apply andb_false_intro1, Z.eqb_neq; lia|]);
  apply List.Forall_nil.

(** A hexadecimal digit starts no white-space rune, and ends none. *)
Lemma leading_space_hex x l : lower_hex x -> leading_space (x :: l) = None.
Proof.
  intros Hx. unfold leading_space.
  replace (List.filter _ space_tokens) with (@nil (list Z)); [reflexivity|].
  symmetry. no_space_token.
Qed.

Lemma trailing_space_hex x l : lower_hex x -> trailing_space (x :: l) = None.
Proof.
  intros Hx. unfold trailing_space.
  replace (List.filter _ space_tokens) with (@nil (list Z)); [reflexivity|].
  symmetry. no_space_token.
Qed.

Lemma trim_left_hex fuel l : Forall lower_hex l -> trim_left fuel l = l.
Proof.
  intros Hl. destruct fuel as [|fuel]; [reflexivity|].
  destruct Hl as [|x l Hx _]; [reflexivity|].
  simpl. rewrite leading_space_hex by exact Hx. reflexivity.
Qed.

Lemma trim_right_rev_hex fuel l : Forall lower_hex l -> trim_right_rev fuel l = l.
Proof.
  intros Hl. destruct fuel as [|fuel]; [reflexivity|].
  destruct Hl as [|x l Hx _]; [reflexivity|].
  simpl. rewrite trailing_space_hex by exact Hx. reflexivity.
Qed.

Lemma TrimSpace_hex s : Forall lower_hex (codes s) -> TrimSpace s = s.
Proof.
  intros Hs. unfold TrimSpace. cbv zeta.
  rewrite (trim_left_hex (String.length s) (codes s) Hs).
  assert (Hr : Forall lower_hex (rev (codes s))).
  { apply Forall_forall. intros x Hx.
    apply list_elem_of_In, in_rev, list_elem_of_In in Hx.
    rewrite Forall_forall in Hs. exact (Hs x Hx). }
  rewrite (trim_right_rev_hex (length (codes s)) (rev (codes s)) Hr).
  rewrite rev_involutive. apply of_codes_codes.
Qed.

Lemma ToLower_hex s : Forall lower_hex (codes s) -> ToLower s = s.
Proof.
  intros Hs. unfold ToLower. rewrite <- (of_codes_codes s) at 2. f_equal.
  induction Hs as [|x l Hx _ IH]; [reflexivity|].
  simpl. rewrite IH. f_equal. unfold lower_code, lower_hex in *.
  destruct ((65 <=? x) && (x <=? 90)) eqn:E; [|reflexivity].
  apply andb_true_iff in E as [E1 E2]. apply Z.leb_le in E1, E2. lia.
Qed.

Lemma addressRegex_hex s :
  Forall lower_hex (codes s) -> (40 <= String.length s <= 64)%nat ->
  shared.addressRegex_MatchString s = true.
Proof.
  intros Hs [H40 H64]. unfold shared.addressRegex_MatchString.
  apply andb_true_iff. split; [apply andb_true_iff; split|].
  - apply forallb_forall. intros x Hx. apply list_elem_of_In in Hx.
    rewrite Forall_forall in Hs. specialize (Hs x Hx).
    unfold shared.is_hex_code, lower_hex in *.
    destruct Hs as [[? ?]|[? ?]].
    + apply orb_true_iff. left. apply orb_true_iff. left.
      apply andb_true_iff. split; apply Z.leb_le; lia.
    + apply orb_true_iff. left. apply orb_true_iff. right.
      apply andb_true_iff. split; apply Z.leb_le; lia.
  - apply Nat.leb_le. exact H40.
  - apply Nat.leb_le. exact H64.
Qed.

(** C9, as stated, fails at the public key of the first test of RFC 8032:
    neither revision derives the hexadecimal BLAKE2b-256 digest of the key.
    The revision in part_002 returns the key itself in hexadecimal; the one
    in src/shared/transaction.go returns the key followed by the digest of
    the empty input, 128 characters that the address pattern rejects. *)
Lemma computeAddressFromPublicKey_not_the_digest :
  EncodeToString (blake2b.Sum256 examples.public_key)
  = "7849ac3049680be1ef762efe0d36e01733c3464eb0c7c558138acf24bb263bd3"
  /\ shared_rev.computeAddressFromPublicKey examples.public_key
     = "d75a980182b10ab7d54bfed3c964073a0ee172f3daa62325af021a68f707511a"
  /\ shared_rev.computeAddressFromPublicKey examples.public_key
     <> EncodeToString (blake2b.Sum256 examples.public_key)
  /\ shared.computeAddressFromPublicKey examples.public_key
     <> EncodeToString (blake2b.Sum256 examples.public_key)
  /\ is_ok (shared.SanitizeAndFormatAddress
              (shared.computeAddressFromPublicKey examples.public_key)) = false.
Proof.
  assert (Hd : EncodeToString (blake2b.Sum256 examples.public_key)
               = "7849ac3049680be1ef762efe0d36e01733c3464eb0c7c558138acf24bb263bd3")
    by (vm_compute; reflexivity).
  assert (Hr : shared_rev.computeAddressFromPublicKey examples.public_key
               = "d75a980182b10ab7d54bfed3c964073a0ee172f3daa62325af021a68f707511a")
    by (vm_compute; reflexivity).
  assert (Hs : shared.computeAddressFromPublicKey examples.public_key
               = "d75a980182b10ab7d54bfed3c964073a0ee172f3daa62325af021a68f707511a0e5751c026e543b2e8ab2eb06099daa1d1e5df47778f7787faab45cdf12fe3a8")
    by (vm_compute; reflexivity).
  rewrite Hd, Hr, Hs.
  split; [reflexivity|]. split; [reflexivity|].
  split; [discriminate|]. split; [discriminate|].
  vm_compute. reflexivity.
Qed.

(** C9, amended: in the revision of part_002 the address of a 32-byte
    Ed25519 public key is the lowercase hexadecimal encoding of the key
    itself, 64 characters long, and it passes [SanitizeAndFormatAddress]
    unchanged. *)
Theorem computeAddressFromPublicKey_hex_of_key (pubKey : list byte) :
  length pubKey = 32%nat ->
  let address := shared_rev.computeAddressFromPublicKey pubKey in
  address = EncodeToString pubKey
  /\ Forall lower_hex (codes address)
  /\ String.length address = 64%nat
  /\ shared.SanitizeAndFormatAddress address = Ok address.
Proof.
  intros Hlen address. subst address. unfold shared_rev.computeAddressFromPublicKey.
  destruct (EncodeToString_lower_hex pubKey) as [Hhex Hl]. rewrite Hlen in Hl.
  split; [reflexivity|]. split; [exact Hhex|]. split; [exact Hl|].
  unfold shared.SanitizeAndFormatAddress.
  rewrite TrimSpace_hex, ToLower_hex by exact Hhex.
  rewrite addressRegex_hex by (try exact Hhex; lia). reflexivity.
Qed.

Lemma computeAddressFromPublicKey_hex_of_key_witness :
  let address := shared_rev.computeAddressFromPublicKey examples.public_key in
  address = EncodeToString examples.public_key
  /\ Forall lower_hex (codes address)
  /\ String.length address = 64%nat
  /\ shared.SanitizeAndFormatAddress address = Ok address.
Proof.
  apply computeAddressFromPublicKey_hex_of_key. reflexivity.
Defined.

(** ** The packages against their test vectors *)

Example blake2b_abc :
  EncodeToString (blake2b.Sum256 (bytes_of_string "abc"))
  = "bddd813c634239723171ef3fee98579b94964e3bb1cb3e427262c8c068d52319".
Proof. vm_compute. reflexivity. Qed.

Example sha512_abc :
  EncodeToString (sha512.Sum512 (bytes_of_string "abc"))
  = "ddaf35a193617abacc417349ae20413112e6fa4e89a97ea20a9eeee64b55d39a2192992a274fc1a836ba3c23a3feebbd454d4423643ce80e2a9ac94fa54ca49f".
Proof. vm_compute. reflexivity. Qed.

(** FIPS 197, appendix C.1 and C.3. *)
Example aes_fips197 :
  (aes.Encrypt (aes.KeyExpansion (map byte_to_Z (DecodeString "000102030405060708090a0b0c0d0e0f")))
               (DecodeString "00112233445566778899aabbccddeeff")
   = DecodeString "69c4e0d86a7b0430d8cdb78070b4c55a")
  /\ (aes.Encrypt
        (aes.KeyExpansion
           (map byte_to_Z
                (DecodeString "000102030405060708090a0b0c0d0e0f101112131415161718191a1b1c1d1e1f")))
        (DecodeString "00112233445566778899aabbccddeeff")
      = DecodeString "8ea2b7ca516745bfeafc49904b496089").
Proof. run_code. Qed.

(** RFC 8032, section 7.1, test 1: the public key and the signature of the
    empty message. *)
Example ed25519_rfc8032_test1 :
  EncodeToString examples.public_key
  = "d75a980182b10ab7d54bfed3c964073a0ee172f3daa62325af021a68f707511a"
  /\ ed25519.Sign examples.private_key []
     = Return (DecodeString "e5564300c360ac729086e2cc806e828a84877f1eb8e5d974d873e065224901555fb8821590a33bacc61e39701cf9b46bd25bf5f0595bbe24655141438e7a100b")
  /\ ed25519.Verify examples.public_key []
       (DecodeString "e5564300c360ac729086e2cc806e828a84877f1eb8e5d974d873e065224901555fb8821590a33bacc61e39701cf9b46bd25bf5f0595bbe24655141438e7a100b")
     = Return true.
Proof. run_code. Qed.

(** ** Signing and verifying transactions *)

(** Where the example key and the example signature come from. *)
Lemma example_key_and_signature :
  examples.private_key = ed25519.NewKeyFromSeed examples.seed
  /\ examples.public_key = ed25519.Public examples.private_key
  /\ match thrylos.Marshal examples.unbacked_body with
     | Ok txBytes => ed25519.Sign examples.private_key (shared_rev.cachedHashData txBytes)
     | Err err => Panic err
     end = Return (thrylos.Signature examples.unbacked)
  /\ examples.unbacked
     = thrylos.with_Signature examples.unbacked_body (thrylos.Signature examples.unbacked).
Proof. run_code. Qed.

(** The bytes of a signed transaction are the bytes of the unsigned one
    followed by the signature field, whatever the transaction. *)
Lemma Marshal_with_Signature tx sig unsigned :
  thrylos.Marshal (thrylos.with_Signature tx []) = Ok unsigned ->
  thrylos.Marshal (thrylos.with_Signature tx sig) = Ok (unsigned ++ proto.bytes_field 7 sig).
Proof.
  unfold thrylos.Marshal, thrylos.with_Signature. cbn [thrylos.Id thrylos.Sender
    thrylos.Timestamp thrylos.Inputs thrylos.Outputs thrylos.PreviousTxIds thrylos.Signature].
  destruct (_ && _); [|discriminate].
  intros [= <-]. cbn [proto.bytes_field]. rewrite app_nil_r, <- !app_assoc. reflexivity.
Qed.

(** The signature [SignTransaction] produces is a valid signature of the
    bytes of the transaction as it was before signing. *)
Lemma signed_transfer_signs_the_unsigned_bytes :
  match thrylos.Marshal examples.transfer with
  | Ok txBytes =>
      ed25519.Verify examples.public_key txBytes (thrylos.Signature examples.signed_transfer)
  | Err _ => Return false
  end = Return true.
Proof. vm_compute. reflexivity. Qed.

(** Verification marshals the transaction with the signature in it: 66 bytes
    more than what was signed. *)
Lemma signed_transfer_bytes_differ :
  match thrylos.Marshal examples.transfer, thrylos.Marshal examples.signed_transfer with
  | Ok unsigned, Ok signed => (length unsigned, length signed)
  | _, _ => (O, O)
  end = (55%nat, 121%nat).
Proof. vm_compute. reflexivity. Qed.

(** C1: the code at the transfer of 100 from Alice to Bob and the key pair of
    RFC 8032, test 1.  [SignTransaction] succeeds, and every verifier then
    rejects the signed transaction: [VerifyTransactionSignature] (and with it
    [VerifyTransaction] of src/shared/transaction.go) checks the signature
    against the bytes of the transaction with the signature in it,
    [VerifyTransaction] of part_002 against the BLAKE2b digest of the bytes
    without it; what was signed are the bytes themselves. *)
Theorem SignTransaction_then_verify_rejects :
  shared.SignTransaction examples.transfer examples.private_key
  = Return (examples.signed_transfer, None)
  /\ shared.VerifyTransactionSignature examples.signed_transfer examples.public_key
     = Return (Some "Ed25519 signature verification failed")
  /\ shared.VerifyTransaction examples.signed_transfer ∅ examples.lookup_key
     = Return (false, Some "Transaction signature verification failed: Ed25519 signature verification failed")
  /\ shared_rev.VerifyTransaction examples.signed_transfer ∅ examples.lookup_key
     = Return (false, Some "Transaction signature verification failed").
Proof. run_code. Qed.

(** Neither revision of [VerifyTransaction] reads the UTXO set. *)
Lemma VerifyTransaction_ignores_utxos tx (utxos utxos' : gmap string (list thrylos.UTXO)) lookup :
  shared.VerifyTransaction tx utxos lookup = shared.VerifyTransaction tx utxos' lookup
  /\ shared_rev.VerifyTransaction tx utxos lookup = shared_rev.VerifyTransaction tx utxos' lookup.
Proof. split; reflexivity. Qed.

(** C2: the code at a transaction of Alice that spends an output of Bob
    found in no ledger, takes in 100 and pays out 1000000, and is dated one
    second into 1970, signed by Alice over the digest part_002 verifies.
    [VerifyTransaction] returns success on the empty UTXO set;
    [ValidateTransaction] on the same transaction and set returns false, and
    [validateTimestamp] rejects the date. *)
Theorem VerifyTransaction_accepts_unbacked :
  shared_rev.VerifyTransaction examples.unbacked ∅ examples.lookup_key = Return (true, None)
  /\ map thrylos.OwnerAddress (thrylos.Inputs examples.unbacked) = ["Bob"]
  /\ thrylos.Sender examples.unbacked = "Alice"
  /\ map thrylos.Amount (thrylos.Inputs examples.unbacked) = [100]
  /\ map thrylos.Amount (thrylos.Outputs examples.unbacked) = [1000000]
  /\ match shared.ConvertThrylosTransactionToLocal examples.unbacked with
     | Ok tx => shared.ValidateTransaction tx ∅
     | Err _ => true
     end = false
  /\ shared_rev.validateTimestamp 1700000000 (thrylos.Timestamp examples.unbacked) = false.
Proof. run_code. Qed.

(** * Further properties of the code *)

(** ** Machine integers, continued *)

Lemma int_add_l a b : int (int a + b) = int (a + b).
Proof.
  unfold int, wrap. change (2 ^ (64 - 1)) with (2 ^ 63).
  replace ((a + 2 ^ 63) mod 2 ^ 64 - 2 ^ 63 + b + 2 ^ 63)
    with ((a + 2 ^ 63) mod 2 ^ 64 + b) by lia.
  rewrite Zplus_mod_idemp_l. f_equal. f_equal. lia.
Qed.

Lemma int_0 : int 0 = 0.
Proof. reflexivity. Qed.

Lemma int_range z : - 2 ^ 63 <= int z < 2 ^ 63.
Proof.
  unfold int, wrap. change (2 ^ (64 - 1)) with (2 ^ 63).
  pose proof (Z.mod_pos_bound (z + 2 ^ 63) (2 ^ 64) ltac:(lia)). lia.
Qed.

(** Two integers wrap to the same [int] exactly when they differ by a
    multiple of 2^64. *)
Lemma int_eq_iff a b : int a = int b <-> (a - b) mod 2 ^ 64 = 0.
Proof.
  unfold int, wrap. change (2 ^ (64 - 1)) with (2 ^ 63). split.
  - intros H. assert (E : (a + 2 ^ 63) mod 2 ^ 64 = (b + 2 ^ 63) mod 2 ^ 64) by lia.
    replace (a - b) with ((a + 2 ^ 63) - (b + 2 ^ 63)) by lia.
    rewrite Zminus_mod, E, Z.sub_diag. reflexivity.
  - intros H. f_equal.
    replace (a + 2 ^ 63) with ((a - b) + (b + 2 ^ 63)) by lia.
    rewrite Zplus_mod, H, Z.add_0_l, Z.mod_mod by lia. reflexivity.
Qed.

(** ** The stakeholder table *)

Lemma total_loop_wraps order a :
  fold_left (fun total (kv : string * Z) => int (total + kv.2)) order (int a)
  = int (a + core.stake_sum order).
Proof.
  revert a. induction order as [|kv order IH]; intros a; simpl.
  - unfold core.stake_sum. simpl. f_equal. lia.
  - rewrite int_add_l, IH.
    change (core.stake_sum (kv :: order)) with (kv.2 + core.stake_sum order).
    f_equal. lia.
Qed.

Lemma TotalStake_wraps order : core.TotalStake order = int (core.stake_sum order).
Proof.
  pose proof (total_loop_wraps order 0) as H. rewrite int_0, Z.add_0_l in H. exact H.
Qed.

(** X1: [TotalStake] does not depend on the order in which the range visits
    the stakeholders, overflow included: it is the sum of the stakes wrapped
    to an [int]. *)
Theorem TotalStake_any_order (m : gmap string Z) (order1 order2 : list (string * Z)) :
  range_order m order1 ->
  range_order m order2 ->
  core.TotalStake order1 = core.TotalStake order2
  /\ core.TotalStake order1 = int (core.stake_sum (map_to_list m)).
Proof.
  intros H1 H2. rewrite !TotalStake_wraps.
  rewrite (stake_sum_Permutation _ _ H1), (stake_sum_Permutation _ _ H2). split; reflexivity.
Qed.

Lemma TotalStake_any_order_witness :
  core.TotalStake [("b", 1000); ("a", 1000)] = core.TotalStake [("a", 1000); ("b", 1000)]
  /\ core.TotalStake [("b", 1000); ("a", 1000)]
     = int (core.stake_sum (map_to_list examples.two_stakeholders)).
Proof.
  assert (Hl : map_to_list examples.two_stakeholders = [("a", 1000); ("b", 1000)])
    by (vm_compute; reflexivity).
  apply (TotalStake_any_order examples.two_stakeholders); unfold range_order; rewrite Hl.
  - apply perm_swap.
  - reflexivity.
Defined.

(** ** The pending pool, continued *)

(** X2: after [AddPendingTransaction] the pool is the old pool followed by
    the transaction, no error is reported, and [HasTransaction] finds exactly
    the ids it found before and the id of the transaction. *)
Theorem AddPendingTransaction_HasTransaction (node : core.Node) (tx : thrylos.Transaction)
        (txID : string) :
  let node' := (core.AddPendingTransaction node tx).1 in
  (core.AddPendingTransaction node tx).2 = None
  /\ core.GetPendingTransactions node' = core.GetPendingTransactions node ++ [tx]
  /\ core.HasTransaction node' txID
     = core.HasTransaction node txID || String.eqb (thrylos.Id tx) txID
  /\ core.HasTransaction node' (thrylos.Id tx) = true
  /\ core.Address node' = core.Address node /\ core.Peers node' = core.Peers node
  /\ core.Votes node' = core.Votes node.
Proof.
  intros node'. subst node'. unfold core.HasTransaction, core.AddPendingTransaction. simpl.
  rewrite !existsb_app. simpl. rewrite String.eqb_refl, !orb_false_r, orb_true_r.
  repeat (split; [reflexivity|]). reflexivity.
Qed.

(** ** Sums of amounts *)

(** A loop that adds up in an [int] computes the sum wrapped to an [int]. *)
Lemma wrapped_sum {A} (f : A -> Z) (l : list A) (a : Z) :
  fold_left (fun acc x => int (acc + f x)) l (int a)
  = int (a + foldr (fun x acc => f x + acc) 0 l).
Proof.
  revert a. induction l as [|x l IH]; intros a; simpl.
  - f_equal. lia.
  - rewrite int_add_l, IH. f_equal. lia.
Qed.

Lemma sum_Amounts_wraps l : shared.sum_Amounts l = int (shared.amount_sum l).
Proof.
  pose proof (wrapped_sum shared.Amount l 0) as H. rewrite int_0, Z.add_0_l in H. exact H.
Qed.

Lemma amount_sum_app l1 l2 :
  shared.amount_sum (l1 ++ l2) = shared.amount_sum l1 + shared.amount_sum l2.
Proof. unfold shared.amount_sum. induction l1 as [|u l1 IH]; simpl; lia. Qed.

Lemma amount_sum_nonneg l :
  Forall (fun u => 0 <= shared.Amount u) l -> 0 <= shared.amount_sum l.
Proof. unfold shared.amount_sum. induction 1; simpl; lia. Qed.

(** ** Balances *)

Lemma owned_by_Permutation address o1 o2 :
  o1 ≡ₚ o2 -> database.owned_by address o1 ≡ₚ database.owned_by address o2.
Proof.
  unfold database.owned_by. induction 1 as [|x l l' _ IH|x y l|l l' l'' _ IH1 _ IH2]; simpl.
  - reflexivity.
  - destruct (String.eqb _ address); simpl; [constructor|]; exact IH.
  - destruct (String.eqb (shared.OwnerAddress y.2) address),
             (String.eqb (shared.OwnerAddress x.2) address); simpl;
      try reflexivity. apply perm_swap.
  - etransitivity; eassumption.
Qed.

Lemma amount_sum_Permutation l1 l2 : l1 ≡ₚ l2 -> shared.amount_sum l1 = shared.amount_sum l2.
Proof. unfold shared.amount_sum. induction 1; simpl; lia. Qed.

(** X3: whatever the order in which the range visits the map,
    [GetUTXOsForUser] returns each output of the map that [address] owns
    once and no others, spent or not, and [GetBalance], when the
    [Blockchain] field holds a value with this [GetUTXOsForUser], returns
    the sum of their amounts wrapped to an [int]; on the nil field that
    [NewBlockchainDB] leaves it panics. *)
Theorem GetBalance_any_order (m : gmap string shared.UTXO)
        (order1 order2 : list (string * shared.UTXO)) (address : string) :
  range_order m order1 ->
  range_order m order2 ->
  (exists userUTXOs1 userUTXOs2,
     database.GetUTXOsForUser address order1 = Ok userUTXOs1
     /\ database.GetUTXOsForUser address order2 = Ok userUTXOs2
     /\ userUTXOs1 ≡ₚ userUTXOs2
     /\ userUTXOs1 ≡ₚ database.owned_by address (map_to_list m))
  /\ database.GetBalance (Some database.GetUTXOsForUser) address order1
     = Return (Ok (int (shared.amount_sum (database.owned_by address (map_to_list m)))))
  /\ database.GetBalance (Some database.GetUTXOsForUser) address order2
     = Return (Ok (int (shared.amount_sum (database.owned_by address (map_to_list m)))))
  /\ database.GetBalance None address order1
     = Panic "runtime error: invalid memory address or nil pointer dereference".
Proof.
  intros H1 H2. unfold range_order in H1, H2.
  pose proof (owned_by_Permutation address _ _ H1) as Hp1.
  pose proof (owned_by_Permutation address _ _ H2) as Hp2.
  split; [|split; [|split; [|reflexivity]]].
  - exists (database.owned_by address order1), (database.owned_by address order2).
    split; [reflexivity|]. split; [reflexivity|]. split; [|exact Hp1].
    rewrite Hp1, Hp2. reflexivity.
  - unfold database.GetBalance, database.GetUTXOsForUser.
    fold (database.owned_by address order1).
    pose proof (wrapped_sum shared.Amount (database.owned_by address order1) 0) as E.
    rewrite int_0, Z.add_0_l in E. rewrite E.
    fold (shared.amount_sum (database.owned_by address order1)).
    rewrite (amount_sum_Permutation _ _ Hp1). reflexivity.
  - unfold database.GetBalance, database.GetUTXOsForUser.
    fold (database.owned_by address order2).
    pose proof (wrapped_sum shared.Amount (database.owned_by address order2) 0) as E.
    rewrite int_0, Z.add_0_l in E. rewrite E.
    fold (shared.amount_sum (database.owned_by address order2)).
    rewrite (amount_sum_Permutation _ _ Hp2). reflexivity.
Qed.

Lemma GetBalance_any_order_witness :
  let m : gmap string shared.UTXO :=
    {[ "u1" := examples.spent_utxo; "u9" := examples.alice_output;
       "u5" := core.output_to "bob" 5 ]} in
  let order1 := [("u1", examples.spent_utxo); ("u5", core.output_to "bob" 5);
                 ("u9", examples.alice_output)] in
  let order2 := [("u9", examples.alice_output); ("u5", core.output_to "bob" 5);
                 ("u1", examples.spent_utxo)] in
  (exists userUTXOs1 userUTXOs2,
     database.GetUTXOsForUser "alice" order1 = Ok userUTXOs1
     /\ database.GetUTXOsForUser "alice" order2 = Ok userUTXOs2
     /\ userUTXOs1 ≡ₚ userUTXOs2
     /\ userUTXOs1 ≡ₚ database.owned_by "alice" (map_to_list m))
  /\ database.GetBalance (Some database.GetUTXOsForUser) "alice" order1
     = Return (Ok (int (shared.amount_sum (database.owned_by "alice" (map_to_list m)))))
  /\ database.GetBalance (Some database.GetUTXOsForUser) "alice" order2
     = Return (Ok (int (shared.amount_sum (database.owned_by "alice" (map_to_list m)))))
  /\ database.GetBalance None "alice" order1
     = Panic "runtime error: invalid memory address or nil pointer dereference".
Proof.
  intros m order1 order2.
  assert (Hl : map_to_list m
               = [("u5", core.output_to "bob" 5); ("u9", examples.alice_output);
                  ("u1", examples.spent_utxo)]) by (vm_compute; reflexivity).
  apply (GetBalance_any_order m order1 order2 "alice"); unfold range_order; rewrite Hl.
  - apply (Permutation_cons_append
             [("u5", core.output_to "bob" 5); ("u9", examples.alice_output)]
             ("u1", examples.spent_utxo)).
  - apply perm_swap.
Defined.

(** ** Collecting inputs *)

Lemma collect_loop_spec utxos amount acc inputs :
  Forall (fun u => 0 <= shared.Amount u) utxos ->
  0 <= acc -> acc + shared.amount_sum utxos < 2 ^ 63 ->
  exists taken rest,
    utxos = taken ++ rest
    /\ core.collect_loop utxos amount acc inputs = (acc + shared.amount_sum taken, inputs ++ taken)
    /\ (amount <= acc + shared.amount_sum taken \/ rest = [])
    /\ (forall init last, taken = init ++ [last] -> acc + shared.amount_sum init < amount).
Proof.
  intros Hpos. revert acc inputs.
  induction Hpos as [|u utxos Hu Hrest IH]; intros acc inputs Hacc Hsum.
  - exists [], []. simpl. rewrite app_nil_r. unfold shared.amount_sum. simpl.
    rewrite Z.add_0_r. repeat split; [right; reflexivity|].
    intros init last H. destruct init; discriminate.
  - pose proof (amount_sum_nonneg utxos Hrest) as Hn.
    change (shared.amount_sum (u :: utxos)) with (shared.Amount u + shared.amount_sum utxos) in Hsum.
    simpl. destruct (acc >=? amount) eqn:Hge.
    + apply Z.geb_le in Hge. exists [], (u :: utxos). rewrite app_nil_r.
      unfold shared.amount_sum at 1 2. simpl. rewrite Z.add_0_r.
      repeat split; [left; lia|]. intros init last H. destruct init; discriminate.
    + assert (Hlt : acc < amount) by (destruct (Z.geb_spec acc amount); [discriminate|lia]).
      rewrite int_small by lia.
      destruct (IH (acc + shared.Amount u) (inputs ++ [u])) as (taken & rest & -> & Hl & Hor & Hmin);
        [lia|lia|].
      exists (u :: taken), rest.
      change (shared.amount_sum (u :: taken)) with (shared.Amount u + shared.amount_sum taken).
      split; [reflexivity|]. split; [rewrite Hl, <- app_assoc; f_equal; lia|].
      split; [destruct Hor; [left; lia|right; assumption]|].
      intros init last H. destruct init as [|u0 init].
      * unfold shared.amount_sum. simpl. lia.
      * simpl in H. injection H as <- H.
        change (shared.amount_sum (u :: init)) with (shared.Amount u + shared.amount_sum init).
        specialize (Hmin init last H). lia.
Qed.

(** The inputs collected cover the amount, with the change. *)
Lemma collect_inputs_spec (utxos : list shared.UTXO) (amount : Z) :
  Forall (fun u => 0 <= shared.Amount u) utxos ->
  shared.amount_sum utxos < 2 ^ 63 ->
  shared.amount_sum utxos - amount < 2 ^ 63 ->
  match core.CollectInputsForTransaction utxos amount with
  | Ok (inputs, change) =>
      (exists rest, utxos = inputs ++ rest)
      /\ shared.amount_sum inputs = amount + change
      /\ 0 <= change
      /\ (forall init last, inputs = init ++ [last] -> shared.amount_sum init < amount)
  | Err err => err = "not enough funds available" /\ shared.amount_sum utxos < amount
  end.
Proof.
  intros Hpos Hsum Hchange. unfold core.CollectInputsForTransaction.
  destruct (collect_loop_spec utxos amount 0 [] Hpos) as (taken & rest & Hu & Hl & Hor & Hmin);
    [lia|lia|].
  rewrite Z.add_0_l in Hl, Hor. rewrite Hl. simpl.
  assert (Hn : 0 <= shared.amount_sum rest).
  { apply amount_sum_nonneg. subst utxos. apply Forall_app in Hpos. tauto. }
  assert (Hs : shared.amount_sum utxos = shared.amount_sum taken + shared.amount_sum rest)
    by (subst utxos; apply amount_sum_app).
  destruct (shared.amount_sum taken <? amount) eqn:Hlt.
  - apply Z.ltb_lt in Hlt. split; [reflexivity|].
    destruct Hor as [Hor| ->]; [lia|]. unfold shared.amount_sum in Hs at 3. simpl in Hs. lia.
  - apply Z.ltb_ge in Hlt. rewrite int_small by lia.
    split; [exists rest; exact Hu|]. split; [lia|]. split; [lia|].
    intros init last H. specialize (Hmin init last H). lia.
Qed.

(** X4: on a slice of outputs with non-negative amounts whose sum fits an
    [int], [CollectInputsForTransaction] takes outputs from the front, in
    order, until the amount is covered: what it returns adds up to the amount
    plus the change, the change is not negative, and without the last output
    taken the amount would not be covered.  It fails exactly when all the
    outputs together do not reach the amount.  It never looks at the spent
    flag. *)
Theorem CollectInputsForTransaction_covers (utxos : list shared.UTXO) (amount : Z) :
  Forall (fun u => 0 <= shared.Amount u) utxos ->
  shared.amount_sum utxos < 2 ^ 63 ->
  shared.amount_sum utxos - amount < 2 ^ 63 ->
  match core.CollectInputsForTransaction utxos amount with
  | Ok (inputs, change) =>
      (exists rest, utxos = inputs ++ rest)
      /\ shared.amount_sum inputs = amount + change
      /\ 0 <= change
      /\ (forall init last, inputs = init ++ [last] -> shared.amount_sum init < amount)
  | Err err => err = "not enough funds available" /\ shared.amount_sum utxos < amount
  end.
Proof. exact (collect_inputs_spec utxos amount). Qed.

Lemma CollectInputsForTransaction_covers_witness :
  match core.CollectInputsForTransaction
          [core.output_to "alice" 60; core.output_to "alice" 70; core.output_to "alice" 80] 100 with
  | Ok (inputs, change) =>
      (exists rest,
          [core.output_to "alice" 60; core.output_to "alice" 70; core.output_to "alice" 80]
          = inputs ++ rest)
      /\ shared.amount_sum inputs = 100 + change
      /\ 0 <= change
      /\ (forall init last, inputs = init ++ [last] -> shared.amount_sum init < 100)
  | Err err =>
      err = "not enough funds available"
      /\ shared.amount_sum
           [core.output_to "alice" 60; core.output_to "alice" 70; core.output_to "alice" 80] < 100
  end.
Proof.
  apply CollectInputsForTransaction_covers.
  - repeat constructor; simpl; lia.
  - vm_compute. reflexivity.
  - vm_compute. reflexivity.
Defined.

(** The outputs prepared for an amount and the change add up to both. *)
Lemma transaction_outputs_sum (recipientAddress sender : string) (amount change : Z) :
  0 <= change ->
  shared.amount_sum (core.transaction_outputs recipientAddress sender amount change)
  = amount + change.
Proof.
  intros Hch. unfold core.transaction_outputs. destruct (change >? 0) eqn:Hgt.
  - unfold shared.amount_sum. simpl. lia.
  - assert (change = 0) by (destruct (Z.gtb_spec change 0); [discriminate|lia]).
    unfold shared.amount_sum. simpl. lia.
Qed.

(** X5: [CreateAndBroadcastTransaction] conserves value.  On outputs with
    non-negative amounts whose sum fits an [int], whatever
    [CreateAndSignTransaction] does, it is called once, with the id
    [txID], inputs taken from the front of the sender's outputs and
    outputs (the amount for the recipient and, when there is change, the
    change for the node's address) that add up to these inputs; the
    transaction it returns is the one broadcast.  The call fails with the
    signer's error wrapped, or, when the sender's outputs do not reach the
    amount, before the signer is called. *)
Theorem CreateAndBroadcastTransaction_conserves
        (CreateAndSignTransaction :
           string -> list shared.UTXO -> list shared.UTXO -> list byte -> list byte ->
           list byte -> result shared.Transaction)
        (node : core.Node) (utxos : list shared.UTXO) (recipientAddress : string)
        (aesKey : list byte) (amount : Z) (ed25519PrivateKey dilithiumPrivateKey : list byte) :
  Forall (fun u => 0 <= shared.Amount u) utxos ->
  shared.amount_sum utxos < 2 ^ 63 ->
  shared.amount_sum utxos - amount < 2 ^ 63 ->
  match core.CreateAndBroadcastTransaction CreateAndSignTransaction node utxos recipientAddress
                                           aesKey amount ed25519PrivateKey
                                           dilithiumPrivateKey with
  | Ok transaction =>
      exists inputs rest change,
        utxos = inputs ++ rest
        /\ 0 <= change
        /\ CreateAndSignTransaction
             "txID" inputs
             (core.transaction_outputs recipientAddress (core.Address node) amount change)
             ed25519PrivateKey dilithiumPrivateKey aesKey = Ok transaction
        /\ shared.amount_sum
             (core.transaction_outputs recipientAddress (core.Address node) amount change)
           = shared.amount_sum inputs
        /\ shared.sum_Amounts
             (core.transaction_outputs recipientAddress (core.Address node) amount change)
           = shared.sum_Amounts inputs
  | Err err =>
      (shared.amount_sum utxos < amount
       /\ err = "failed to collect inputs for transaction: not enough funds available")
      \/ (exists inputs rest change e,
            utxos = inputs ++ rest
            /\ shared.amount_sum inputs = amount + change
            /\ CreateAndSignTransaction
                 "txID" inputs
                 (core.transaction_outputs recipientAddress (core.Address node) amount change)
                 ed25519PrivateKey dilithiumPrivateKey aesKey = Err e
            /\ err = "failed to create and sign transaction: " +:+ e)
  end.
Proof.
  intros Hpos Hsum Hchange.
  pose proof (collect_inputs_spec utxos amount Hpos Hsum Hchange) as H.
  unfold core.CreateAndBroadcastTransaction.
  destruct (core.CollectInputsForTransaction utxos amount) as [[inputs change]|e0].
  - destruct H as ((rest & Hu) & Hs & Hch & _).
    pose proof (transaction_outputs_sum recipientAddress (core.Address node) amount change Hch)
      as E.
    destruct (CreateAndSignTransaction _ _ _ _ _ _) as [transaction|e] eqn:Hsign.
    + exists inputs, rest, change. split; [exact Hu|]. split; [exact Hch|].
      split; [exact Hsign|]. split; [lia|]. rewrite !sum_Amounts_wraps. f_equal. lia.
    + right. exists inputs, rest, change, e. split; [exact Hu|]. split; [exact Hs|].
      split; [exact Hsign|reflexivity].
  - destruct H as (-> & Hlt). left. split; [exact Hlt|reflexivity].
Qed.

Lemma CreateAndBroadcastTransaction_conserves_witness :
  let utxos :=
    [core.output_to "node" 60; core.output_to "node" 70; core.output_to "node" 80] in
  match core.CreateAndBroadcastTransaction examples.assemble examples.voting_node utxos "bob"
                                           [] 100 examples.private_key [] with
  | Ok transaction =>
      exists inputs rest change,
        utxos = inputs ++ rest
        /\ 0 <= change
        /\ examples.assemble
             "txID" inputs
             (core.transaction_outputs "bob" (core.Address examples.voting_node) 100 change)
             examples.private_key [] [] = Ok transaction
        /\ shared.amount_sum
             (core.transaction_outputs "bob" (core.Address examples.voting_node) 100 change)
           = shared.amount_sum inputs
        /\ shared.sum_Amounts
             (core.transaction_outputs "bob" (core.Address examples.voting_node) 100 change)
           = shared.sum_Amounts inputs
  | Err err =>
      (shared.amount_sum utxos < 100
       /\ err = "failed to collect inputs for transaction: not enough funds available")
      \/ (exists inputs rest change e,
            utxos = inputs ++ rest
            /\ shared.amount_sum inputs = 100 + change
            /\ examples.assemble
                 "txID" inputs
                 (core.transaction_outputs "bob" (core.Address examples.voting_node) 100 change)
                 examples.private_key [] [] = Err e
            /\ err = "failed to create and sign transaction: " +:+ e)
  end.
Proof.
  intros utxos.
  apply (CreateAndBroadcastTransaction_conserves examples.assemble examples.voting_node utxos
           "bob" [] 100 examples.private_key []).
  - unfold utxos. repeat constructor; simpl; lia.
  - vm_compute. reflexivity.
  - vm_compute. reflexivity.
Defined.

(** ** Validating a transaction *)

Lemma input_sum_referred inputs (availableUTXOs : gmap string (list shared.UTXO)) a :
  shared.input_sum inputs availableUTXOs (int a)
  = (fun found => int (a + shared.amount_sum found)) <$> shared.referred inputs availableUTXOs.
Proof.
  revert a. induction inputs as [|input inputs IH]; intros a; simpl.
  - unfold shared.amount_sum. simpl. rewrite Z.add_0_r. reflexivity.
  - unfold shared.utxoKey.
    destruct (availableUTXOs !! _) as [[|u rest]|]; [reflexivity| |reflexivity].
    rewrite int_add_l, IH.
    destruct (shared.referred inputs availableUTXOs) as [found|]; simpl; [|reflexivity].
    change (shared.amount_sum (u :: found)) with (shared.Amount u + shared.amount_sum found).
    do 2 f_equal. lia.
Qed.

(** X6: [ValidateTransaction] accepts exactly when every input has an entry
    in the available set (a non-empty slice under the key made of its
    transaction id and index) and the amounts of those entries and the
    amounts of the outputs differ by a multiple of 2^64.  The amount written
    in the input itself and the spent flags are not read. *)
Theorem ValidateTransaction_iff (tx : shared.Transaction)
        (availableUTXOs : gmap string (list shared.UTXO)) :
  shared.ValidateTransaction tx availableUTXOs = true
  <-> exists found,
        shared.referred (shared.tx_Inputs tx) availableUTXOs = Some found
        /\ (shared.amount_sum found - shared.amount_sum (shared.tx_Outputs tx)) mod 2 ^ 64 = 0.
Proof.
  unfold shared.ValidateTransaction.
  rewrite <- int_0 at 1. rewrite input_sum_referred, sum_Amounts_wraps.
  destruct (shared.referred (shared.tx_Inputs tx) availableUTXOs) as [found|]; simpl.
  - rewrite Z.eqb_eq, int_eq_iff. split.
    + intros H. exists found. split; [reflexivity|exact H].
    + intros (found' & [= <-] & H). exact H.
  - split; [discriminate|]. intros (found & H & _). discriminate.
Qed.

(** ** AES keys and randomness *)

Lemma NewCipher_invalid_key key :
  length key <> 16%nat -> length key <> 24%nat -> length key <> 32%nat ->
  aes.NewCipher key = Err ("crypto/aes: invalid key size " +:+ Itoa (Z.of_nat (length key))).
Proof.
  unfold aes.NewCipher. generalize (length key) as n. intros n H16 H24 H32.
  do 33 (destruct n as [|n]; [try reflexivity; congruence|]). reflexivity.
Qed.

(** X7: with a key that is not 16, 24 or 32 bytes long both [EncryptWithAES]
    and [DecryptWithAES] fail with the key size error of [aes.NewCipher],
    whatever the data; with a valid key [EncryptWithAES] fails when the
    random source runs dry before the 16 bytes of the IV. *)
Theorem EncryptWithAES_errors (key good_key data rand : list byte) :
  length key <> 16%nat -> length key <> 24%nat -> length key <> 32%nat ->
  (length good_key = 16 \/ length good_key = 24 \/ length good_key = 32)%nat ->
  (length rand < 16)%nat ->
  shared.EncryptWithAES key data rand
  = Err ("crypto/aes: invalid key size " +:+ Itoa (Z.of_nat (length key)))
  /\ shared.DecryptWithAES key data
     = Err ("crypto/aes: invalid key size " +:+ Itoa (Z.of_nat (length key)))
  /\ shared.EncryptWithAES good_key data rand
     = Err (if (length rand =? 0)%nat then "EOF" else "unexpected EOF").
Proof.
  intros H16 H24 H32 Hgood Hrand. unfold shared.EncryptWithAES, shared.DecryptWithAES.
  rewrite (NewCipher_invalid_key key H16 H24 H32), (NewCipher_valid_key good_key Hgood).
  split; [reflexivity|]. split; [reflexivity|].
  unfold cipher.ReadFull, aes.BlockSize.
  destruct (16 <=? length rand)%nat eqn:Hle; [apply Nat.leb_le in Hle; lia|reflexivity].
Qed.

Lemma EncryptWithAES_errors_witness :
  shared.EncryptWithAES (bytes_of_string "seventeen bytes!!") (bytes_of_string "data")
                        (bytes_of_string "dry")
  = Err ("crypto/aes: invalid key size "
         +:+ Itoa (Z.of_nat (length (bytes_of_string "seventeen bytes!!"))))
  /\ shared.DecryptWithAES (bytes_of_string "seventeen bytes!!") (bytes_of_string "data")
     = Err ("crypto/aes: invalid key size "
            +:+ Itoa (Z.of_nat (length (bytes_of_string "seventeen bytes!!"))))
  /\ shared.EncryptWithAES (bytes_of_string "sixteen byte key") (bytes_of_string "data")
                           (bytes_of_string "dry")
     = Err (if (length (bytes_of_string "dry") =? 0)%nat then "EOF" else "unexpected EOF").
Proof.
  apply EncryptWithAES_errors.
  - vm_compute. discriminate.
  - vm_compute. discriminate.
  - vm_compute. discriminate.
  - left. reflexivity.
  - vm_compute. lia.
Defined.

(** ** Addresses, continued *)

Lemma codes_range s : Forall (fun c => 0 <= c < 256) (codes s).
Proof.
  unfold codes. induction s as [|c s IH]; simpl; constructor; [|exact IH].
  unfold ascii_to_Z. pose proof (N_ascii_bounded c). lia.
Qed.

Lemma codes_of_codes l : Forall (fun c => 0 <= c < 256) l -> codes (of_codes l) = l.
Proof.
  unfold codes, of_codes. induction 1 as [|x l Hx _ IH]; [reflexivity|].
  simpl. rewrite ascii_to_Z_of_code by exact Hx. f_equal. exact IH.
Qed.

Lemma codes_ToLower s : codes (ToLower s) = map lower_code (codes s).
Proof.
  unfold ToLower. apply codes_of_codes.
  pose proof (codes_range s) as H. induction H as [|x l Hx _ IH]; simpl; constructor;
    [|exact IH].
  unfold lower_code. destruct ((65 <=? x) && (x <=? 90)) eqn:E; [|exact Hx].
  apply andb_true_iff in E as [E1 E2]. apply Z.leb_le in E1, E2. lia.
Qed.

(** What is lowered and matches the hexadecimal pattern is lowercase. *)
Lemma lowered_hex_is_lower l :
  forallb shared.is_hex_code (map lower_code l) = true -> Forall lower_hex (map lower_code l).
Proof.
  induction l as [|x l IH]; simpl; [constructor|].
  intros H. apply andb_true_iff in H as [Hx Hl]. constructor; [|exact (IH Hl)].
  unfold shared.is_hex_code, lower_code, lower_hex in *.
  destruct ((65 <=? x) && (x <=? 90)) eqn:E.
  - apply andb_true_iff in E as [E1 E2]. apply Z.leb_le in E1, E2.
    repeat (apply orb_true_iff in Hx as [Hx|Hx]);
      apply andb_true_iff in Hx as [H1 H2]; apply Z.leb_le in H1, H2; lia.
  - apply andb_false_iff in E.
    repeat (apply orb_true_iff in Hx as [Hx|Hx]);
      apply andb_true_iff in Hx as [H1 H2]; apply Z.leb_le in H1, H2; lia.
Qed.

(** X8: an address that [SanitizeAndFormatAddress] returns consists of 40
    to 64 lowercase hexadecimal digits, and sanitizing it again returns it
    unchanged. *)
Theorem SanitizeAndFormatAddress_idempotent (address formatted : string) :
  shared.SanitizeAndFormatAddress address = Ok formatted ->
  Forall lower_hex (codes formatted)
  /\ (40 <= String.length formatted <= 64)%nat
  /\ shared.SanitizeAndFormatAddress formatted = Ok formatted.
Proof.
  unfold shared.SanitizeAndFormatAddress at 1.
  destruct (shared.addressRegex_MatchString (ToLower (TrimSpace address))) eqn:Hm;
    [|discriminate].
  simpl. intros [= <-].
  unfold shared.addressRegex_MatchString in Hm.
  apply andb_true_iff in Hm as [Hm H64]. apply andb_true_iff in Hm as [Hhex H40].
  apply Nat.leb_le in H40, H64.
  rewrite codes_ToLower in Hhex. apply lowered_hex_is_lower in Hhex.
  rewrite <- codes_ToLower in Hhex.
  split; [exact Hhex|]. split; [lia|].
  unfold shared.SanitizeAndFormatAddress.
  rewrite (TrimSpace_hex _ Hhex), (ToLower_hex _ Hhex).
  rewrite addressRegex_hex by (try exact Hhex; lia). reflexivity.
Qed.

Lemma SanitizeAndFormatAddress_idempotent_witness :
  Forall lower_hex (codes "d75a980182b10ab7d54bfed3c964073a0ee172f3daa62325af021a68f707511a")
  /\ (40 <= String.length "d75a980182b10ab7d54bfed3c964073a0ee172f3daa62325af021a68f707511a"
      <= 64)%nat
  /\ shared.SanitizeAndFormatAddress
       "d75a980182b10ab7d54bfed3c964073a0ee172f3daa62325af021a68f707511a"
     = Ok "d75a980182b10ab7d54bfed3c964073a0ee172f3daa62325af021a68f707511a".
Proof.
  apply (SanitizeAndFormatAddress_idempotent
           "  D75A980182B10AB7D54BFED3C964073A0EE172F3DAA62325AF021A68F707511A ").
  vm_compute. reflexivity.
Defined.

(** ** Counting votes *)

Lemma stake_for_nonneg hash votes :
  Forall (fun vote => 0 <= core.Stake vote) votes -> 0 <= core.stake_for hash votes.
Proof.
  induction 1 as [|vote votes Hv _ IH]; simpl; [lia|].
  destruct (String.eqb (core.BlockHash vote) hash); lia.
Qed.

Lemma stake_for_positive hash votes :
  0 < core.stake_for hash votes ->
  Forall (fun vote => 0 <= core.Stake vote) votes ->
  exists vote, In vote votes /\ core.BlockHash vote = hash.
Proof.
  induction votes as [|vote votes IH]; simpl; [lia|].
  intros Hpos Hall. inversion Hall as [|? ? Hv Hrest]; subst.
  destruct (String.eqb (core.BlockHash vote) hash) eqn:E.
  - apply String.eqb_eq in E. exists vote. split; [left; reflexivity|exact E].
  - destruct (IH Hpos Hrest) as (v & Hin & Hh). exists v. split; [right; exact Hin|exact Hh].
Qed.

(** The tally, started with the stakes [voteStakes] already collected. *)
Lemma tally_spec votes : forall majorityStake (voteStakes : gmap string Z),
  Forall (fun vote => 0 <= core.Stake vote) votes ->
  (forall hash, 0 <= default 0 (voteStakes !! hash)) ->
  (forall hash, default 0 (voteStakes !! hash) + core.stake_for hash votes < 2 ^ 63) ->
  core.tally votes majorityStake voteStakes = true
  <-> exists vote, In vote votes
        /\ majorityStake <= default 0 (voteStakes !! core.BlockHash vote)
                            + core.stake_for (core.BlockHash vote) votes.
Proof.
  induction votes as [|vote votes IH]; intros majorityStake voteStakes Hall Hm Hbound.
  - simpl. split; [discriminate|]. intros (v & [] & _).
  - inversion Hall as [|? ? Hv Hrest]; subst.
    cbn [core.tally]. cbv zeta. rewrite lookup_insert_eq.
    change (default 0 (Some (int (default 0 (voteStakes !! core.BlockHash vote)
                                  + core.Stake vote))))
      with (int (default 0 (voteStakes !! core.BlockHash vote) + core.Stake vote)).
    set (h := core.BlockHash vote).
    set (collected := default 0 (voteStakes !! h)).
    pose proof (Hm h) as Hc. fold collected in Hc.
    pose proof (Hbound h) as Hb. fold collected in Hb.
    simpl in Hb. fold h in Hb. rewrite String.eqb_refl in Hb.
    pose proof (stake_for_nonneg h votes Hrest) as Hn.
    rewrite (int_small (collected + core.Stake vote)) by lia.
    assert (Hafter : forall hash,
      default 0 (<[h := collected + core.Stake vote]> voteStakes !! hash)
      + core.stake_for hash votes
      = default 0 (voteStakes !! hash) + core.stake_for hash (vote :: votes)).
    { intros hash. simpl. fold h. destruct (String.eqb h hash) eqn:E.
      - apply String.eqb_eq in E. subst hash. rewrite lookup_insert_eq. simpl.
        fold collected. lia.
      - apply String.eqb_neq in E. rewrite lookup_insert_ne by exact E. reflexivity. }
    destruct (collected + core.Stake vote >=? majorityStake) eqn:Hge.
    + apply Z.geb_le in Hge. split; [|reflexivity]. intros _.
      exists vote. split; [left; reflexivity|]. fold h. fold collected.
      simpl. fold h. rewrite String.eqb_refl. lia.
    + rewrite Z.geb_leb in Hge. apply Z.leb_gt in Hge.
      rewrite IH; [| exact Hrest | |].
      * split.
        -- intros (v & Hin & Hmaj). exists v. split; [right; exact Hin|].
           rewrite <- Hafter. exact Hmaj.
        -- intros (v & [<-|Hin] & Hmaj).
           ++ fold h in Hmaj. fold collected in Hmaj. simpl in Hmaj. fold h in Hmaj.
              rewrite String.eqb_refl in Hmaj.
              destruct (stake_for_positive h votes ltac:(lia) Hrest) as (v & Hin & Hh).
              exists v. split; [exact Hin|]. rewrite Hh, Hafter. simpl. fold h.
              rewrite String.eqb_refl. fold collected. lia.
           ++ exists v. split; [exact Hin|]. rewrite Hafter. exact Hmaj.
      * intros hash. destruct (decide (h = hash)) as [<-|Hne].
        -- rewrite lookup_insert_eq. simpl. lia.
        -- rewrite lookup_insert_ne by exact Hne. apply Hm.
      * intros hash. rewrite Hafter. apply Hbound.
Qed.

(** X9: when the stakes written in the votes are not negative and no block
    hash collects 2^63 or more, [CountVotes] broadcasts and clears the votes
    exactly when the votes for some block hash add up to at least half of the
    total stake (rounded towards zero) plus one; otherwise the node is left
    as it was.  The stake counted is the one the vote carries: neither the
    validator nor the stakeholder table is looked at, and two votes of one
    validator both count. *)
Theorem CountVotes_majority (node : core.Node) (order : list (string * Z)) :
  Forall (fun vote => 0 <= core.Stake vote) (core.Votes node) ->
  (forall hash, core.stake_for hash (core.Votes node) < 2 ^ 63) ->
  let majorityStake := int (Z.quot (core.TotalStake order) 2 + 1) in
  (snd (core.CountVotes node order) = true
   <-> exists vote, In vote (core.Votes node)
         /\ majorityStake <= core.stake_for (core.BlockHash vote) (core.Votes node))
  /\ fst (core.CountVotes node order)
     = if snd (core.CountVotes node order) then core.with_Votes node [] else node.
Proof.
  intros Hall Hbound majorityStake. unfold core.CountVotes. fold majorityStake.
  assert (Hspec : core.tally (core.Votes node) majorityStake ∅ = true
                  <-> exists vote, In vote (core.Votes node)
                        /\ majorityStake
                           <= core.stake_for (core.BlockHash vote) (core.Votes node)).
  { rewrite (tally_spec (core.Votes node) majorityStake ∅ Hall).
    - split; intros (v & Hin & Hmaj); exists v; (split; [exact Hin|]);
        rewrite lookup_empty in *; simpl in *; lia.
    - intros hash. rewrite lookup_empty. simpl. lia.
    - intros hash. rewrite lookup_empty. simpl. apply Hbound. }
  destruct (core.tally (core.Votes node) majorityStake ∅); simpl.
  - split; [|reflexivity]. split; [intros _; apply Hspec|]; reflexivity.
  - split; [|reflexivity]. split; [discriminate|]. intros H. apply Hspec. exact H.
Qed.

Lemma CountVotes_majority_witness :
  let order := [("a", 1000); ("b", 1000)] in
  let majorityStake := int (Z.quot (core.TotalStake order) 2 + 1) in
  (snd (core.CountVotes examples.voting_node order) = true
   <-> exists vote, In vote (core.Votes examples.voting_node)
         /\ majorityStake
            <= core.stake_for (core.BlockHash vote) (core.Votes examples.voting_node))
  /\ fst (core.CountVotes examples.voting_node order)
     = if snd (core.CountVotes examples.voting_node order)
       then core.with_Votes examples.voting_node [] else examples.voting_node.
Proof.
  apply (CountVotes_majority examples.voting_node [("a", 1000); ("b", 1000)]).
  - repeat apply List.Forall_cons; try apply List.Forall_nil; simpl; lia.
  - intros hash. unfold examples.voting_node, core.stake_for.
    cbn [core.Votes foldr core.BlockHash core.Stake].
    destruct (String.eqb "block" hash); lia.
Defined.

(** ** Decimal numbers *)

Lemma digit_value_digit_char d : 0 <= d <= 9 -> digit_value (digit_char d) = Some d.
Proof.
  intros Hd.
  assert (H : d = 0 \/ d = 1 \/ d = 2 \/ d = 3 \/ d = 4 \/ d = 5 \/ d = 6 \/ d = 7
              \/ d = 8 \/ d = 9) by lia.
  repeat (destruct H as [->|H]; [reflexivity|]). subst d. reflexivity.
Qed.

(** What [format_digits] writes, [parse_digits] reads back. *)
Lemma parse_format_digits fuel : forall n acc,
  0 <= n < 2 ^ Z.of_nat fuel -> (0 < fuel)%nat ->
  exists k, 0 <= k /\ forall a,
    parse_digits (format_digits fuel n acc) a = parse_digits acc (a * 10 ^ k + n).
Proof.
  induction fuel as [|fuel IH]; intros n acc Hn Hfuel; [lia|].
  cbn [format_digits]. cbv zeta.
  pose proof (Z.mod_pos_bound n 10 ltac:(lia)) as Hmod.
  pose proof (Z.div_mod n 10 ltac:(lia)) as Hdiv.
  destruct (n / 10 =? 0) eqn:Hq.
  - apply Z.eqb_eq in Hq. exists 1. split; [lia|]. intros a.
    cbn [parse_digits]. rewrite digit_value_digit_char by lia.
    f_equal. change (10 ^ 1) with 10. lia.
  - apply Z.eqb_neq in Hq.
    assert (Hpos : 0 < n / 10) by (pose proof (Z.div_pos n 10 ltac:(lia) ltac:(lia)); lia).
    rewrite Nat2Z.inj_succ, Z.pow_succ_r in Hn by lia.
    assert (Hfuel' : (0 < fuel)%nat).
    { destruct fuel; [|lia]. change (2 ^ Z.of_nat 0) with 1 in Hn. lia. }
    destruct (IH (n / 10) (String (digit_char (n mod 10)) acc) ltac:(lia) Hfuel')
      as (k & Hk & Hparse).
    exists (k + 1). split; [lia|]. intros a. rewrite Hparse.
    cbn [parse_digits]. rewrite digit_value_digit_char by lia.
    f_equal. rewrite Z.pow_add_r by lia. change (10 ^ 1) with 10. lia.
Qed.

Lemma format_digits_starts fuel : forall n acc,
  (0 < fuel)%nat \/ (exists d rest, 0 <= d <= 9 /\ acc = String (digit_char d) rest) ->
  exists d rest, 0 <= d <= 9 /\ format_digits fuel n acc = String (digit_char d) rest.
Proof.
  induction fuel as [|fuel IH]; intros n acc H.
  - destruct H as [H|H]; [lia|exact H].
  - cbn [format_digits]. cbv zeta.
    pose proof (Z.mod_pos_bound n 10 ltac:(lia)) as Hmod.
    assert (Hacc : exists d rest, 0 <= d <= 9
                   /\ String (digit_char (n mod 10)) acc = String (digit_char d) rest).
    { exists (n mod 10), acc. split; [lia|reflexivity]. }
    destruct (n / 10 =? 0); [exact Hacc|]. apply IH. right. exact Hacc.
Qed.

Lemma Atoi_digits d rest :
  0 <= d <= 9 ->
  Atoi (String (digit_char d) rest)
  = match parse_digits (String (digit_char d) rest) 0 with
    | None => Err ("strconv.Atoi: parsing " +:+ Quote (String (digit_char d) rest)
                   +:+ ": invalid syntax")
    | Some n =>
        if (MinInt64 <=? n) && (n <=? MaxInt64) then Ok n
        else Err ("strconv.Atoi: parsing " +:+ Quote (String (digit_char d) rest)
                  +:+ ": value out of range")
    end
  /\ Atoi (String "-" (String (digit_char d) rest))
     = match parse_digits (String (digit_char d) rest) 0 with
       | None => Err ("strconv.Atoi: parsing "
                      +:+ Quote (String "-" (String (digit_char d) rest))
                      +:+ ": invalid syntax")
       | Some n =>
           if (MinInt64 <=? - n) && (- n <=? MaxInt64) then Ok (- n)
           else Err ("strconv.Atoi: parsing "
                     +:+ Quote (String "-" (String (digit_char d) rest))
                     +:+ ": value out of range")
       end.
Proof.
  intros Hd.
  assert (H : d = 0 \/ d = 1 \/ d = 2 \/ d = 3 \/ d = 4 \/ d = 5 \/ d = 6 \/ d = 7
              \/ d = 8 \/ d = 9) by lia.
  repeat (destruct H as [->|H]; [split; reflexivity|]). subst d. split; reflexivity.
Qed.

Lemma log2_fuel n : 0 <= n -> 0 <= n < 2 ^ Z.of_nat (Z.to_nat (Z.log2 n) + 1).
Proof.
  intros Hn. rewrite Nat2Z.inj_add, Z2Nat.id by apply Z.log2_nonneg.
  change (Z.of_nat 1) with 1. split; [exact Hn|].
  destruct (Z.eq_dec n 0) as [->|Hne]; [reflexivity|].
  pose proof (Z.log2_spec n ltac:(lia)) as H. change (Z.succ (Z.log2 n)) with (Z.log2 n + 1) in H.
  lia.
Qed.

(** [Atoi] reads back what [Itoa] prints of an [int]. *)
Lemma Atoi_Itoa n : MinInt64 <= n <= MaxInt64 -> Atoi (Itoa n) = Ok n.
Proof.
  intros Hn. unfold Itoa. destruct (n <? 0) eqn:Hneg.
  - apply Z.ltb_lt in Hneg.
    destruct (format_digits_starts (Z.to_nat (Z.log2 (- n)) + 1) (- n) "" ltac:(left; lia))
      as (d & rest & Hd & Hs).
    destruct (parse_format_digits (Z.to_nat (Z.log2 (- n)) + 1) (- n) ""
                (log2_fuel (- n) ltac:(lia)) ltac:(lia)) as (k & _ & Hparse).
    rewrite Hs. rewrite (proj2 (Atoi_digits d rest Hd)). rewrite <- Hs, Hparse.
    cbn [parse_digits]. rewrite Z.mul_0_l, Z.add_0_l, Z.opp_involutive.
    destruct ((MinInt64 <=? n) && (n <=? MaxInt64)) eqn:E; [reflexivity|].
    apply andb_false_iff in E as [E|E]; apply Z.leb_gt in E; lia.
  - apply Z.ltb_ge in Hneg.
    destruct (format_digits_starts (Z.to_nat (Z.log2 n) + 1) n "" ltac:(left; lia))
      as (d & rest & Hd & Hs).
    destruct (parse_format_digits (Z.to_nat (Z.log2 n) + 1) n ""
                (log2_fuel n Hneg) ltac:(lia)) as (k & _ & Hparse).
    rewrite Hs. rewrite (proj1 (Atoi_digits d rest Hd)). rewrite <- Hs, Hparse.
    cbn [parse_digits]. rewrite Z.mul_0_l, Z.add_0_l.
    destruct ((MinInt64 <=? n) && (n <=? MaxInt64)) eqn:E; [reflexivity|].
    apply andb_false_iff in E as [E|E]; apply Z.leb_gt in E; lia.
Qed.

Lemma Itoa_inj n m :
  MinInt64 <= n <= MaxInt64 -> MinInt64 <= m <= MaxInt64 -> Itoa n = Itoa m -> n = m.
Proof.
  intros Hn Hm H. apply (f_equal Atoi) in H.
  rewrite (Atoi_Itoa n Hn), (Atoi_Itoa m Hm) in H. congruence.
Qed.

(** ** The block store, continued *)

Lemma key_le_transitive : Transitive badger.key_le.
Proof. intros a b c Hab Hbc. unfold badger.key_le in *. etransitivity; eassumption. Qed.

Lemma key_le_total : Total badger.key_le.
Proof. intros a b. unfold badger.key_le. apply String.le_total. Qed.

Lemma StronglySorted_rev {A} (R : relation A) l :
  StronglySorted R l -> StronglySorted (flip R) (rev l).
Proof.
  induction 1 as [|x l Hl IH Hx]; [constructor|].
  simpl. apply StronglySorted_app_2; [|exact IH|repeat constructor].
  intros x1 x2 H1 H2. apply list_elem_of_singleton in H2 as ->.
  apply list_elem_of_In, in_rev, list_elem_of_In in H1.
  rewrite Forall_forall in Hx. exact (Hx x1 H1).
Qed.

(** The reverse iterator visits the keys from the greatest down. *)
Lemma descending_sorted (db : gmap string (list byte)) :
  StronglySorted (flip badger.key_le) (badger.descending db).
Proof.
  unfold badger.descending, badger.ascending. apply StronglySorted_rev.
  apply (@StronglySorted_merge_sort _ badger.key_le _ key_le_transitive key_le_total).
Qed.

Lemma lookup_descending (db : gmap string (list byte)) k v :
  db !! k = Some v -> (k, v) ∈ badger.descending db.
Proof.
  intros H. unfold badger.descending, badger.ascending.
  apply list_elem_of_In. apply (proj1 (in_rev _ _)). apply list_elem_of_In.
  rewrite merge_sort_Permutation. apply elem_of_map_to_list. exact H.
Qed.

Lemma descending_head_greatest (db : gmap string (list byte)) k v rest k' v' :
  badger.descending db = (k, v) :: rest -> db !! k' = Some v' -> String.le k' k.
Proof.
  intros Hd Hk'. pose proof (descending_sorted db) as Hs.
  apply lookup_descending in Hk'. rewrite Hd in Hs, Hk'.
  apply StronglySorted_cons in Hs as [Hall _].
  apply elem_of_cons in Hk' as [[= -> ->]|Hin]; [reflexivity|].
  rewrite Forall_forall in Hall. exact (Hall _ Hin).
Qed.

(** In a list sorted from the greatest key down, the loop stops at the
    greatest key that has the prefix. *)
Lemma last_block_loop_greatest items key val :
  StronglySorted (flip badger.key_le) items ->
  (forall v, (key, v) ∈ items -> v = val) ->
  (key, val) ∈ items ->
  HasPrefix key "block-" = true ->
  (forall k v, (k, v) ∈ items -> HasPrefix k "block-" = true -> String.le k key) ->
  database.last_block_loop items
  = match Atoi (TrimPrefix key "block-") with
    | Err parseErr => Err ("error parsing block number: " +:+ parseErr)
    | Ok lastIndex => Ok (val, lastIndex)
    end.
Proof.
  intros Hs Hfun Hin Hp Hmax.
  induction items as [|[k v] items IH]; [apply elem_of_nil in Hin; destruct Hin|].
  apply StronglySorted_cons in Hs as [Hall Hs].
  cbn [database.last_block_loop].
  destruct (HasPrefix k "block-") eqn:Hk.
  - assert (Hle : String.le k key) by exact (Hmax k v ltac:(left) Hk).
    assert (Hge : String.le key k).
    { apply elem_of_cons in Hin as [[= -> ->]|Hin]; [reflexivity|].
      rewrite Forall_forall in Hall. exact (Hall _ Hin). }
    assert (k = key) as -> by (apply (anti_symm String.le); assumption).
    rewrite (Hfun v ltac:(left)). reflexivity.
  - apply IH.
    + exact Hs.
    + intros v0 H0. apply Hfun. right. exact H0.
    + apply elem_of_cons in Hin as [[= -> ->]|Hin]; [congruence|exact Hin].
    + intros k0 v0 H0. apply (Hmax k0 v0). right. exact H0.
Qed.

(** The tip is read from the greatest key with the prefix. *)
Lemma last_block_data_greatest (db : gmap string (list byte)) (key : string)
        (val : list byte) :
  db !! key = Some val ->
  HasPrefix key "block-" = true ->
  (forall k v, db !! k = Some v -> HasPrefix k "block-" = true -> String.le k key) ->
  database.GetLastBlockData db
  = match Atoi (TrimPrefix key "block-") with
    | Err parseErr => Err ("error parsing block number: " +:+ parseErr)
    | Ok lastIndex =>
        if lastIndex =? -1 then Err "no blocks found in the database"
        else Ok (val, lastIndex)
    end.
Proof.
  intros Hkey Hp Hmax. unfold database.GetLastBlockData.
  rewrite (last_block_loop_greatest (badger.descending db) key val).
  - destruct (Atoi (TrimPrefix key "block-")); reflexivity.
  - apply descending_sorted.
  - intros v Hv. apply descending_lookup in Hv. congruence.
  - apply lookup_descending. exact Hkey.
  - exact Hp.
  - intros k v Hin. apply (Hmax k v). apply descending_lookup. exact Hin.
Qed.

(** X10: when the store holds keys with the prefix [block-], the tip that
    [GetLastBlockData] returns is the value under the greatest of them in
    the order of the keys as byte strings, with the number read from that
    key; a key that reads -1 is reported as no blocks found. *)
Theorem GetLastBlockData_greatest_key (db : gmap string (list byte)) (key : string)
        (val : list byte) :
  db !! key = Some val ->
  HasPrefix key "block-" = true ->
  (forall k v, db !! k = Some v -> HasPrefix k "block-" = true -> String.le k key) ->
  database.GetLastBlockData db
  = match Atoi (TrimPrefix key "block-") with
    | Err parseErr => Err ("error parsing block number: " +:+ parseErr)
    | Ok lastIndex =>
        if lastIndex =? -1 then Err "no blocks found in the database"
        else Ok (val, lastIndex)
    end.
Proof. exact (last_block_data_greatest db key val). Qed.

Lemma GetLastBlockData_greatest_key_witness :
  database.GetLastBlockData examples.eleven_blocks
  = match Atoi (TrimPrefix "block-9" "block-") with
    | Err parseErr => Err ("error parsing block number: " +:+ parseErr)
    | Ok lastIndex =>
        if lastIndex =? -1 then Err "no blocks found in the database"
        else Ok ([byte_of_Z 9], lastIndex)
    end.
Proof.
  apply (GetLastBlockData_greatest_key examples.eleven_blocks "block-9" [byte_of_Z 9]).
  - vm_compute. reflexivity.
  - reflexivity.
  - intros k v Hk _. apply elem_of_map_to_list in Hk.
    assert (Hall : Forall (fun kv : string * list byte => String.le kv.1 "block-9")
                          (map_to_list examples.eleven_blocks)).
    { vm_compute. repeat constructor. }
    rewrite Forall_forall in Hall. exact (Hall _ Hk).
Defined.

(** X11: [GetLastBlockIndex] reads one key only, the greatest of the whole
    store: when that key has no [block-] prefix the answer is that there are
    no blocks, whatever blocks are stored under smaller keys; when it has,
    the number read from it is returned, -1 included. *)
Theorem GetLastBlockIndex_greatest_key (db : gmap string (list byte)) (key : string)
        (val : list byte) :
  db !! key = Some val ->
  (forall k v, db !! k = Some v -> String.le k key) ->
  database.GetLastBlockIndex db
  = if HasPrefix key "block-"
    then match Atoi (TrimPrefix key "block-") with
         | Err parseErr => Err parseErr
         | Ok lastIndex => Ok lastIndex
         end
    else Err "no blocks found in the database".
Proof.
  intros Hkey Hmax. unfold database.GetLastBlockIndex.
  destruct (badger.descending db) as [|[k v] rest] eqn:Hd.
  - apply lookup_descending in Hkey. rewrite Hd in Hkey. apply elem_of_nil in Hkey.
    destruct Hkey.
  - assert (Hk : db !! k = Some v) by (apply descending_lookup; rewrite Hd; left).
    assert (k = key) as ->.
    { apply (anti_symm String.le); [exact (Hmax k v Hk)|].
      exact (descending_head_greatest db k v rest key val Hd Hkey). }
    reflexivity.
Qed.

Lemma GetLastBlockIndex_greatest_key_witness :
  database.GetLastBlockIndex (badger.Set_ (examples.blocks_up_to 3) "transaction-tx1" [])
  = if HasPrefix "transaction-tx1" "block-"
    then match Atoi (TrimPrefix "transaction-tx1" "block-") with
         | Err parseErr => Err parseErr
         | Ok lastIndex => Ok lastIndex
         end
    else Err "no blocks found in the database".
Proof.
  apply (GetLastBlockIndex_greatest_key
           (badger.Set_ (examples.blocks_up_to 3) "transaction-tx1" []) "transaction-tx1" []).
  - vm_compute. reflexivity.
  - intros k v Hk. apply elem_of_map_to_list in Hk.
    assert (Hall : Forall (fun kv : string * list byte => String.le kv.1 "transaction-tx1")
                          (map_to_list (badger.Set_ (examples.blocks_up_to 3)
                                                    "transaction-tx1" []))).
    { vm_compute. repeat constructor. }
    rewrite Forall_forall in Hall. exact (Hall _ Hk).
Defined.

Lemma substring_all s : String.substring 0 (String.length s) s = s.
Proof. induction s as [|c s IH]; [reflexivity|]. simpl. rewrite IH. reflexivity. Qed.

Lemma block_key_prefix s :
  HasPrefix ("block-" +:+ s) "block-" = true /\ TrimPrefix ("block-" +:+ s) "block-" = s.
Proof.
  assert (Hp : HasPrefix ("block-" +:+ s) "block-" = true).
  { unfold HasPrefix. simpl. destruct s; reflexivity. }
  split; [exact Hp|]. unfold TrimPrefix. rewrite Hp. simpl.
  rewrite Nat.sub_0_r. apply substring_all.
Qed.

(** X12: a block written by [InsertBlock] is what [RetrieveBlock] returns
    for its number, the blocks of all other numbers are as they were, and a
    second insert under the same number replaces the first.  [StoreBlock]
    writes the same key and value. *)
Theorem RetrieveBlock_InsertBlock (db : gmap string (list byte)) (blockData : list byte)
        (blockNumber other : Z) :
  MinInt64 <= blockNumber <= MaxInt64 ->
  MinInt64 <= other <= MaxInt64 ->
  database.RetrieveBlock (database.InsertBlock db blockData blockNumber) other
  = (if blockNumber =? other then Ok blockData else database.RetrieveBlock db other)
  /\ database.StoreBlock db blockData blockNumber = database.InsertBlock db blockData blockNumber.
Proof.
  intros Hn Hm. split; [|reflexivity].
  unfold database.RetrieveBlock, database.InsertBlock, badger.Set_.
  destruct (blockNumber =? other) eqn:E.
  - apply Z.eqb_eq in E. subst other. rewrite lookup_insert_eq. reflexivity.
  - apply Z.eqb_neq in E. rewrite lookup_insert_ne; [reflexivity|].
    intros H. apply E. apply (Itoa_inj _ _ Hn Hm).
    apply (f_equal (fun s => TrimPrefix s "block-")) in H.
    rewrite !(proj2 (block_key_prefix _)) in H. exact H.
Qed.

Lemma RetrieveBlock_InsertBlock_witness :
  database.RetrieveBlock (database.InsertBlock examples.eleven_blocks [byte_of_Z 77] 10) 9
  = (if 10 =? 9 then Ok [byte_of_Z 77] else database.RetrieveBlock examples.eleven_blocks 9)
  /\ database.StoreBlock examples.eleven_blocks [byte_of_Z 77] 10
     = database.InsertBlock examples.eleven_blocks [byte_of_Z 77] 10.
Proof.
  apply RetrieveBlock_InsertBlock; unfold MinInt64, MaxInt64; lia.
Defined.

(** X13: after the first block is inserted into a store that has no key
    with the prefix [block-], [GetLastBlockData] returns that block and its
    number, negative numbers included, except for the number -1, which is
    reported as no blocks found although the block is stored. *)
Theorem GetLastBlockData_first_block (db : gmap string (list byte)) (blockData : list byte)
        (blockNumber : Z) :
  MinInt64 <= blockNumber <= MaxInt64 ->
  (forall k v, db !! k = Some v -> HasPrefix k "block-" = false) ->
  database.GetLastBlockData (database.InsertBlock db blockData blockNumber)
  = (if blockNumber =? -1 then Err "no blocks found in the database"
     else Ok (blockData, blockNumber))
  /\ database.RetrieveBlock (database.InsertBlock db blockData blockNumber) blockNumber
     = Ok blockData.
Proof.
  intros Hn Hdb. split.
  - rewrite (last_block_data_greatest _ ("block-" +:+ Itoa blockNumber) blockData).
    + rewrite (proj2 (block_key_prefix _)), (Atoi_Itoa _ Hn). reflexivity.
    + unfold database.InsertBlock, badger.Set_. apply lookup_insert_eq.
    + apply block_key_prefix.
    + intros k v Hk Hp. unfold database.InsertBlock, badger.Set_ in Hk.
      destruct (decide ("block-" +:+ Itoa blockNumber = k)) as [<-|Hne]; [reflexivity|].
      rewrite lookup_insert_ne in Hk by exact Hne.
      rewrite (Hdb k v Hk) in Hp. discriminate.
  - unfold database.RetrieveBlock, database.InsertBlock, badger.Set_.
    rewrite lookup_insert_eq. reflexivity.
Qed.

Lemma GetLastBlockData_first_block_witness :
  database.GetLastBlockData (database.InsertBlock ∅ [byte_of_Z 1] (-1))
  = (if -1 =? -1 then Err "no blocks found in the database" else Ok ([byte_of_Z 1], -1))
  /\ database.RetrieveBlock (database.InsertBlock ∅ [byte_of_Z 1] (-1)) (-1)
     = Ok [byte_of_Z 1].
Proof.
  apply GetLastBlockData_first_block.
  - unfold MinInt64, MaxInt64. lia.
  - intros k v Hk. rewrite lookup_empty in Hk. discriminate.
Defined.

(** ** Creating a signed transaction *)

(** X14: a transaction that [CreateAndSignTransaction] returns carries the
    id, the time, the two fixed tips and a signature, and nothing else: the
    inputs, the outputs, their encrypted forms and the sender are dropped on
    the way through the message type.  [ValidateTransaction] therefore
    accepts it against any set of outputs, and [VerifyTransaction] refuses
    its message form for having no inputs. *)
Theorem CreateAndSignTransaction_keeps_no_body
        (serializeUTXOs : list shared.UTXO -> result (list byte))
        (id sender : string) (inputs outputs : list shared.UTXO)
        (ed25519PrivateKey aesKey : list byte) (now : Z) (rand : list byte)
        (tx : shared.Transaction) :
  shared.CreateAndSignTransaction serializeUTXOs id sender inputs outputs
                                  ed25519PrivateKey aesKey now rand = Return (Ok tx) ->
  shared.tx_ID tx = id
  /\ shared.tx_Timestamp tx = now
  /\ shared.tx_PreviousTxIds tx = ["prevTxID1"; "prevTxID2"]
  /\ shared.tx_Inputs tx = [] /\ shared.tx_Outputs tx = []
  /\ shared.tx_EncryptedInputs tx = [] /\ shared.tx_EncryptedOutputs tx = []
  /\ shared.tx_Sender tx = ""
  /\ (forall availableUTXOs, shared.ValidateTransaction tx availableUTXOs = true)
  /\ (forall utxos getPublicKeyFunc,
        shared.VerifyTransaction (shared.ConvertToProtoTransaction tx) utxos getPublicKeyFunc
        = Return (false, Some "Transaction has no inputs")).
Proof.
  unfold shared.CreateAndSignTransaction, shared.selectTips,
    shared.ConvertLocalTransactionToThrylosTransaction.
  destruct (serializeUTXOs inputs) as [serializedInputs|]; [|discriminate].
  destruct (shared.EncryptWithAES aesKey serializedInputs rand) as [encryptedInputs|];
    [|discriminate].
  destruct (serializeUTXOs outputs) as [serializedOutputs|]; [|discriminate].
  destruct (shared.EncryptWithAES aesKey serializedOutputs _) as [encryptedOutputs|];
    [|discriminate].
  cbv zeta. unfold shared.SignTransaction.
  destruct (thrylos.Marshal _) as [txBytes|]; [|discriminate].
  destruct (ed25519.Sign ed25519PrivateKey txBytes) as [sig|]; [|discriminate].
  unfold shared.ConvertThrylosTransactionToLocal. intros [= <-].
  repeat match goal with |- _ /\ _ => split end; try reflexivity.
Qed.

Lemma CreateAndSignTransaction_keeps_no_body_witness :
  shared.tx_ID examples.created = "tx3"
  /\ shared.tx_Timestamp examples.created = 1700000000
  /\ shared.tx_PreviousTxIds examples.created = ["prevTxID1"; "prevTxID2"]
  /\ shared.tx_Inputs examples.created = [] /\ shared.tx_Outputs examples.created = []
  /\ shared.tx_EncryptedInputs examples.created = []
  /\ shared.tx_EncryptedOutputs examples.created = []
  /\ shared.tx_Sender examples.created = ""
  /\ (forall availableUTXOs, shared.ValidateTransaction examples.created availableUTXOs = true)
  /\ (forall utxos getPublicKeyFunc,
        shared.VerifyTransaction (shared.ConvertToProtoTransaction examples.created)
                                 utxos getPublicKeyFunc
        = Return (false, Some "Transaction has no inputs")).
Proof.
  apply (CreateAndSignTransaction_keeps_no_body
           examples.owners "tx3" "Alice" [examples.spent_utxo] [examples.spent_utxo]
           examples.private_key (bytes_of_string "sixteen byte key") 1700000000
           (map byte_of_Z (map Z.of_nat (seq 0 32)))).
  vm_compute. reflexivity.
Defined.

(** ** Transaction ids *)

Lemma F_length h m t last : length (blake2b.F h m t last) = 8%nat.
Proof. unfold blake2b.F. rewrite length_map. reflexivity. Qed.

Lemma absorb_length fuel : forall h t data,
  length h = 8%nat -> length (blake2b.absorb fuel h t data) = 8%nat.
Proof.
  induction fuel as [|fuel IH]; intros h t data Hh; simpl; [exact Hh|].
  destruct (length data <=? 128)%nat; [apply F_length|].
  apply IH. apply F_length.
Qed.

Lemma Z_to_le_length n z : length (Word.Z_to_le n z) = n.
Proof. revert z. induction n as [|n IH]; intros z; simpl; [reflexivity|]. rewrite IH. reflexivity. Qed.

(** A BLAKE2b-256 digest has 32 bytes. *)
Lemma Sum256_length data : length (blake2b.Sum256 data) = 32%nat.
Proof.
  unfold blake2b.Sum256. cbv zeta.
  set (h := blake2b.absorb _ _ _ _).
  assert (Hh : length h = 8%nat) by (apply absorb_length; reflexivity).
  do 8 (destruct h as [|? h]; [discriminate|]).
  cbn [take map concat]. rewrite !length_app, !Z_to_le_length. reflexivity.
Qed.

Lemma fold_text_bare (l : list shared.UTXO) : forall b,
  fold_left (fun b u => b +:+ (shared.OwnerAddress u +:+ Itoa (shared.Amount u)))
            (map (fun u => {| shared.ID := ""; shared.TransactionID := ""; shared.Index := 0;
                              shared.OwnerAddress := shared.OwnerAddress u;
                              shared.Amount := shared.Amount u; shared.IsSpent := false |}) l) b
  = fold_left (fun b u => b +:+ (shared.OwnerAddress u +:+ Itoa (shared.Amount u))) l b.
Proof. induction l as [|u l IH]; intros b; [reflexivity|]. simpl. apply IH. Qed.

(** X15: [GenerateTransactionID] always returns 64 lowercase hexadecimal
    digits, and the id does not determine the transaction: it reads only
    the owner and the amount of each output, it does not tell the inputs
    from the outputs (moving outputs from the end of the inputs to the front
    of the outputs leaves it unchanged), and amount and fee are written
    without a separator, so that 1 and 23 give the id of 12 and 3. *)
Theorem GenerateTransactionID_not_injective (inputs outputs moved : list shared.UTXO)
        (address : string) (amount gasFee : Z) :
  (exists id, shared.GenerateTransactionID inputs outputs address amount gasFee = Ok id
              /\ String.length id = 64%nat /\ Forall lower_hex (codes id))
  /\ shared.GenerateTransactionID (inputs ++ moved) outputs address amount gasFee
     = shared.GenerateTransactionID inputs (moved ++ outputs) address amount gasFee
  /\ shared.GenerateTransactionID
       (map (fun u => {| shared.ID := ""; shared.TransactionID := ""; shared.Index := 0;
                         shared.OwnerAddress := shared.OwnerAddress u;
                         shared.Amount := shared.Amount u; shared.IsSpent := false |}) inputs)
       (map (fun u => {| shared.ID := ""; shared.TransactionID := ""; shared.Index := 0;
                         shared.OwnerAddress := shared.OwnerAddress u;
                         shared.Amount := shared.Amount u; shared.IsSpent := false |}) outputs)
       address amount gasFee
     = shared.GenerateTransactionID inputs outputs address amount gasFee
  /\ shared.GenerateTransactionID inputs outputs address 1 23
     = shared.GenerateTransactionID inputs outputs address 12 3.
Proof.
  repeat match goal with |- _ /\ _ => split end.
  - eexists. split; [reflexivity|].
    destruct (EncodeToString_lower_hex
                (blake2b.Sum (blake2b.Write blake2b.New256
                   (bytes_of_string
                      (shared.transaction_text inputs outputs address amount gasFee))) []))
      as [Hhex Hlen].
    split; [|exact Hhex]. rewrite Hlen. unfold blake2b.Sum. simpl.
    rewrite Sum256_length. reflexivity.
  - unfold shared.GenerateTransactionID, shared.transaction_text. cbv zeta.
    rewrite !fold_left_app. reflexivity.
  - unfold shared.GenerateTransactionID, shared.transaction_text. cbv zeta.
    rewrite !fold_text_bare. reflexivity.
  - unfold shared.GenerateTransactionID, shared.transaction_text. cbv zeta.
    replace (Itoa 1 +:+ Itoa 23) with (Itoa 12 +:+ Itoa 3) by (vm_compute; reflexivity).
    reflexivity.
Qed.

(** ** Converting between the two transaction types *)

Lemma int32_small z : - 2 ^ 31 <= z < 2 ^ 31 -> int32 z = z.
Proof.
  intros Hz. unfold int32, wrap.
  change (2 ^ (32 - 1)) with (2 ^ 31). change (2 ^ 32) with (2 * 2 ^ 31).
  rewrite Z.mod_small by lia. lia.
Qed.

Lemma local_thrylos_UTXO (l : list shared.UTXO) :
  Forall (fun u => - 2 ^ 31 <= shared.Index u < 2 ^ 31
                   /\ - 2 ^ 63 <= shared.Amount u < 2 ^ 63) l ->
  map shared.local_UTXO (map shared.thrylos_UTXO l)
  = map (fun u => {| shared.ID := ""; shared.TransactionID := shared.TransactionID u;
                     shared.Index := shared.Index u;
                     shared.OwnerAddress := shared.OwnerAddress u;
                     shared.Amount := shared.Amount u; shared.IsSpent := false |}) l.
Proof.
  induction 1 as [|u l [Hi Ha] _ IH]; [reflexivity|].
  simpl. rewrite IH. f_equal.
  unfold shared.local_UTXO, shared.thrylos_UTXO. simpl.
  rewrite (int32_small _ Hi). change (int64 (shared.Amount u)) with (int (shared.Amount u)).
  rewrite (int_small _ Ha). reflexivity.
Qed.

(** X16: converting a transaction to the message type with
    [ConvertLocalTransactionToThrylosTransaction] and back with
    [ConvertThrylosTransactionToLocal] keeps the id, the time, the previous
    ids and, of every input and output whose index fits 32 bits, the
    transaction id, index, owner and amount; the signature, the sender, the
    encrypted fields, and the id and spent flag of every output are lost. *)
Theorem ConvertThrylosTransactionToLocal_of_converted (tx : shared.Transaction) :
  Forall (fun u => - 2 ^ 31 <= shared.Index u < 2 ^ 31
                   /\ - 2 ^ 63 <= shared.Amount u < 2 ^ 63)
         (shared.tx_Inputs tx ++ shared.tx_Outputs tx) ->
  match shared.ConvertLocalTransactionToThrylosTransaction tx with
  | Ok thrylosTx => shared.ConvertThrylosTransactionToLocal thrylosTx
  | Err err => Err err
  end
  = Ok {| shared.tx_ID := shared.tx_ID tx;
          shared.tx_Timestamp := shared.tx_Timestamp tx;
          shared.tx_Inputs :=
            map (fun u => {| shared.ID := ""; shared.TransactionID := shared.TransactionID u;
                             shared.Index := shared.Index u;
                             shared.OwnerAddress := shared.OwnerAddress u;
                             shared.Amount := shared.Amount u; shared.IsSpent := false |})
                (shared.tx_Inputs tx);
          shared.tx_Outputs :=
            map (fun u => {| shared.ID := ""; shared.TransactionID := shared.TransactionID u;
                             shared.Index := shared.Index u;
                             shared.OwnerAddress := shared.OwnerAddress u;
                             shared.Amount := shared.Amount u; shared.IsSpent := false |})
                (shared.tx_Outputs tx);
          shared.tx_EncryptedInputs := [];
          shared.tx_EncryptedOutputs := [];
          shared.tx_Signature := [];
          shared.tx_EncryptedAESKey := [];
          shared.tx_PreviousTxIds := shared.tx_PreviousTxIds tx;
          shared.tx_Sender := "" |}.
Proof.
  intros Hall. apply Forall_app in Hall as [Hin Hout].
  unfold shared.ConvertLocalTransactionToThrylosTransaction,
    shared.ConvertThrylosTransactionToLocal. simpl.
  rewrite (local_thrylos_UTXO _ Hin), (local_thrylos_UTXO _ Hout). reflexivity.
Qed.

Lemma ConvertThrylosTransactionToLocal_of_converted_witness :
  match shared.ConvertLocalTransactionToThrylosTransaction examples.local_transfer with
  | Ok thrylosTx => shared.ConvertThrylosTransactionToLocal thrylosTx
  | Err err => Err err
  end
  = Ok {| shared.tx_ID := shared.tx_ID examples.local_transfer;
          shared.tx_Timestamp := shared.tx_Timestamp examples.local_transfer;
          shared.tx_Inputs :=
            map (fun u => {| shared.ID := ""; shared.TransactionID := shared.TransactionID u;
                             shared.Index := shared.Index u;
                             shared.OwnerAddress := shared.OwnerAddress u;
                             shared.Amount := shared.Amount u; shared.IsSpent := false |})
                (shared.tx_Inputs examples.local_transfer);
          shared.tx_Outputs :=
            map (fun u => {| shared.ID := ""; shared.TransactionID := shared.TransactionID u;
                             shared.Index := shared.Index u;
                             shared.OwnerAddress := shared.OwnerAddress u;
                             shared.Amount := shared.Amount u; shared.IsSpent := false |})
                (shared.tx_Outputs examples.local_transfer);
          shared.tx_EncryptedInputs := [];
          shared.tx_EncryptedOutputs := [];
          shared.tx_Signature := [];
          shared.tx_EncryptedAESKey := [];
          shared.tx_PreviousTxIds := shared.tx_PreviousTxIds examples.local_transfer;
          shared.tx_Sender := "" |}.
Proof.
  apply (ConvertThrylosTransactionToLocal_of_converted examples.local_transfer).
  simpl. repeat (apply List.Forall_cons; [simpl; lia|]). apply List.Forall_nil.
Defined.

(** ** Verifying in parallel *)

Lemma VerifyTransaction_verdict tx utxos getPublicKeyFunc isValid :
  shared_rev.VerifyTransaction tx utxos getPublicKeyFunc = Return (isValid, None) ->
  isValid = true.
Proof.
  unfold shared_rev.VerifyTransaction.
  destruct (length (thrylos.Inputs tx) =? 0)%nat; [discriminate|].
  destruct (getPublicKeyFunc _); [|discriminate].
  destruct (thrylos.Marshal _); [|discriminate].
  destruct (ed25519.Verify _ _ _) as [[|]|]; [|discriminate|discriminate].
  intros [= <-]. reflexivity.
Qed.

Lemma verify_each_no_error completed utxos getPublicKeyFunc :
  forall results errors results',
  shared_rev.verify_each completed utxos getPublicKeyFunc results errors = Return (results', [])
  -> errors = []
     /\ (forall tx, In tx completed ->
           shared_rev.VerifyTransaction tx utxos getPublicKeyFunc = Return (true, None))
     /\ (forall id, results' !! id
                    = if bool_decide (id ∈ map thrylos.Id completed) then Some true
                      else results !! id).
Proof.
  induction completed as [|tx rest IH]; intros results errors results'; simpl.
  - intros [= <- ->]. split; [reflexivity|]. split; [intros tx []|reflexivity].
  - destruct (shared_rev.VerifyTransaction tx utxos getPublicKeyFunc)
      as [[isValid [err|]]|] eqn:Hv; [| |discriminate].
    + intros H. apply IH in H as [H _]. destruct errors; discriminate.
    + pose proof (VerifyTransaction_verdict _ _ _ _ Hv) as ->.
      intros H. apply IH in H as (He & Hall & Hlook).
      split; [exact He|]. split.
      * intros tx' [<-|Hin]; [exact Hv|exact (Hall tx' Hin)].
      * intros id. rewrite Hlook.
        destruct (decide (id ∈ map thrylos.Id rest)) as [Hin|Hnin].
        -- rewrite !bool_decide_eq_true_2; [reflexivity| |exact Hin]. right. exact Hin.
        -- rewrite (bool_decide_eq_false_2 _ Hnin).
           destruct (decide (thrylos.Id tx = id)) as [<-|Hne].
           ++ rewrite lookup_insert_eq, bool_decide_eq_true_2; [reflexivity|left].
           ++ rewrite lookup_insert_ne by exact Hne.
              rewrite bool_decide_eq_false_2; [reflexivity|].
              intros Hin. apply elem_of_cons in Hin as [->|Hin]; [apply Hne; reflexivity|].
              exact (Hnin Hin).
Qed.

Lemma verify_each_all_valid completed utxos getPublicKeyFunc :
  (forall tx, In tx completed ->
     shared_rev.VerifyTransaction tx utxos getPublicKeyFunc = Return (true, None)) ->
  forall results errors, exists results',
    shared_rev.verify_each completed utxos getPublicKeyFunc results errors
    = Return (results', errors).
Proof.
  induction completed as [|tx rest IH]; intros Hall results errors; simpl.
  - exists results. reflexivity.
  - rewrite (Hall tx (or_introl eq_refl)). apply IH. intros tx' Hin. apply Hall. right. exact Hin.
Qed.

(** X17: [ParallelVerifyTransactions] gives no verdict per transaction.
    When it returns a map, every transaction of the batch has been
    accepted by [VerifyTransaction], the map holds [true] under the id of
    each of them and nothing else, and the order in which the goroutines
    finish does not change it; one rejected transaction and no map is
    returned at all. *)
Theorem ParallelVerifyTransactions_all_or_error (completed : list thrylos.Transaction)
        (utxos : gmap string (list thrylos.UTXO))
        (getPublicKeyFunc : string -> result (list byte)) (results : gmap string bool) :
  shared_rev.ParallelVerifyTransactions completed utxos getPublicKeyFunc = Return (Ok results) ->
  (forall tx, In tx completed ->
     shared_rev.VerifyTransaction tx utxos getPublicKeyFunc = Return (true, None))
  /\ (forall id isValid,
        results !! id = Some isValid
        <-> isValid = true /\ exists tx, In tx completed /\ thrylos.Id tx = id)
  /\ (forall completed', completed' ≡ₚ completed ->
        shared_rev.ParallelVerifyTransactions completed' utxos getPublicKeyFunc
        = Return (Ok results)).
Proof.
  unfold shared_rev.ParallelVerifyTransactions.
  destruct (shared_rev.verify_each completed utxos getPublicKeyFunc ∅ [])
    as [[results0 [|err errors]]|] eqn:Hrun; [|discriminate|discriminate].
  intros [= <-]. apply verify_each_no_error in Hrun as (_ & Hall & Hlook).
  split; [exact Hall|]. split.
  - intros id isValid. rewrite Hlook, lookup_empty.
    destruct (decide (id ∈ map thrylos.Id completed)) as [Hin|Hnin].
    + rewrite (bool_decide_eq_true_2 _ Hin). apply list_elem_of_In, in_map_iff in Hin.
      destruct Hin as (tx & Hid & Hin). split.
      * intros [= <-]. split; [reflexivity|]. exists tx. split; [exact Hin|exact Hid].
      * intros [-> _]. reflexivity.
    + rewrite (bool_decide_eq_false_2 _ Hnin). split; [discriminate|].
      intros (_ & tx & Hin & Hid). exfalso. apply Hnin.
      apply list_elem_of_In, in_map_iff. exists tx. split; [exact Hid|exact Hin].
  - intros completed' Hperm.
    assert (Hall' : forall tx, In tx completed' ->
              shared_rev.VerifyTransaction tx utxos getPublicKeyFunc = Return (true, None)).
    { intros tx Hin. apply Hall. apply list_elem_of_In. rewrite <- Hperm.
      apply list_elem_of_In. exact Hin. }
    destruct (verify_each_all_valid completed' utxos getPublicKeyFunc Hall' ∅ [])
      as (results' & Hrun').
    rewrite Hrun'. do 2 f_equal.
    apply verify_each_no_error in Hrun' as (_ & _ & Hlook').
    apply map_eq. intros id. rewrite Hlook, Hlook'.
    apply (f_equal (fun b : bool => if b then Some true else (∅ : gmap string bool) !! id)).
    apply bool_decide_ext. rewrite Hperm. reflexivity.
Qed.

Lemma ParallelVerifyTransactions_all_or_error_witness :
  (forall tx, In tx [examples.unbacked] ->
     shared_rev.VerifyTransaction tx ∅ examples.lookup_key = Return (true, None))
  /\ (forall id isValid,
        ({[ "tx2" := true ]} : gmap string bool) !! id = Some isValid
        <-> isValid = true /\ exists tx, In tx [examples.unbacked] /\ thrylos.Id tx = id)
  /\ (forall completed', completed' ≡ₚ [examples.unbacked] ->
        shared_rev.ParallelVerifyTransactions completed' ∅ examples.lookup_key
        = Return (Ok {[ "tx2" := true ]})).
Proof.
  apply (ParallelVerifyTransactions_all_or_error [examples.unbacked] ∅ examples.lookup_key).
  vm_compute. reflexivity.
Defined.

(** ** Iterating over a key prefix *)

Lemma ltb_false_le k p : String.ltb k p = false <-> String.le p k.
Proof.
  unfold String.le, String.ltb, String.leb. rewrite (String.compare_antisym p k).
  destruct (String.compare k p); simpl; split; intros H; try reflexivity;
    try discriminate; try exact I; destruct H.
Qed.

(** A key that has the prefix is not below it. *)
Lemma prefix_not_below p : forall k, String.prefix p k = true -> String.ltb k p = false.
Proof.
  induction p as [|a p IH]; intros k Hp.
  - unfold String.ltb. destruct k; reflexivity.
  - destruct k as [|b k]; [discriminate|]. simpl in Hp.
    destruct (ascii_dec a b) as [<-|]; [|discriminate].
    specialize (IH k Hp). unfold String.ltb in *. simpl.
    unfold Ascii.compare. rewrite N.compare_refl. exact IH.
Qed.

(** The keys with a prefix are an interval that starts at the prefix. *)
Lemma prefix_convex p : forall k k',
  String.ltb k p = false -> String.le k k' -> String.prefix p k' = true ->
  String.prefix p k = true.
Proof.
  induction p as [|a p IH]; intros k k' Hlow Hle Hp.
  - destruct k; reflexivity.
  - destruct k' as [|b k']; [discriminate|]. simpl in Hp.
    destruct (ascii_dec a b) as [<-|]; [|discriminate].
    destruct k as [|c k]; [discriminate|].
    unfold String.ltb, String.le, String.leb in *. simpl in Hlow, Hle.
    destruct (Ascii.compare c a) eqn:Hc; simpl in Hlow, Hle.
    + apply Ascii.compare_eq_iff in Hc as ->. simpl.
      destruct (ascii_dec a a) as [_|Hne]; [|destruct Hne; reflexivity].
      apply (IH k k'); [exact Hlow|exact Hle|exact Hp].
    + discriminate.
    + destruct Hle.
Qed.

Lemma ValidForPrefix_above p items :
  StronglySorted badger.key_le items ->
  Forall (fun kv : string * list byte => String.ltb kv.1 p = false) items ->
  badger.ValidForPrefix p items
  = List.filter (fun kv : string * list byte => HasPrefix kv.1 p) items.
Proof.
  induction items as [|[k v] items IH]; intros Hs Hlow; [reflexivity|].
  apply StronglySorted_cons in Hs as [Hall Hs].
  apply Forall_cons in Hlow as [Hk Hlow]. simpl in Hk.
  cbn [badger.ValidForPrefix List.filter fst].
  destruct (HasPrefix k p) eqn:Hp.
  - rewrite (IH Hs Hlow). reflexivity.
  - symmetry. apply filter_none. rewrite Forall_forall in Hall |- *.
    intros [k' v'] Hin. specialize (Hall _ Hin). unfold badger.key_le in Hall. simpl in *.
    destruct (HasPrefix k' p) eqn:Hp'; [|reflexivity].
    unfold HasPrefix in *. rewrite (prefix_convex p k k' Hk Hall Hp') in Hp. discriminate.
Qed.

(** [Seek] followed by [ValidForPrefix] visits exactly the items whose key
    has the prefix, in the order of the keys. *)
Lemma ValidForPrefix_Seek p items :
  StronglySorted badger.key_le items ->
  badger.ValidForPrefix p (badger.Seek p items)
  = List.filter (fun kv : string * list byte => HasPrefix kv.1 p) items.
Proof.
  induction items as [|[k v] items IH]; intros Hs; [reflexivity|].
  cbn [badger.Seek]. destruct (String.ltb k p) eqn:Hk.
  - cbn [List.filter fst].
    destruct (HasPrefix k p) eqn:Hp.
    + unfold HasPrefix in Hp. rewrite (prefix_not_below p k Hp) in Hk. discriminate.
    + apply IH. apply StronglySorted_cons in Hs as [_ Hs]. exact Hs.
  - apply ValidForPrefix_above; [exact Hs|].
    apply StronglySorted_cons in Hs as [Hall _].
    constructor; [exact Hk|].
    rewrite Forall_forall in Hall |- *. intros [k' v'] Hin. specialize (Hall _ Hin).
    unfold badger.key_le in Hall. simpl in *.
    apply ltb_false_le. apply ltb_false_le in Hk. etransitivity; eassumption.
Qed.

Lemma ascending_sorted (db : gmap string (list byte)) :
  StronglySorted badger.key_le (badger.ascending db).
Proof.
  apply (@StronglySorted_merge_sort _ badger.key_le _ key_le_transitive key_le_total).
Qed.

(** ** Writing and reading unspent outputs *)

Lemma mark_inputs_frame json_Marshal_UTXO inputs : forall db db' k,
  database.mark_inputs json_Marshal_UTXO db inputs = Ok db' ->
  (forall u, In u inputs -> database.utxo_key u <> k) ->
  db' !! k = db !! k.
Proof.
  induction inputs as [|u inputs IH]; intros db db' k; simpl.
  - intros [= <-] _. reflexivity.
  - unfold database.MarkUTXOAsSpent. cbv zeta.
    destruct (json_Marshal_UTXO _) as [data|]; [|discriminate].
    intros Hrun Hk. rewrite (IH _ _ k Hrun) by (intros u' Hin; apply Hk; right; exact Hin).
    unfold badger.Set_. apply lookup_insert_ne. apply Hk. left. reflexivity.
Qed.

Lemma add_outputs_frame json_Marshal_UTXO outputs : forall db db' k,
  database.add_outputs json_Marshal_UTXO db outputs = Ok db' ->
  (forall u, In u outputs -> database.utxo_key u <> k) ->
  db' !! k = db !! k.
Proof.
  induction outputs as [|u outputs IH]; intros db db' k; simpl.
  - intros [= <-] _. reflexivity.
  - unfold database.addNewUTXO. cbv zeta.
    destruct (json_Marshal_UTXO _) as [data|]; [|discriminate].
    intros Hrun Hk. rewrite (IH _ _ k Hrun) by (intros u' Hin; apply Hk; right; exact Hin).
    unfold badger.Set_. apply lookup_insert_ne. apply Hk. left. reflexivity.
Qed.

(** What the loops leave under a key does not depend on the store they
    start from, unless they leave the key alone. *)
Lemma mark_inputs_written json_Marshal_UTXO inputs k :
  exists o : option (list byte), forall db db',
    database.mark_inputs json_Marshal_UTXO db inputs = Ok db' ->
    db' !! k = match o with Some v => Some v | None => db !! k end.
Proof.
  induction inputs as [|u inputs [o IH]]; simpl.
  - exists None. intros db db' [= <-]. reflexivity.
  - unfold database.MarkUTXOAsSpent. cbv zeta.
    destruct (json_Marshal_UTXO _) as [data|]; [|exists None; discriminate].
    destruct o as [v|].
    + exists (Some v). intros db db' Hrun. exact (IH _ _ Hrun).
    + destruct (decide (database.utxo_key u = k)) as [<-|Hne].
      * exists (Some data). intros db db' Hrun. rewrite (IH _ _ Hrun).
        apply lookup_insert_eq.
      * exists None. intros db db' Hrun. rewrite (IH _ _ Hrun).
        apply lookup_insert_ne. exact Hne.
Qed.

Lemma add_outputs_written json_Marshal_UTXO outputs k :
  exists o : option (list byte), forall db db',
    database.add_outputs json_Marshal_UTXO db outputs = Ok db' ->
    db' !! k = match o with Some v => Some v | None => db !! k end.
Proof.
  induction outputs as [|u outputs [o IH]]; simpl.
  - exists None. intros db db' [= <-]. reflexivity.
  - unfold database.addNewUTXO. cbv zeta.
    destruct (json_Marshal_UTXO _) as [data|]; [|exists None; discriminate].
    destruct o as [v|].
    + exists (Some v). intros db db' Hrun. exact (IH _ _ Hrun).
    + destruct (decide (database.utxo_key u = k)) as [<-|Hne].
      * exists (Some data). intros db db' Hrun. rewrite (IH _ _ Hrun).
        apply lookup_insert_eq.
      * exists None. intros db db' Hrun. rewrite (IH _ _ Hrun).
        apply lookup_insert_ne. exact Hne.
Qed.

Lemma mark_inputs_succeeds json_Marshal_UTXO inputs :
  (forall u, In u inputs ->
     exists data, json_Marshal_UTXO (database.with_IsSpent u true) = Ok data) ->
  forall db, exists db', database.mark_inputs json_Marshal_UTXO db inputs = Ok db'.
Proof.
  induction inputs as [|u inputs IH]; intros Hall db; simpl.
  - exists db. reflexivity.
  - unfold database.MarkUTXOAsSpent. cbv zeta.
    destruct (Hall u (or_introl eq_refl)) as [data ->].
    apply IH. intros u' Hin. apply Hall. right. exact Hin.
Qed.

Lemma add_outputs_succeeds json_Marshal_UTXO outputs :
  (forall u, In u outputs -> exists data, json_Marshal_UTXO u = Ok data) ->
  forall db, exists db', database.add_outputs json_Marshal_UTXO db outputs = Ok db'.
Proof.
  induction outputs as [|u outputs IH]; intros Hall db; simpl.
  - exists db. reflexivity.
  - unfold database.addNewUTXO. cbv zeta.
    destruct (Hall u (or_introl eq_refl)) as [data ->].
    apply IH. intros u' Hin. apply Hall. right. exact Hin.
Qed.

Lemma mark_inputs_stored json_Marshal_UTXO inputs : forall db db' u,
  database.mark_inputs json_Marshal_UTXO db inputs = Ok db' ->
  In u inputs -> is_Some (db' !! database.utxo_key u).
Proof.
  induction inputs as [|u0 inputs IH]; intros db db' u; simpl; [intros _ []|].
  unfold database.MarkUTXOAsSpent. cbv zeta.
  destruct (json_Marshal_UTXO _) as [data|]; [|discriminate].
  intros Hrun [->|Hin]; [|exact (IH _ _ u Hrun Hin)].
  destruct (mark_inputs_written json_Marshal_UTXO inputs (database.utxo_key u)) as [o Ho].
  rewrite (Ho _ _ Hrun). destruct o; [eexists; reflexivity|].
  unfold badger.Set_. rewrite lookup_insert_eq. eexists. reflexivity.
Qed.

Lemma add_outputs_stored json_Marshal_UTXO outputs : forall db db' u,
  database.add_outputs json_Marshal_UTXO db outputs = Ok db' ->
  In u outputs -> is_Some (db' !! database.utxo_key u).
Proof.
  induction outputs as [|u0 outputs IH]; intros db db' u; simpl; [intros _ []|].
  unfold database.addNewUTXO. cbv zeta.
  destruct (json_Marshal_UTXO _) as [data|]; [|discriminate].
  intros Hrun [->|Hin]; [|exact (IH _ _ u Hrun Hin)].
  destruct (add_outputs_written json_Marshal_UTXO outputs (database.utxo_key u)) as [o Ho].
  rewrite (Ho _ _ Hrun). destruct o; [eexists; reflexivity|].
  unfold badger.Set_. rewrite lookup_insert_eq. eexists. reflexivity.
Qed.

(** X18: [UpdateUTXOs] does not look at the store before it writes.  When
    the outputs can be marshalled it succeeds whatever the store holds,
    also for inputs that were never stored or are already marked spent;
    afterwards every listed input and output has an entry, and the same
    call a second time succeeds again and leaves the store as it is. *)
Theorem UpdateUTXOs_accepts_respending (json_Marshal_UTXO : shared.UTXO -> result (list byte))
        (db : gmap string (list byte)) (inputs outputs : list shared.UTXO) :
  (forall u, In u inputs ->
     exists data, json_Marshal_UTXO (database.with_IsSpent u true) = Ok data) ->
  (forall u, In u outputs -> exists data, json_Marshal_UTXO u = Ok data) ->
  exists db',
    database.UpdateUTXOs json_Marshal_UTXO db inputs outputs = (db', None)
    /\ database.UpdateUTXOs json_Marshal_UTXO db' inputs outputs = (db', None)
    /\ forall u, In u (inputs ++ outputs) -> is_Some (db' !! database.utxo_key u).
Proof.
  intros Hin Hout. unfold database.UpdateUTXOs.
  destruct (mark_inputs_succeeds _ _ Hin db) as [db1 H1].
  destruct (add_outputs_succeeds _ _ Hout db1) as [db2 H2].
  destruct (mark_inputs_succeeds _ _ Hin db2) as [db3 H3].
  destruct (add_outputs_succeeds _ _ Hout db3) as [db4 H4].
  exists db2. rewrite H1, H2, H3, H4.
  split; [reflexivity|]. split.
  - f_equal. apply map_eq. intros k.
    destruct (mark_inputs_written json_Marshal_UTXO inputs k) as [oi Hoi].
    destruct (add_outputs_written json_Marshal_UTXO outputs k) as [oo Hoo].
    rewrite (Hoo _ _ H4), (Hoi _ _ H3), (Hoo _ _ H2), (Hoi _ _ H1).
    destruct oo, oi; reflexivity.
  - intros u Hu. apply in_app_or in Hu as [Hu|Hu].
    + destruct (add_outputs_written json_Marshal_UTXO outputs (database.utxo_key u))
        as [oo Hoo].
      rewrite (Hoo _ _ H2). destruct oo; [eexists; reflexivity|].
      exact (mark_inputs_stored _ _ _ _ _ H1 Hu).
    + exact (add_outputs_stored _ _ _ _ _ H2 Hu).
Qed.

Lemma UpdateUTXOs_accepts_respending_witness :
  exists db',
    database.UpdateUTXOs examples.marshal_owner ∅ [examples.spent_utxo] [examples.alice_output]
    = (db', None)
    /\ database.UpdateUTXOs examples.marshal_owner db' [examples.spent_utxo]
                            [examples.alice_output] = (db', None)
    /\ forall u, In u ([examples.spent_utxo] ++ [examples.alice_output]) ->
                 is_Some (db' !! database.utxo_key u).
Proof.
  apply UpdateUTXOs_accepts_respending.
  - intros u _. eexists. reflexivity.
  - intros u _. eexists. reflexivity.
Defined.

Lemma filter_sorted {A} (R : relation A) (f : A -> bool) l :
  StronglySorted R l -> StronglySorted R (List.filter f l).
Proof.
  induction 1 as [|x l Hl IH Hx]; simpl; [constructor|].
  destruct (f x); [|exact IH]. constructor; [exact IH|].
  rewrite Forall_forall in Hx |- *. intros y Hy.
  apply list_elem_of_In, filter_In in Hy as [Hy _]. apply Hx, list_elem_of_In, Hy.
Qed.

Lemma elem_of_prefix_items (db : gmap string (list byte)) p k v :
  (k, v) ∈ List.filter (fun kv : string * list byte => HasPrefix kv.1 p) (badger.ascending db)
  <-> db !! k = Some v /\ HasPrefix k p = true.
Proof.
  rewrite list_elem_of_In, filter_In, <- list_elem_of_In. unfold badger.ascending.
  rewrite merge_sort_Permutation, elem_of_map_to_list. reflexivity.
Qed.

(** Two stores that agree on the keys with a prefix are iterated alike. *)
Lemma prefix_items_agree (db db' : gmap string (list byte)) p :
  (forall k, HasPrefix k p = true -> db' !! k = db !! k) ->
  List.filter (fun kv : string * list byte => HasPrefix kv.1 p) (badger.ascending db')
  = List.filter (fun kv : string * list byte => HasPrefix kv.1 p) (badger.ascending db).
Proof.
  intros Hagree.
  apply (StronglySorted_unique_strong badger.key_le).
  - intros [k1 v1] [k2 v2] H1 H2 H12 H21.
    apply elem_of_prefix_items in H1 as [H1 Hp1]. apply elem_of_prefix_items in H2 as [H2 _].
    unfold badger.key_le in *. simpl in *.
    assert (k1 = k2) as -> by (apply (anti_symm String.le); assumption).
    rewrite (Hagree k2 Hp1) in H1. congruence.
  - apply filter_sorted, ascending_sorted.
  - apply filter_sorted, ascending_sorted.
  - apply NoDup_Permutation.
    + apply NoDup_ListNoDup, List.NoDup_filter, NoDup_ListNoDup.
      unfold badger.ascending. rewrite merge_sort_Permutation. apply NoDup_map_to_list.
    + apply NoDup_ListNoDup, List.NoDup_filter, NoDup_ListNoDup.
      unfold badger.ascending. rewrite merge_sort_Permutation. apply NoDup_map_to_list.
    + intros [k v]. rewrite !elem_of_prefix_items. split; intros [H Hp]; (split; [|exact Hp]).
      * rewrite <- (Hagree k Hp). exact H.
      * rewrite (Hagree k Hp). exact H.
Qed.

(** X19: [UpdateUTXOs] files every output under its transaction id and
    index, [GetUTXOsForAddress] reads by address.  A successful update
    changes what is returned for an address only through outputs whose key
    begins with the address and a dash; who owns the outputs plays no
    part, so the outputs written for an owner are not found under the
    owner's address unless the transaction id begins with it. *)
Theorem GetUTXOsForAddress_after_UpdateUTXOs
        (json_Unmarshal_UTXO : list byte -> result shared.UTXO)
        (json_Marshal_UTXO : shared.UTXO -> result (list byte))
        (db db' : gmap string (list byte)) (inputs outputs : list shared.UTXO)
        (address : string) :
  database.UpdateUTXOs json_Marshal_UTXO db inputs outputs = (db', None) ->
  (forall u, In u (inputs ++ outputs) ->
     HasPrefix (database.utxo_key u) ("utxo-" +:+ address +:+ "-") = false) ->
  database.GetUTXOsForAddress json_Unmarshal_UTXO db' address
  = database.GetUTXOsForAddress json_Unmarshal_UTXO db address.
Proof.
  intros Hrun Hkeys. unfold database.GetUTXOsForAddress. cbv zeta.
  rewrite !ValidForPrefix_Seek by apply ascending_sorted.
  rewrite (prefix_items_agree db db'); [reflexivity|].
  intros k Hp. unfold database.UpdateUTXOs in Hrun.
  destruct (database.mark_inputs json_Marshal_UTXO db inputs) as [db1|] eqn:H1;
    [|discriminate].
  destruct (database.add_outputs json_Marshal_UTXO db1 outputs) as [db2|] eqn:H2;
    [|discriminate].
  injection Hrun as <-.
  rewrite (add_outputs_frame _ _ _ _ k H2), (mark_inputs_frame _ _ _ _ k H1); [reflexivity| |].
  - intros u Hu Hk. subst k. rewrite (Hkeys u) in Hp; [discriminate|].
    apply in_or_app. left. exact Hu.
  - intros u Hu Hk. subst k. rewrite (Hkeys u) in Hp; [discriminate|].
    apply in_or_app. right. exact Hu.
Qed.

Lemma GetUTXOsForAddress_after_UpdateUTXOs_witness :
  database.GetUTXOsForAddress examples.unmarshal_owner
    {[ "utxo-tx9-0" := bytes_of_string "alice,0" ]} "alice"
  = database.GetUTXOsForAddress examples.unmarshal_owner ∅ "alice".
Proof.
  apply (GetUTXOsForAddress_after_UpdateUTXOs examples.unmarshal_owner examples.marshal_owner
           ∅ _ [] [examples.alice_output] "alice").
  - vm_compute. reflexivity.
  - intros u [<-|[]]. vm_compute. reflexivity.
Defined.

Lemma prefix_append p rest : String.prefix p (p +:+ rest) = true.
Proof.
  induction p as [|a p IH]; simpl; [destruct rest; reflexivity|].
  destruct (ascii_dec a a) as [_|Hne]; [exact IH|destruct Hne; reflexivity].
Qed.

Lemma collect_all_decoded json_Unmarshal_UTXO keep items :
  Forall (fun kv : string * list byte => exists u, json_Unmarshal_UTXO kv.2 = Ok u) items ->
  forall acc,
    (database.collect json_Unmarshal_UTXO keep items acc).2 = None
    /\ (forall u, u ∈ acc -> u ∈ (database.collect json_Unmarshal_UTXO keep items acc).1)
    /\ (forall k val u, (k, val) ∈ items -> json_Unmarshal_UTXO val = Ok u -> keep u = true ->
          u ∈ (database.collect json_Unmarshal_UTXO keep items acc).1).
Proof.
  induction 1 as [|[k0 val0] items [u0 Hu0] _ IH]; intros acc; simpl.
  - split; [reflexivity|]. split; [intros u Hu; exact Hu|].
    intros k val u Hin. apply elem_of_nil in Hin. destruct Hin.
  - simpl in Hu0. rewrite Hu0.
    destruct (IH (if keep u0 then acc ++ [u0] else acc)) as (Herr & Hacc & Hitems).
    split; [exact Herr|]. split.
    + intros u Hu. apply Hacc. destruct (keep u0); [|exact Hu].
      apply elem_of_app. left. exact Hu.
    + intros k val u Hin Hdec Hkeep. apply elem_of_cons in Hin as [[= -> ->]|Hin].
      * apply Hacc. rewrite Hu0 in Hdec. injection Hdec as ->. rewrite Hkeep.
        apply elem_of_app. right. left.
      * exact (Hitems k val u Hin Hdec Hkeep).
Qed.

(** X20: [GetUTXOs] seeks the prefix [utxo-] followed by the address, with
    no dash after it.  Every unspent output stored under a key that begins
    so is returned for the address, whatever follows in the key: the
    outputs filed for any longer name that begins with the address are
    among them. *)
Theorem GetUTXOs_of_longer_names (json_Unmarshal_UTXO : list byte -> result shared.UTXO)
        (db : gmap string (list byte)) (address rest : string) (val : list byte)
        (utxo : shared.UTXO) :
  (forall k v, db !! k = Some v -> HasPrefix k ("utxo-" +:+ address) = true ->
     exists u, json_Unmarshal_UTXO v = Ok u) ->
  db !! ("utxo-" +:+ address +:+ rest) = Some val ->
  json_Unmarshal_UTXO val = Ok utxo ->
  shared.IsSpent utxo = false ->
  (database.GetUTXOs json_Unmarshal_UTXO db address).2 = None
  /\ exists found, (database.GetUTXOs json_Unmarshal_UTXO db address).1 !! address = Some found
                   /\ utxo ∈ found.
Proof.
  intros Hdec Hval Hu Hunspent. unfold database.GetUTXOs. cbv zeta.
  rewrite ValidForPrefix_Seek by apply ascending_sorted.
  set (items := List.filter _ _).
  assert (Hall : Forall (fun kv : string * list byte =>
                           exists u, json_Unmarshal_UTXO kv.2 = Ok u) items).
  { apply Forall_forall. intros [k v] Hin. apply elem_of_prefix_items in Hin as [Hk Hp].
    exact (Hdec k v Hk Hp). }
  destruct (collect_all_decoded json_Unmarshal_UTXO (fun utxo => negb (shared.IsSpent utxo))
              items Hall []) as (Herr & _ & Hitems).
  assert (Hin : ("utxo-" +:+ address +:+ rest, val) ∈ items).
  { apply elem_of_prefix_items. split; [exact Hval|].
    unfold HasPrefix. change ("utxo-" +:+ address +:+ rest) with ("utxo-" +:+ (address +:+ rest)). apply (prefix_append ("utxo-" +:+ address) rest). }
  specialize (Hitems _ _ utxo Hin Hu ltac:(rewrite Hunspent; reflexivity)).
  destruct (database.collect _ _ items []) as [found err]. simpl in *.
  split; [exact Herr|].
  destruct found as [|u0 found]; [apply elem_of_nil in Hitems; destruct Hitems|].
  exists (u0 :: found). split; [apply lookup_singleton_eq|exact Hitems].
Qed.

Lemma GetUTXOs_of_longer_names_witness :
  (database.GetUTXOs examples.unmarshal_owner
     {[ "utxo-alice2-tx1-0" := bytes_of_string "alice2,0" ]} "alice").2 = None
  /\ exists found,
       (database.GetUTXOs examples.unmarshal_owner
          {[ "utxo-alice2-tx1-0" := bytes_of_string "alice2,0" ]} "alice").1 !! "alice"
       = Some found
       /\ {| shared.ID := ""; shared.TransactionID := ""; shared.Index := 0;
             shared.OwnerAddress := "alice2"; shared.Amount := 0; shared.IsSpent := false |}
          ∈ found.
Proof.
  apply (GetUTXOs_of_longer_names examples.unmarshal_owner
           {[ "utxo-alice2-tx1-0" := bytes_of_string "alice2,0" ]} "alice" "2-tx1-0"
           (bytes_of_string "alice2,0")).
  - intros k v Hk _. apply lookup_singleton_Some in Hk as [_ <-].
    eexists. vm_compute. reflexivity.
  - vm_compute. reflexivity.
  - vm_compute. reflexivity.
  - reflexivity.
Defined.

(** ** Addresses and their caches *)

Lemma hex_value_hex_digit n : 0 <= n < 16 -> hex_value (hex_digit n) = n.
Proof.
  intros Hn. replace n with (Z.of_nat (Z.to_nat n)) by lia.
  assert (H : (Z.to_nat n < 16)%nat) by lia. revert H. generalize (Z.to_nat n) as k.
  intros k H. do 16 (destruct k as [|k]; [reflexivity|]). lia.
Qed.

(** [hex.DecodeString] reads back what [hex.EncodeToString] writes. *)
Lemma DecodeString_EncodeToString b : DecodeString (EncodeToString b) = b.
Proof.
  induction b as [|x b IH]; [reflexivity|].
  pose proof (byte_to_Z_range x) as Hx.
  cbn [EncodeToString DecodeString]. rewrite IH.
  rewrite !hex_value_hex_digit
    by (try apply Z.mod_pos_bound; try (split; [apply Z.div_pos|apply Z.div_lt_upper_bound]); lia).
  rewrite <- Z.div_mod by lia. rewrite byte_of_to_Z. reflexivity.
Qed.

Lemma EncodeToString_inj a b : EncodeToString a = EncodeToString b -> a = b.
Proof.
  intros H. apply (f_equal DecodeString) in H. rewrite !DecodeString_EncodeToString in H.
  exact H.
Qed.

(** X21: the address that [computeAddressFromPublicKey] of transaction.go
    derives from a key that is not empty has more than 64 hexadecimal
    digits (128 for an Ed25519 key), so [SanitizeAndFormatAddress] rejects
    every such address as badly formatted. *)
Theorem SanitizeAndFormatAddress_rejects_computed (pubKey : list byte) :
  (0 < length pubKey)%nat ->
  String.length (shared.computeAddressFromPublicKey pubKey) = (2 * length pubKey + 64)%nat
  /\ shared.SanitizeAndFormatAddress (shared.computeAddressFromPublicKey pubKey)
     = Err ("invalid address format: " +:+ shared.computeAddressFromPublicKey pubKey).
Proof.
  intros Hlen. unfold shared.computeAddressFromPublicKey. cbv zeta.
  destruct (EncodeToString_lower_hex (blake2b.Sum blake2b.New256 pubKey)) as [Hhex Hl].
  unfold blake2b.Sum in *. rewrite length_app, Sum256_length in Hl.
  split; [rewrite Hl; lia|].
  unfold shared.SanitizeAndFormatAddress. cbv zeta.
  rewrite (TrimSpace_hex _ Hhex), (ToLower_hex _ Hhex).
  unfold shared.addressRegex_MatchString. rewrite Hl.
  replace (2 * (length pubKey + 32) <=? 64)%nat with false
    by (symmetry; apply Nat.leb_gt; lia).
  rewrite andb_false_r. reflexivity.
Qed.

Lemma SanitizeAndFormatAddress_rejects_computed_witness :
  String.length (shared.computeAddressFromPublicKey examples.public_key)
  = (2 * length examples.public_key + 64)%nat
  /\ shared.SanitizeAndFormatAddress (shared.computeAddressFromPublicKey examples.public_key)
     = Err ("invalid address format: "
            +:+ shared.computeAddressFromPublicKey examples.public_key).
Proof.
  apply SanitizeAndFormatAddress_rejects_computed. vm_compute. lia.
Defined.

(** X22: [PublicKeyToAddress] of part_002 computes a SHA-256 digest and
    feeds it to a BLAKE2b hasher, and uses neither: the address is the
    hexadecimal BLAKE2b-256 digest of the key itself, whatever SHA-256
    returns.  It has 64 lowercase digits, and [SanitizeAndFormatAddress]
    returns it unchanged. *)
Theorem PublicKeyToAddress_is_digest_of_key (sha256_Sum : list byte -> list byte)
        (pubKey : list byte) :
  shared_rev.PublicKeyToAddress sha256_Sum pubKey = EncodeToString (blake2b.Sum256 pubKey)
  /\ String.length (shared_rev.PublicKeyToAddress sha256_Sum pubKey) = 64%nat
  /\ shared.SanitizeAndFormatAddress (shared_rev.PublicKeyToAddress sha256_Sum pubKey)
     = Ok (shared_rev.PublicKeyToAddress sha256_Sum pubKey).
Proof.
  unfold shared_rev.PublicKeyToAddress, shared_rev.cachedHashData, blake2b.Sum,
    blake2b.Write, blake2b.Reset, blake2b.New256. cbv zeta. simpl.
  destruct (EncodeToString_lower_hex (blake2b.Sum256 pubKey)) as [Hhex Hl].
  rewrite Sum256_length in Hl.
  split; [reflexivity|]. split; [exact Hl|].
  unfold shared.SanitizeAndFormatAddress. cbv zeta.
  rewrite (TrimSpace_hex _ Hhex), (ToLower_hex _ Hhex).
  rewrite addressRegex_hex by (try exact Hhex; lia). reflexivity.
Qed.

(** X23: both caches are transparent.  As long as the cache holds only
    what these functions stored (every entry of [hashCache] sits under the
    hexadecimal form of its own value, every entry of [addressCache] under
    the key whose address it is), [cachedHashData] returns the BLAKE2b-256
    digest of the data and [PublicKeyToAddressWithCache] the address that
    [computeAddressFromPublicKey] derives, on a hit as on a miss, and the
    cache they leave behind holds only such entries again. *)
Theorem caches_are_transparent (hashCache : gmap string (list byte))
        (addressCache : gmap string string) (data pubKey : list byte) :
  (forall key val, hashCache !! key = Some val -> key = EncodeToString val) ->
  (forall key address, addressCache !! key = Some address ->
     address = shared.computeAddressFromPublicKey (DecodeString key)) ->
  ((shared_rev.cachedHashData_cache hashCache data).1 = blake2b.Sum256 data
   /\ forall key val, (shared_rev.cachedHashData_cache hashCache data).2 !! key = Some val ->
                      key = EncodeToString val)
  /\ ((shared.PublicKeyToAddressWithCache addressCache pubKey).1
      = shared.computeAddressFromPublicKey pubKey
      /\ forall key address,
           (shared.PublicKeyToAddressWithCache addressCache pubKey).2 !! key = Some address ->
           address = shared.computeAddressFromPublicKey (DecodeString key)).
Proof.
  intros Hhash Haddr. split.
  - unfold shared_rev.cachedHashData_cache. cbv zeta.
    destruct (hashCache !! EncodeToString (blake2b.Sum256 data)) as [val|] eqn:Hhit; simpl.
    + split; [|exact Hhash]. apply Hhash in Hhit. apply EncodeToString_inj in Hhit.
      symmetry. exact Hhit.
    + split; [reflexivity|]. intros key val Hk.
      destruct (decide (EncodeToString (blake2b.Sum256 data) = key)) as [<-|Hne].
      * rewrite lookup_insert_eq in Hk. injection Hk as <-. reflexivity.
      * rewrite lookup_insert_ne in Hk by exact Hne. exact (Hhash _ _ Hk).
  - unfold shared.PublicKeyToAddressWithCache. cbv zeta.
    destruct (addressCache !! EncodeToString pubKey) as [address|] eqn:Hhit; simpl.
    + split; [|exact Haddr]. apply Haddr in Hhit.
      rewrite DecodeString_EncodeToString in Hhit. exact Hhit.
    + split; [reflexivity|]. intros key address Hk.
      destruct (decide (EncodeToString pubKey = key)) as [<-|Hne].
      * rewrite lookup_insert_eq in Hk. injection Hk as <-.
        rewrite DecodeString_EncodeToString. reflexivity.
      * rewrite lookup_insert_ne in Hk by exact Hne. exact (Haddr _ _ Hk).
Qed.

Lemma caches_are_transparent_witness :
  let hashCache := (shared_rev.cachedHashData_cache ∅ (bytes_of_string "abc")).2 in
  let addressCache := (shared.PublicKeyToAddressWithCache ∅ examples.public_key).2 in
  ((shared_rev.cachedHashData_cache hashCache (bytes_of_string "abc")).1
   = blake2b.Sum256 (bytes_of_string "abc")
   /\ forall key val,
        (shared_rev.cachedHashData_cache hashCache (bytes_of_string "abc")).2 !! key = Some val ->
        key = EncodeToString val)
  /\ ((shared.PublicKeyToAddressWithCache addressCache examples.public_key).1
      = shared.computeAddressFromPublicKey examples.public_key
      /\ forall key address,
           (shared.PublicKeyToAddressWithCache addressCache examples.public_key).2 !! key
           = Some address ->
           address = shared.computeAddressFromPublicKey (DecodeString key)).
Proof.
  intros hashCache addressCache.
  destruct (caches_are_transparent ∅ ∅ (bytes_of_string "abc") examples.public_key)
    as [[_ Hhash] [_ Haddr]].
  - intros key val H. rewrite lookup_empty in H. discriminate.
  - intros key address H. rewrite lookup_empty in H. discriminate.
  - exact (caches_are_transparent hashCache addressCache (bytes_of_string "abc")
             examples.public_key Hhash Haddr).
Defined.

(** ** Signing in batches *)

Lemma Sign_valid_key privateKey message :
  length privateKey = 64%nat -> exists sig, ed25519.Sign privateKey message = Return sig.
Proof.
  intros Hlen. unfold ed25519.Sign. rewrite Hlen.
  change (64 =? ed25519.PrivateKeySize)%nat with true. cbn [negb].
  eexists. reflexivity.
Qed.

Lemma sign_one_valid_key edPrivateKey tx :
  length edPrivateKey = 64%nat ->
  (shared.unsignable tx = true /\ shared.signed edPrivateKey tx = tx
   /\ exists err, shared.sign_one edPrivateKey tx = Return (tx, Some err))
  \/ (shared.unsignable tx = false
      /\ shared.sign_one edPrivateKey tx = Return (shared.signed edPrivateKey tx, None)).
Proof.
  intros Hlen. unfold shared.unsignable, shared.signed, shared.sign_one. cbv zeta.
  destruct (thrylos.Marshal (shared.ConvertToProtoTransaction tx)) as [txBytes|err].
  - right. destruct (Sign_valid_key edPrivateKey txBytes Hlen) as [sig ->].
    split; reflexivity.
  - left. split; [reflexivity|]. split; [reflexivity|]. exists err. reflexivity.
Qed.

Lemma sum_map_insert {A} (f : A -> nat) (l : list A) : forall j x y,
  l !! j = Some x -> (sum_list (map f (<[j := y]> l)) + f x = sum_list (map f l) + f y)%nat.
Proof.
  induction l as [|a l IH]; intros j x y Hj; [discriminate|].
  destruct j as [|j]; simpl in *.
  - injection Hj as ->. lia.
  - specialize (IH j x y Hj). lia.
Qed.

Lemma map_insert_same {A B} (f : A -> B) (l : list A) : forall j x y,
  l !! j = Some x -> f y = f x -> map f (<[j := y]> l) = map f l.
Proof.
  induction l as [|a l IH]; intros j x y Hj Hf; [discriminate|].
  destruct j as [|j]; simpl in *.
  - injection Hj as ->. rewrite Hf. reflexivity.
  - rewrite (IH j x y Hj Hf). reflexivity.
Qed.

(** The elements the goroutines have dealt with, and all the elements of
    their batches. *)
Lemma handled_insert (workers : list shared.worker) : forall j w rest x y,
  workers !! j = Some w ->
  In x (concat (map fst (<[j := (w.1 ++ [y], rest)]> workers)))
  <-> In x (concat (map fst workers)) \/ x = y.
Proof.
  induction workers as [|w0 workers IH]; intros j w rest x y Hj; [discriminate|].
  destruct j as [|j]; simpl in *.
  - injection Hj as ->. rewrite !in_app_iff. simpl. intuition congruence.
  - rewrite !in_app_iff, (IH j w rest x y Hj). tauto.
Qed.

Lemma handled_in_all (workers : list shared.worker) x :
  In x (concat (map fst workers))
  -> In x (concat (map (fun w : shared.worker => w.1 ++ w.2) workers)).
Proof.
  induction workers as [|w0 workers IH]; simpl; [tauto|].
  rewrite !in_app_iff. tauto.
Qed.

Lemma pending_in_all (workers : list shared.worker) x : forall j w,
  workers !! j = Some w -> In x w.2
  -> In x (concat (map (fun w : shared.worker => w.1 ++ w.2) workers)).
Proof.
  induction workers as [|w0 workers IH]; intros j w Hj Hx; [discriminate|].
  destruct j as [|j]; simpl in *.
  - injection Hj as ->. rewrite !in_app_iff. tauto.
  - rewrite !in_app_iff. right. exact (IH j w Hj Hx).
Qed.

Lemma in_pointers (l : list (option nat)) p : In (Some p) l <-> p ∈ omap id l.
Proof.
  rewrite list_elem_of_omap. split.
  - intros H. exists (Some p). split; [apply list_elem_of_In; exact H|reflexivity].
  - intros (x & Hx & E). simpl in E. subst x. apply list_elem_of_In. exact Hx.
Qed.

(** With distinct pointers, the element a goroutine is about to deal with
    has not been dealt with. *)
Lemma next_not_handled (workers : list shared.worker) : forall j handled p rest,
  NoDup (omap id (concat (map (fun w : shared.worker => w.1 ++ w.2) workers))) ->
  workers !! j = Some (handled, Some p :: rest) ->
  ~ In (Some p) (concat (map fst workers)).
Proof.
  induction workers as [|w0 workers IH]; intros j handled p rest Hnd Hj; [discriminate|].
  cbn [map concat] in Hnd. rewrite omap_app in Hnd.
  apply NoDup_app in Hnd. destruct Hnd as (HA & Hdisj & HB).
  cbn [map concat]. rewrite in_app_iff.
  destruct j as [|j]; simpl in Hj.
  - injection Hj as ->. cbn [fst snd] in *. rewrite omap_app in HA.
    apply NoDup_app in HA. destruct HA as (_ & Hd & _).
    intros [Hin|Hin].
    + apply in_pointers in Hin. apply (Hd p Hin). apply in_pointers. left. reflexivity.
    + apply handled_in_all, in_pointers in Hin. apply (Hdisj p); [|exact Hin].
      apply in_pointers, in_app_iff. right. left. reflexivity.
  - intros [Hin|Hin].
    + apply (Hdisj p).
      * apply in_pointers, in_app_iff. left. exact Hin.
      * apply in_pointers. apply (pending_in_all workers (Some p) j _ Hj). left. reflexivity.
    + exact (IH j handled p rest HB Hj Hin).
Qed.

(** What a step of a goroutine changes: it moves one element of the batch
    from the ones to deal with to the ones dealt with, signing its
    transaction or sending its error. *)
Lemma step_spec capacity edPrivateKey errChan (h : shared.heap) (w : shared.worker) :
  length edPrivateKey = 64%nat ->
  match shared.step capacity edPrivateKey errChan h w with
  | shared.Moved errChan' h' w' =>
      exists p rest,
        w.2 = Some p :: rest /\ w' = (w.1 ++ [Some p], rest)
        /\ h' p = shared.signed edPrivateKey (h p)
        /\ (forall q, q <> p -> h' q = h q)
        /\ (length errChan' = length errChan + (if shared.unsignable (h p) then 1 else 0))%nat
        /\ (length errChan' <= Nat.max capacity (length errChan))%nat
  | shared.Waits =>
      (capacity <= length errChan)%nat
      /\ exists p rest, w.2 = Some p :: rest /\ shared.unsignable (h p) = true
  | shared.Returned => w.2 = []
  | shared.Panics msg =>
      (exists rest, w.2 = None :: rest)
      /\ msg = "runtime error: invalid memory address or nil pointer dereference"
  end.
Proof.
  intros Hlen. unfold shared.step. destruct w as [handled [|[p|] rest]]; cbn [fst snd].
  - reflexivity.
  - destruct (sign_one_valid_key edPrivateKey (h p) Hlen)
      as [(Hu & Hs & err & ->)|(Hu & ->)].
    + destruct (length errChan <? capacity)%nat eqn:Hroom.
      * apply Nat.ltb_lt in Hroom. exists p, rest. rewrite Hu, Hs, length_app. simpl.
        split; [reflexivity|]. split; [reflexivity|]. split; [reflexivity|].
        split; [reflexivity|]. split; lia.
      * apply Nat.ltb_ge in Hroom. split; [exact Hroom|]. exists p, rest.
        split; [reflexivity|exact Hu].
    + exists p, rest. rewrite Hu. split; [reflexivity|]. split; [reflexivity|].
      split; [apply fn_lookup_insert|].
      split; [intros q Hq; apply fn_lookup_insert_ne; congruence|]. split; lia.
  - split; [exists rest; reflexivity|reflexivity].
Qed.

Lemma returned_all (workers : list shared.worker) :
  forallb shared.returned workers = true ->
  concat (map (fun w : shared.worker => w.1 ++ w.2) workers) = concat (map fst workers)
  /\ sum_list (map (fun w : shared.worker => length w.2) workers) = 0%nat.
Proof.
  induction workers as [|w workers IH]; [split; reflexivity|].
  cbn [forallb map concat sum_list]. intros H. apply andb_true_iff in H. destruct H as [Hw Hws].
  destruct (IH Hws) as [-> ->]. unfold shared.returned in Hw.
  destruct w.2; [|discriminate]. rewrite app_nil_r. split; reflexivity.
Qed.

Lemma pending_le (f : shared.worker -> nat) (workers : list shared.worker) : forall j w,
  workers !! j = Some w -> (f w <= sum_list (map f workers))%nat.
Proof.
  induction workers as [|w0 workers IH]; intros j w Hj; [discriminate|].
  destruct j as [|j]; simpl in *.
  - injection Hj as ->. lia.
  - specialize (IH j w Hj). lia.
Qed.

Lemma filter_length_le {A} (f : A -> bool) (l : list A) :
  (length (List.filter f l) <= length l)%nat.
Proof.
  induction l as [|a l IH]; simpl; [lia|]. destruct (f a); simpl; lia.
Qed.

(** The invariant of a run from the heap [h0], with distinct pointers: the
    errors on the channel and the errors still to come add up to the same
    number, the channel holds no more than its buffer, and the transactions
    of the elements dealt with are signed, the others as they were. *)
Lemma run_spec capacity edPrivateKey (h0 : shared.heap) schedule :
  length edPrivateKey = 64%nat ->
  forall errChan (h : shared.heap) (workers : list shared.worker),
  NoDup (omap id (concat (map (fun w : shared.worker => w.1 ++ w.2) workers))) ->
  ~ In None (concat (map fst workers)) ->
  (forall p, In (Some p) (concat (map fst workers)) ->
             h p = shared.signed edPrivateKey (h0 p)) ->
  (forall p, ~ In (Some p) (concat (map fst workers)) -> h p = h0 p) ->
  (length errChan <= capacity)%nat ->
  match shared.run capacity edPrivateKey schedule errChan h workers with
  | shared.Finished (h', err) =>
      ~ In None (concat (map (fun w : shared.worker => w.1 ++ w.2) workers))
      /\ (length errChan
          + sum_list (map (fun w : shared.worker => length (List.filter (shared.fails h0) w.2))
                          workers) <= capacity)%nat
      /\ (forall p, In (Some p) (concat (map (fun w : shared.worker => w.1 ++ w.2) workers)) ->
                    h' p = shared.signed edPrivateKey (h0 p))
      /\ (forall p, ~ In (Some p) (concat (map (fun w : shared.worker => w.1 ++ w.2) workers)) ->
                    h' p = h0 p)
      /\ (err = None
          <-> (length errChan
               + sum_list (map (fun w : shared.worker =>
                                  length (List.filter (shared.fails h0) w.2)) workers)
               = 0)%nat)
  | shared.Crashed msg =>
      In None (concat (map (fun w : shared.worker => w.1 ++ w.2) workers))
      /\ msg = "runtime error: invalid memory address or nil pointer dereference"
  | shared.Blocked =>
      (capacity
       < length errChan
         + sum_list (map (fun w : shared.worker => length (List.filter (shared.fails h0) w.2))
                         workers))%nat
  | shared.Running => True
  end.
Proof.
  intros Hlen. induction schedule as [|j schedule IH];
    intros errChan h workers Hnd Hnil Hsigned Hother Hroom.
  - cbn [shared.run].
    destruct (forallb shared.returned workers) eqn:Hall.
    + destruct (returned_all workers Hall) as [Hsame Hnone].
      assert (Hpend : sum_list (map (fun w : shared.worker =>
                                       length (List.filter (shared.fails h0) w.2)) workers)
                      = 0%nat).
      { clear -Hnone. induction workers as [|w ws IHw]; [reflexivity|].
        simpl in *. pose proof (filter_length_le (shared.fails h0) w.2).
        rewrite IHw by lia. lia. }
      rewrite Hsame, Hpend, Nat.add_0_r.
      split; [exact Hnil|]. split; [exact Hroom|]. split; [exact Hsigned|].
      split; [exact Hother|].
      destruct errChan; simpl; split; intros H; try reflexivity; discriminate.
    + destruct (forallb (fun w => shared.returned w
                                  || shared.waits capacity edPrivateKey errChan h w) workers)
        eqn:Hwait; [|exact I].
      assert (Hex : exists w, In w workers /\ shared.returned w = false).
      { clear -Hall. induction workers as [|w ws IHw]; [discriminate|].
        simpl in Hall. destruct (shared.returned w) eqn:Hr.
        - destruct (IHw Hall) as (w' & Hin & Hw'). exists w'. split; [right; exact Hin|exact Hw'].
        - exists w. split; [left; reflexivity|exact Hr]. }
      destruct Hex as (w & Hin & Hr).
      rewrite forallb_forall in Hwait. specialize (Hwait w Hin). rewrite Hr in Hwait.
      simpl in Hwait. unfold shared.waits in Hwait.
      pose proof (step_spec capacity edPrivateKey errChan h w Hlen) as Hstep.
      destruct (shared.step capacity edPrivateKey errChan h w); try discriminate.
      destruct Hstep as (Hfull & p & rest & Hw & Hu).
      apply list_elem_of_In, list_elem_of_lookup in Hin. destruct Hin as [j Hj].
      destruct w as [handled pending]. cbn [snd] in Hw. subst pending.
      rewrite (Hother p (next_not_handled workers j handled p rest Hnd Hj)) in Hu.
      pose proof (pending_le (fun w : shared.worker =>
                                length (List.filter (shared.fails h0) w.2)) workers j _ Hj)
        as Hge.
      cbn [snd List.filter shared.fails] in Hge. rewrite Hu in Hge. simpl in Hge. lia.
  - cbn [shared.run].
    destruct (workers !! j) as [w|] eqn:Hj;
      [|exact (IH errChan h workers Hnd Hnil Hsigned Hother Hroom)].
    pose proof (step_spec capacity edPrivateKey errChan h w Hlen) as Hstep.
    destruct (shared.step capacity edPrivateKey errChan h w) as [errChan' h' w'| | |msg];
      [|exact (IH errChan h workers Hnd Hnil Hsigned Hother Hroom)
       |exact (IH errChan h workers Hnd Hnil Hsigned Hother Hroom)|].
    + destruct Hstep as (p & rest & Hw & -> & Hp & Hq & Hcount & Hroom').
      destruct w as [handled pending]. cbn [fst snd] in *. subst pending.
      pose proof (next_not_handled workers j handled p rest Hnd Hj) as Hfresh.
      rewrite (Hother p Hfresh) in Hp, Hcount.
      assert (Hall : map (fun w : shared.worker => w.1 ++ w.2)
                         (<[j := (handled ++ [Some p], rest)]> workers)
                     = map (fun w : shared.worker => w.1 ++ w.2) workers).
      { apply (map_insert_same _ workers j (handled, Some p :: rest) _ Hj).
        cbn [fst snd]. rewrite <- app_assoc. reflexivity. }
      assert (Hin : forall x,
                 In x (concat (map fst (<[j := (handled ++ [Some p], rest)]> workers)))
                 <-> In x (concat (map fst workers)) \/ x = Some p).
      { intros x. exact (handled_insert workers j (handled, Some p :: rest) rest x (Some p) Hj). }
      assert (Hsum : (length errChan'
                      + sum_list (map (fun w : shared.worker =>
                                         length (List.filter (shared.fails h0) w.2))
                                      (<[j := (handled ++ [Some p], rest)]> workers))
                      = length errChan
                        + sum_list (map (fun w : shared.worker =>
                                           length (List.filter (shared.fails h0) w.2))
                                        workers))%nat).
      { pose proof (sum_map_insert
                      (fun w : shared.worker => length (List.filter (shared.fails h0) w.2))
                      workers j _ (handled ++ [Some p], rest) Hj) as Hins.
        cbn [fst snd List.filter shared.fails] in Hins.
        rewrite Hcount. unfold shared.worker in Hins |- *.
        destruct (shared.unsignable (h0 p)); cbn [length] in Hins; lia. }
      specialize (IH errChan' h' (<[j := (handled ++ [Some p], rest)]> workers)).
      rewrite Hall, Hsum in IH. apply IH.
      * exact Hnd.
      * intros H. apply Hin in H. destruct H as [H|H]; [exact (Hnil H)|discriminate].
      * intros q H. apply Hin in H. destruct H as [H|H].
        -- rewrite Hq; [exact (Hsigned q H)|]. intros ->. exact (Hfresh H).
        -- injection H as ->. exact Hp.
      * intros q H. assert (Hne : q <> p) by (intros ->; apply H, Hin; right; reflexivity).
        rewrite (Hq q Hne). apply Hother. intros H'. apply H, Hin. left. exact H'.
      * lia.
    + destruct Hstep as ((rest & Hw) & ->). split; [|reflexivity].
      apply (pending_in_all workers None j w Hj). rewrite Hw. left. reflexivity.
Qed.

Lemma batches_concat {A} fuel batchSize : forall transactions : list A,
  (0 < batchSize)%nat -> (length transactions <= fuel)%nat ->
  concat (shared.batches fuel batchSize transactions) = transactions.
Proof.
  induction fuel as [|fuel IH]; intros transactions Hn Hfuel.
  - destruct transactions; [reflexivity|simpl in Hfuel; lia].
  - destruct transactions as [|tx rest]; [reflexivity|].
    cbn [shared.batches concat]. rewrite IH; [apply take_drop|exact Hn|].
    rewrite length_drop. simpl in *. lia.
Qed.

Lemma pending_of_batches (h : shared.heap) (bs : list (list (option nat))) :
  sum_list (map (fun w : shared.worker => length (List.filter (shared.fails h) w.2))
                (map (fun batch => ([], batch)) bs))
  = length (List.filter (shared.fails h) (concat bs)).
Proof.
  induction bs as [|b bs IH]; [reflexivity|].
  simpl. rewrite List.filter_app, length_app, IH. reflexivity.
Qed.

Lemma all_of_batches (bs : list (list (option nat))) :
  concat (map (fun w : shared.worker => w.1 ++ w.2) (map (fun batch => ([], batch)) bs))
  = concat bs.
Proof.
  induction bs as [|b bs IH]; [reflexivity|]. simpl. rewrite IH. reflexivity.
Qed.

Lemma handled_of_batches (bs : list (list (option nat))) :
  concat (map fst (map (fun batch : list (option nat) => ([] : list (option nat), batch)) bs))
  = [].
Proof.
  induction bs as [|b bs IH]; [reflexivity|]. simpl. exact IH.
Qed.

(** X24: [BatchSignTransactions] of transaction.go on a slice of distinct
    pointers, with a key of the right length and a batch size of at least
    one, under any schedule of its goroutines.  The error channel is given
    room for [len/batchSize + 1] errors, and every transaction that cannot
    be marshalled sends one before the channel is read.  The call returns
    only when no element is nil and no more transactions fail than the
    channel has room for, and then it leaves every transaction of the slice
    that can be marshalled signed and all others as they were, with an
    error exactly when one failed, whatever the batch size; with more
    failures the goroutines end up waiting on the full channel and the call
    never returns.  It panics only on a nil element, which
    [ConvertToProtoTransaction] dereferences. *)
Theorem BatchSignTransactions_may_block (transactions : list (option nat)) (h : shared.heap)
        (edPrivateKey : list byte) (batchSize : Z) (schedule : list nat) :
  length edPrivateKey = 64%nat ->
  1 <= batchSize ->
  Z.of_nat (length transactions) < MaxInt64 ->
  NoDup (omap id transactions) ->
  match shared.BatchSignTransactions transactions edPrivateKey batchSize schedule h with
  | shared.Finished (h', err) =>
      ~ In None transactions
      /\ Z.of_nat (length (List.filter (shared.fails h) transactions))
         <= Z.quot (Z.of_nat (length transactions)) batchSize + 1
      /\ (forall p, In (Some p) transactions -> h' p = shared.signed edPrivateKey (h p))
      /\ (forall p, ~ In (Some p) transactions -> h' p = h p)
      /\ (err = None <-> List.filter (shared.fails h) transactions = [])
  | shared.Crashed msg =>
      In None transactions
      /\ msg = "runtime error: invalid memory address or nil pointer dereference"
  | shared.Blocked =>
      Z.quot (Z.of_nat (length transactions)) batchSize + 1
      < Z.of_nat (length (List.filter (shared.fails h) transactions))
  | shared.Running => True
  end.
Proof.
  intros Hlen Hsize Hmax Hnd. unfold shared.BatchSignTransactions. cbv zeta.
  destruct (batchSize =? 0) eqn:H0; [apply Z.eqb_eq in H0; lia|].
  assert (Hq : 0 <= Z.quot (Z.of_nat (length transactions)) batchSize
               <= Z.of_nat (length transactions)).
  { rewrite Z.quot_div_nonneg by lia. split; [apply Z.div_pos; lia|].
    apply Z.div_le_upper_bound; nia. }
  unfold MaxInt64 in Hmax. rewrite int_small by lia.
  destruct (Z.quot (Z.of_nat (length transactions)) batchSize + 1 <? 0) eqn:Hneg;
    [apply Z.ltb_lt in Hneg; lia|].
  destruct (batchSize <? 0) eqn:Hb; [apply Z.ltb_lt in Hb; lia|].
  set (capacity := Z.to_nat (Z.quot (Z.of_nat (length transactions)) batchSize + 1)).
  set (bs := shared.batches (length transactions) (Z.to_nat batchSize) transactions).
  assert (Hbs : concat bs = transactions) by (apply batches_concat; lia).
  pose proof (run_spec capacity edPrivateKey h schedule Hlen [] h
                (map (fun batch => ([], batch)) bs)) as Hrun.
  rewrite pending_of_batches, all_of_batches, handled_of_batches, Hbs in Hrun.
  specialize (Hrun Hnd ltac:(intros []) ltac:(intros p []) ltac:(intros p _; reflexivity)
                   ltac:(simpl; lia)).
  simpl in Hrun.
  destruct (shared.run capacity edPrivateKey schedule [] h _) as [[h' err]|msg| |];
    [|exact Hrun| |exact I].
  - destruct Hrun as (Hnil & Hcap & Hs & Ho & Herr). split; [exact Hnil|].
    split; [unfold capacity in Hcap; lia|]. split; [exact Hs|]. split; [exact Ho|].
    rewrite Herr. split.
    + intros H. apply length_zero_iff_nil. exact H.
    + intros ->. reflexivity.
  - unfold capacity in Hrun. lia.
Qed.

Lemma BatchSignTransactions_may_block_witness :
  let h : shared.heap := fun p => if (p =? 2)%nat then examples.local_transfer
                                  else examples.garbled in
  shared.BatchSignTransactions [Some 0; Some 1; Some 2]%nat examples.private_key 5
                               [0; 0; 0]%nat h = shared.Blocked
  /\ shared.BatchSignTransactions [Some 2; None]%nat examples.private_key 1 [0; 1]%nat h
     = shared.Crashed "runtime error: invalid memory address or nil pointer dereference"
  /\ match shared.BatchSignTransactions [Some 0; Some 1; Some 2]%nat examples.private_key 5
             [0; 0; 0]%nat h with
     | shared.Finished (h', err) =>
         ~ In None [Some 0; Some 1; Some 2]%nat
         /\ Z.of_nat (length (List.filter (shared.fails h) [Some 0; Some 1; Some 2]%nat))
            <= Z.quot (Z.of_nat (length [Some 0; Some 1; Some 2]%nat)) 5 + 1
         /\ (forall p, In (Some p) [Some 0; Some 1; Some 2]%nat ->
                       h' p = shared.signed examples.private_key (h p))
         /\ (forall p, ~ In (Some p) [Some 0; Some 1; Some 2]%nat -> h' p = h p)
         /\ (err = None <-> List.filter (shared.fails h) [Some 0; Some 1; Some 2]%nat = [])
     | shared.Crashed msg =>
         In None [Some 0; Some 1; Some 2]%nat
         /\ msg = "runtime error: invalid memory address or nil pointer dereference"
     | shared.Blocked =>
         Z.quot (Z.of_nat (length [Some 0; Some 1; Some 2]%nat)) 5 + 1
         < Z.of_nat (length (List.filter (shared.fails h) [Some 0; Some 1; Some 2]%nat))
     | shared.Running => True
     end.
Proof.
  intros h. split; [vm_compute; reflexivity|]. split; [vm_compute; reflexivity|].
  apply (BatchSignTransactions_may_block [Some 0; Some 1; Some 2]%nat h).
  - vm_compute. reflexivity.
  - lia.
  - vm_compute. reflexivity.
  - apply (bool_decide_unpack (NoDup (omap id [Some 0; Some 1; Some 2]%nat))).
    vm_compute. reflexivity.
Defined.

(** X25: [BatchSignTransactions] of transaction.go does not check the
    batch size.  A batch size of zero panics in the division that sizes the
    error channel, and a negative one panics when the channel is made or
    when the first batch is sliced; only with no transactions at all does a
    negative batch size return. *)
Theorem BatchSignTransactions_bad_batch_size (transactions : list (option nat))
        (h : shared.heap) (edPrivateKey : list byte) (batchSize : Z) (schedule : list nat) :
  batchSize <= 0 ->
  if (batchSize =? 0) || negb (length transactions =? 0)%nat
  then exists msg,
         shared.BatchSignTransactions transactions edPrivateKey batchSize schedule h
         = shared.Crashed msg
  else shared.BatchSignTransactions transactions edPrivateKey batchSize schedule h
       = shared.Finished (h, None).
Proof.
  intros Hsize. unfold shared.BatchSignTransactions. cbv zeta.
  destruct (batchSize =? 0) eqn:H0; [eexists; reflexivity|]. apply Z.eqb_neq in H0.
  simpl.
  destruct (int (Z.quot (Z.of_nat (length transactions)) batchSize + 1) <? 0) eqn:Hcap.
  - destruct transactions as [|tx rest]; [|eexists; reflexivity].
    simpl in Hcap. rewrite Z.quot_0_l in Hcap by exact H0. discriminate.
  - replace (batchSize <? 0) with true by (symmetry; apply Z.ltb_lt; lia).
    destruct transactions as [|tx rest]; [reflexivity|]. eexists. reflexivity.
Qed.

Lemma BatchSignTransactions_bad_batch_size_witness :
  if (0 =? 0) || negb (length [Some 0%nat] =? 0)%nat
  then exists msg,
         shared.BatchSignTransactions [Some 0%nat] examples.private_key 0 []
                                      (fun _ => examples.local_transfer)
         = shared.Crashed msg
  else shared.BatchSignTransactions [Some 0%nat] examples.private_key 0 []
                                    (fun _ => examples.local_transfer)
       = shared.Finished (fun _ => examples.local_transfer, None).
Proof.
  apply BatchSignTransactions_bad_batch_size. lia.
Defined.

(** ** Signing in batches, as part_002 has it *)

Lemma rev_sign_one_spec edPrivateKey (h : shared.heap) (customTx : option nat) :
  length edPrivateKey = 64%nat ->
  (shared_rev.stops h customTx = true
   /\ exists err, shared_rev.sign_one edPrivateKey h customTx = Return (h, Some err))
  \/ (exists p,
        customTx = Some p /\ shared.unsignable (h p) = false
        /\ shared_rev.sign_one edPrivateKey h customTx
           = Return (<[p := shared.signed edPrivateKey (h p)]> h, None)).
Proof.
  intros Hlen. destruct customTx as [p|]; [|left; split; [reflexivity|eexists; reflexivity]].
  unfold shared_rev.sign_one, shared_rev.stops, shared.unsignable, shared.signed,
    shared.sign_one. cbn [fmap option_fmap option_map shared_rev.ConvertToProtoTransaction].
  cbv zeta.
  destruct (thrylos.Marshal (shared.ConvertToProtoTransaction (h p))) as [txBytes|err] eqn:E.
  - right. exists p. rewrite E.
    destruct (Sign_valid_key edPrivateKey txBytes Hlen) as [sig ->].
    split; [reflexivity|]. split; reflexivity.
  - left. split; [reflexivity|]. eexists. reflexivity.
Qed.

Lemma rev_step_spec capacity edPrivateKey errChan (h : shared.heap) (w : shared.worker) :
  length edPrivateKey = 64%nat ->
  match shared_rev.step capacity edPrivateKey errChan h w with
  | shared.Moved errChan' h' w' =>
      (exists p rest,
          w.2 = Some p :: rest /\ shared.unsignable (h p) = false
          /\ w' = (w.1 ++ [Some p], rest) /\ errChan' = errChan
          /\ h' p = shared.signed edPrivateKey (h p) /\ (forall q, q <> p -> h' q = h q))
      \/ (exists customTx rest err,
             w.2 = customTx :: rest /\ shared_rev.stops h customTx = true
             /\ w' = (w.1, []) /\ errChan' = errChan ++ [err] /\ h' = h
             /\ (length errChan < capacity)%nat)
  | shared.Waits =>
      (capacity <= length errChan)%nat
      /\ exists customTx rest, w.2 = customTx :: rest /\ shared_rev.stops h customTx = true
  | shared.Returned => w.2 = []
  | shared.Panics _ => False
  end.
Proof.
  intros Hlen. unfold shared_rev.step. destruct w as [handled [|customTx rest]]; cbn [fst snd].
  - reflexivity.
  - destruct (rev_sign_one_spec edPrivateKey h customTx Hlen)
      as [(Hstop & err & ->)|(p & -> & Hu & ->)].
    + destruct (length errChan <? capacity)%nat eqn:Hroom.
      * apply Nat.ltb_lt in Hroom. right. exists customTx, rest, err.
        repeat (split; [first [reflexivity|assumption]|]). exact Hroom.
      * apply Nat.ltb_ge in Hroom. split; [exact Hroom|]. exists customTx, rest.
        split; [reflexivity|exact Hstop].
    + left. exists p, rest. split; [reflexivity|]. split; [exact Hu|].
      split; [reflexivity|]. split; [reflexivity|]. split; [apply fn_lookup_insert|].
      intros q Hq. apply fn_lookup_insert_ne. congruence.
Qed.

Lemma omap_id_sublist (l k : list (option nat)) :
  l `sublist_of` k -> omap id l `sublist_of` omap id k.
Proof.
  induction 1 as [|x l k _ IH|x l k _ IH]; [constructor| |].
  - destruct x as [p|]; simpl; [constructor|]; exact IH.
  - destruct x as [p|]; simpl; [constructor|]; exact IH.
Qed.

Lemma all_after_return (workers : list shared.worker) : forall j w,
  workers !! j = Some w ->
  concat (map (fun w : shared.worker => w.1 ++ w.2) (<[j := (w.1, [])]> workers))
  `sublist_of` concat (map (fun w : shared.worker => w.1 ++ w.2) workers).
Proof.
  induction workers as [|w0 workers IH]; intros j w Hj; [discriminate|].
  destruct j as [|j]; simpl in *.
  - injection Hj as ->. apply sublist_app; [|reflexivity].
    rewrite app_nil_r. apply sublist_inserts_r. reflexivity.
  - apply sublist_app; [reflexivity|]. exact (IH j w Hj).
Qed.

Lemma indicator_zero (h : shared.heap) (workers : list shared.worker) :
  forallb shared.returned workers = true ->
  sum_list (map (fun w : shared.worker =>
                   if existsb (shared_rev.stops h) w.2 then 1%nat else 0%nat) workers) = 0%nat
  /\ map (fun w : shared.worker => w.1 ++ shared_rev.signed_part h w.2) workers
     = map fst workers.
Proof.
  induction workers as [|w workers IH]; [split; reflexivity|].
  cbn [forallb map sum_list]. intros H. apply andb_true_iff in H. destruct H as [Hw Hws].
  destruct (IH Hws) as [E1 E2]. unfold shared.returned in Hw.
  destruct w as [handled [|x rest]]; [|discriminate]. cbn [fst snd existsb shared_rev.signed_part].
  rewrite app_nil_r, E2. split; [exact E1|reflexivity].
Qed.

Lemma unreturned_worker (workers : list shared.worker) :
  forallb shared.returned workers = false ->
  exists j w, workers !! j = Some w /\ shared.returned w = false.
Proof.
  induction workers as [|w workers IH]; [discriminate|].
  simpl. destruct (shared.returned w) eqn:Hr.
  - intros H. destruct (IH H) as (j & w' & Hj & Hw'). exists (S j), w'. split; assumption.
  - intros _. exists 0%nat, w. split; [reflexivity|exact Hr].
Qed.

(** A step of a goroutine of part_002 keeps the invariant of the run from
    the heap [h0]: the pointers are distinct, the transactions of the
    elements dealt with are signed and the others as they were, and the
    channel has room for the errors still to come.  No goroutine waits or
    panics, and each step brings the batches nearer to their end. *)
Lemma rev_step_inv capacity edPrivateKey (h0 : shared.heap) errChan (h : shared.heap)
      (workers : list shared.worker) j w :
  length edPrivateKey = 64%nat ->
  NoDup (omap id (concat (map (fun w : shared.worker => w.1 ++ w.2) workers))) ->
  (forall p, In (Some p) (concat (map fst workers)) ->
             h p = shared.signed edPrivateKey (h0 p)) ->
  (forall p, ~ In (Some p) (concat (map fst workers)) -> h p = h0 p) ->
  (length errChan
   + sum_list (map (fun w : shared.worker =>
                      if existsb (shared_rev.stops h0) w.2 then 1 else 0) workers)
   <= capacity)%nat ->
  workers !! j = Some w ->
  match shared_rev.step capacity edPrivateKey errChan h w with
  | shared.Moved errChan' h' w' =>
      NoDup (omap id (concat (map (fun w : shared.worker => w.1 ++ w.2)
                                  (<[j := w']> workers))))
      /\ (forall p, In (Some p) (concat (map fst (<[j := w']> workers))) ->
                    h' p = shared.signed edPrivateKey (h0 p))
      /\ (forall p, ~ In (Some p) (concat (map fst (<[j := w']> workers))) -> h' p = h0 p)
      /\ map (fun w : shared.worker => w.1 ++ shared_rev.signed_part h0 w.2)
             (<[j := w']> workers)
         = map (fun w : shared.worker => w.1 ++ shared_rev.signed_part h0 w.2) workers
      /\ (length errChan'
          + sum_list (map (fun w : shared.worker =>
                             if existsb (shared_rev.stops h0) w.2 then 1 else 0)
                          (<[j := w']> workers))
          = length errChan
            + sum_list (map (fun w : shared.worker =>
                               if existsb (shared_rev.stops h0) w.2 then 1 else 0) workers))%nat
      /\ (sum_list (map (fun w : shared.worker => length w.2) (<[j := w']> workers))
          < sum_list (map (fun w : shared.worker => length w.2) workers))%nat
  | shared.Waits => False
  | shared.Returned => w.2 = []
  | shared.Panics _ => False
  end.
Proof.
  intros Hlen Hnd Hsigned Hother Hroom Hj.
  pose proof (rev_step_spec capacity edPrivateKey errChan h w Hlen) as Hstep.
  assert (Hhead : forall customTx rest,
             w.2 = customTx :: rest ->
             shared_rev.stops h0 customTx = shared_rev.stops h customTx
             /\ forall p, customTx = Some p ->
                          h p = h0 p /\ ~ In (Some p) (concat (map fst workers))).
  { intros customTx rest Hw. destruct w as [handled pending]. cbn [snd] in Hw. subst pending.
    destruct customTx as [p|]; [|split; [reflexivity|discriminate]].
    pose proof (next_not_handled workers j handled p rest Hnd Hj) as Hfresh.
    split; [simpl; rewrite (Hother p Hfresh); reflexivity|].
    intros p' [= <-]. split; [exact (Hother p Hfresh)|exact Hfresh]. }
  destruct (shared_rev.step capacity edPrivateKey errChan h w) as [errChan' h' w'| | |msg];
    [|exfalso|exact Hstep|exact Hstep].
  - destruct Hstep as [(p & rest & Hw & Hu & -> & -> & Hp & Hq)
                      |(customTx & rest & err & Hw & Hstop & -> & -> & -> & Hlt)].
    + destruct (Hhead (Some p) rest Hw) as [_ Hh]. destruct (Hh p eq_refl) as [Hp0 Hfresh].
      destruct w as [handled pending]. cbn [fst snd] in *. subst pending.
      rewrite Hp0 in Hp, Hu.
      assert (Hin : forall x,
                 In x (concat (map fst (<[j := (handled ++ [Some p], rest)]> workers)))
                 <-> In x (concat (map fst workers)) \/ x = Some p).
      { intros x. exact (handled_insert workers j (handled, Some p :: rest) rest x (Some p) Hj). }
      split; [|split; [|split; [|split; [|split]]]].
      * rewrite (map_insert_same (fun w : shared.worker => w.1 ++ w.2) workers j
                   (handled, Some p :: rest) _ Hj); [exact Hnd|].
        cbn [fst snd]. rewrite <- app_assoc. reflexivity.
      * intros q H. apply Hin in H. destruct H as [H|H].
        -- rewrite Hq; [exact (Hsigned q H)|]. intros ->. exact (Hfresh H).
        -- injection H as ->. exact Hp.
      * intros q H. assert (Hne : q <> p) by (intros ->; apply H, Hin; right; reflexivity).
        rewrite (Hq q Hne). apply Hother. intros H'. apply H, Hin. left. exact H'.
      * apply (map_insert_same _ workers j (handled, Some p :: rest) _ Hj).
        cbn [fst snd shared_rev.signed_part shared_rev.stops]. rewrite Hu, <- app_assoc.
        reflexivity.
      * pose proof (sum_map_insert
                      (fun w : shared.worker =>
                         if existsb (shared_rev.stops h0) w.2 then 1%nat else 0%nat)
                      workers j _ (handled ++ [Some p], rest) Hj) as Hins.
        cbn [fst snd existsb shared_rev.stops] in Hins. rewrite Hu in Hins.
        cbn [orb] in Hins. unfold shared.worker in Hins |- *. lia.
      * pose proof (sum_map_insert (fun w : shared.worker => length w.2)
                      workers j _ (handled ++ [Some p], rest) Hj) as Hins.
        cbn [fst snd length] in Hins. unfold shared.worker in Hins |- *. lia.
    + destruct (Hhead customTx rest Hw) as [Hstop0 _]. rewrite <- Hstop0 in Hstop.
      destruct w as [handled pending]. cbn [fst snd] in *. subst pending.
      assert (Hsame : map fst (<[j := (handled, [])]> workers) = map fst workers).
      { apply (map_insert_same fst workers j (handled, customTx :: rest) _ Hj). reflexivity. }
      split; [|split; [|split; [|split; [|split]]]].
      * apply (sublist_NoDup _ _ Hnd), omap_id_sublist.
        exact (all_after_return workers j (handled, customTx :: rest) Hj).
      * unfold shared.worker in Hsame |- *. rewrite Hsame. exact Hsigned.
      * unfold shared.worker in Hsame |- *. rewrite Hsame. exact Hother.
      * apply (map_insert_same _ workers j (handled, customTx :: rest) _ Hj).
        cbn [fst snd shared_rev.signed_part]. rewrite Hstop. reflexivity.
      * pose proof (sum_map_insert
                      (fun w : shared.worker =>
                         if existsb (shared_rev.stops h0) w.2 then 1%nat else 0%nat)
                      workers j _ (handled, []) Hj) as Hins.
        cbn [fst snd existsb] in Hins. rewrite Hstop in Hins. cbn [orb] in Hins.
        rewrite length_app. simpl. unfold shared.worker in Hins |- *. lia.
      * pose proof (sum_map_insert (fun w : shared.worker => length w.2)
                      workers j _ (handled, []) Hj) as Hins.
        cbn [fst snd length] in Hins. unfold shared.worker in Hins |- *. lia.
  - destruct Hstep as (Hfull & customTx & rest & Hw & Hstop).
    destruct (Hhead customTx rest Hw) as [Hstop0 _]. rewrite <- Hstop0 in Hstop.
    pose proof (pending_le (fun w : shared.worker =>
                              if existsb (shared_rev.stops h0) w.2 then 1%nat else 0%nat)
                           workers j w Hj) as Hge.
    cbv beta in Hge. rewrite Hw in Hge. cbn [existsb] in Hge. rewrite Hstop in Hge.
    cbn [orb] in Hge. lia.
Qed.

(** Under any schedule the goroutines of part_002 neither wait for each
    other nor panic. *)
Lemma rev_run_spec capacity edPrivateKey (h0 : shared.heap) schedule :
  length edPrivateKey = 64%nat ->
  forall errChan (h : shared.heap) (workers : list shared.worker),
  NoDup (omap id (concat (map (fun w : shared.worker => w.1 ++ w.2) workers))) ->
  (forall p, In (Some p) (concat (map fst workers)) ->
             h p = shared.signed edPrivateKey (h0 p)) ->
  (forall p, ~ In (Some p) (concat (map fst workers)) -> h p = h0 p) ->
  (length errChan
   + sum_list (map (fun w : shared.worker =>
                      if existsb (shared_rev.stops h0) w.2 then 1 else 0) workers)
   <= capacity)%nat ->
  match shared_rev.run capacity edPrivateKey schedule errChan h workers with
  | shared.Finished (h', err) =>
      (forall p,
          In (Some p) (concat (map (fun w : shared.worker =>
                                      w.1 ++ shared_rev.signed_part h0 w.2) workers)) ->
          h' p = shared.signed edPrivateKey (h0 p))
      /\ (forall p,
             ~ In (Some p) (concat (map (fun w : shared.worker =>
                                           w.1 ++ shared_rev.signed_part h0 w.2) workers)) ->
             h' p = h0 p)
      /\ (err = None
          <-> (length errChan
               + sum_list (map (fun w : shared.worker =>
                                  if existsb (shared_rev.stops h0) w.2 then 1 else 0) workers)
               = 0)%nat)
  | shared.Crashed _ => False
  | shared.Blocked => False
  | shared.Running => True
  end.
Proof.
  intros Hlen. induction schedule as [|j schedule IH];
    intros errChan h workers Hnd Hsigned Hother Hroom.
  - cbn [shared_rev.run].
    destruct (forallb shared.returned workers) eqn:Hall.
    + destruct (indicator_zero h0 workers Hall) as [-> ->]. rewrite Nat.add_0_r.
      split; [exact Hsigned|]. split; [exact Hother|].
      destruct errChan; simpl; split; intros H; try reflexivity; discriminate.
    + destruct (forallb (fun w => shared.returned w
                                  || shared_rev.waits capacity edPrivateKey errChan h w)
                        workers) eqn:Hwait; [|exact I].
      destruct (unreturned_worker workers Hall) as (j & w & Hj & Hr).
      rewrite forallb_forall in Hwait.
      specialize (Hwait w (proj1 (list_elem_of_In _ _) (list_elem_of_lookup_2 _ _ _ Hj))).
      rewrite Hr in Hwait. simpl in Hwait. unfold shared_rev.waits in Hwait.
      pose proof (rev_step_inv capacity edPrivateKey h0 errChan h workers j w
                    Hlen Hnd Hsigned Hother Hroom Hj) as Hstep.
      destruct (shared_rev.step capacity edPrivateKey errChan h w); try discriminate.
      exact Hstep.
  - cbn [shared_rev.run].
    destruct (workers !! j) as [w|] eqn:Hj;
      [|exact (IH errChan h workers Hnd Hsigned Hother Hroom)].
    pose proof (rev_step_inv capacity edPrivateKey h0 errChan h workers j w
                  Hlen Hnd Hsigned Hother Hroom Hj) as Hstep.
    destruct (shared_rev.step capacity edPrivateKey errChan h w) as [errChan' h' w'| | |msg];
      [|exact (IH errChan h workers Hnd Hsigned Hother Hroom)
       |exact (IH errChan h workers Hnd Hsigned Hother Hroom)|exact Hstep].
    destruct Hstep as (Hnd' & Hsigned' & Hother' & Hview & Hsum & _).
    specialize (IH errChan' h' (<[j := w']> workers) Hnd' Hsigned' Hother').
    rewrite Hview, Hsum in IH. exact (IH Hroom).
Qed.

(** From any state the run has reached, some schedule lets every goroutine
    return. *)
Lemma rev_run_finishes capacity edPrivateKey (h0 : shared.heap) :
  length edPrivateKey = 64%nat ->
  forall (n : nat) errChan (h : shared.heap) (workers : list shared.worker),
  (sum_list (map (fun w : shared.worker => length w.2) workers) <= n)%nat ->
  NoDup (omap id (concat (map (fun w : shared.worker => w.1 ++ w.2) workers))) ->
  (forall p, In (Some p) (concat (map fst workers)) ->
             h p = shared.signed edPrivateKey (h0 p)) ->
  (forall p, ~ In (Some p) (concat (map fst workers)) -> h p = h0 p) ->
  (length errChan
   + sum_list (map (fun w : shared.worker =>
                      if existsb (shared_rev.stops h0) w.2 then 1 else 0) workers)
   <= capacity)%nat ->
  exists more h' err,
    shared_rev.run capacity edPrivateKey more errChan h workers = shared.Finished (h', err).
Proof.
  intros Hlen. induction n as [|n IH]; intros errChan h workers Hn Hnd Hsigned Hother Hroom.
  - exists [], h, (head errChan). cbn [shared_rev.run].
    destruct (forallb shared.returned workers) eqn:Hall; [reflexivity|].
    destruct (unreturned_worker workers Hall) as (j & w & Hj & Hr).
    pose proof (pending_le (fun w : shared.worker => length w.2) workers j w Hj) as Hge.
    cbv beta in Hge. unfold shared.returned in Hr. destruct w.2; [discriminate|].
    simpl in Hge. lia.
  - destruct (forallb shared.returned workers) eqn:Hall.
    + exists [], h, (head errChan). cbn [shared_rev.run]. rewrite Hall. reflexivity.
    + destruct (unreturned_worker workers Hall) as (j & w & Hj & Hr).
      pose proof (rev_step_inv capacity edPrivateKey h0 errChan h workers j w
                    Hlen Hnd Hsigned Hother Hroom Hj) as Hstep.
      destruct (shared_rev.step capacity edPrivateKey errChan h w)
        as [errChan' h' w'| | |msg] eqn:Hs; [|destruct Hstep| |destruct Hstep].
      * destruct Hstep as (Hnd' & Hsigned' & Hother' & _ & Hsum & Hless).
        destruct (IH errChan' h' (<[j := w']> workers)) as (more & h'' & err & Hrun);
          [lia|exact Hnd'|exact Hsigned'|exact Hother'|lia|].
        exists (j :: more), h'', err. cbn [shared_rev.run]. rewrite Hj, Hs. exact Hrun.
      * unfold shared.returned in Hr. rewrite Hstep in Hr. discriminate.
Qed.

Lemma rev_run_extends capacity edPrivateKey (h0 : shared.heap) schedule :
  length edPrivateKey = 64%nat ->
  forall errChan (h : shared.heap) (workers : list shared.worker),
  NoDup (omap id (concat (map (fun w : shared.worker => w.1 ++ w.2) workers))) ->
  (forall p, In (Some p) (concat (map fst workers)) ->
             h p = shared.signed edPrivateKey (h0 p)) ->
  (forall p, ~ In (Some p) (concat (map fst workers)) -> h p = h0 p) ->
  (length errChan
   + sum_list (map (fun w : shared.worker =>
                      if existsb (shared_rev.stops h0) w.2 then 1 else 0) workers)
   <= capacity)%nat ->
  exists more h' err,
    shared_rev.run capacity edPrivateKey (schedule ++ more) errChan h workers
    = shared.Finished (h', err).
Proof.
  intros Hlen. induction schedule as [|j schedule IH];
    intros errChan h workers Hnd Hsigned Hother Hroom.
  - exact (rev_run_finishes capacity edPrivateKey h0 Hlen _ errChan h workers
             (Nat.le_refl _) Hnd Hsigned Hother Hroom).
  - cbn [app shared_rev.run].
    destruct (workers !! j) as [w|] eqn:Hj;
      [|exact (IH errChan h workers Hnd Hsigned Hother Hroom)].
    pose proof (rev_step_inv capacity edPrivateKey h0 errChan h workers j w
                  Hlen Hnd Hsigned Hother Hroom Hj) as Hstep.
    destruct (shared_rev.step capacity edPrivateKey errChan h w) as [errChan' h' w'| | |msg];
      [|destruct Hstep|exact (IH errChan h workers Hnd Hsigned Hother Hroom)|destruct Hstep].
    destruct Hstep as (Hnd' & Hsigned' & Hother' & _ & Hsum & _).
    apply (IH errChan' h' (<[j := w']> workers) Hnd' Hsigned' Hother'). lia.
Qed.

(** The loop that starts the goroutines makes no more batches than the
    channel is given room for. *)
Lemma batches_length {A} fuel batchSize : forall transactions : list A,
  (0 < batchSize)%nat -> (length transactions <= fuel)%nat ->
  (length (shared.batches fuel batchSize transactions) * batchSize
   <= length transactions + batchSize - 1)%nat.
Proof.
  induction fuel as [|fuel IH]; intros transactions Hn Hfuel.
  - destruct transactions; simpl; lia.
  - destruct transactions as [|tx rest]; [simpl; lia|].
    cbn [shared.batches length].
    specialize (IH (drop batchSize (tx :: rest)) Hn).
    rewrite length_drop in IH. cbn [length] in IH, Hfuel. specialize (IH ltac:(lia)).
    destruct (Nat.le_gt_cases batchSize (S (length rest))) as [Hle|Hgt].
    + lia.
    + rewrite drop_ge in IH |- * by (simpl; lia).
      destruct fuel; simpl; lia.
Qed.

Lemma indicators_of_batches (h : shared.heap) (bs : list (list (option nat))) :
  (sum_list (map (fun w : shared.worker =>
                    if existsb (shared_rev.stops h) w.2 then 1%nat else 0%nat)
                 (map (fun batch => ([], batch)) bs)) <= length bs)%nat
  /\ (sum_list (map (fun w : shared.worker =>
                       if existsb (shared_rev.stops h) w.2 then 1%nat else 0%nat)
                    (map (fun batch => ([], batch)) bs)) = 0%nat
      <-> existsb (shared_rev.stops h) (concat bs) = false).
Proof.
  induction bs as [|b bs [IH1 IH2]]; [split; [simpl; lia|split; reflexivity]|].
  cbn [map sum_list sum_list_with concat length snd]. rewrite existsb_app.
  destruct (existsb (shared_rev.stops h) b); simpl.
  - split; [lia|]. split; [lia|discriminate].
  - split; [lia|]. exact IH2.
Qed.

Lemma views_of_batches (h : shared.heap) (bs : list (list (option nat))) :
  map (fun w : shared.worker => w.1 ++ shared_rev.signed_part h w.2)
      (map (fun batch => ([], batch)) bs)
  = map (shared_rev.signed_part h) bs.
Proof.
  induction bs as [|b bs IH]; [reflexivity|]. simpl. rewrite IH. reflexivity.
Qed.

(** X29: [BatchSignTransactions] of part_002 on a slice of distinct
    pointers, with a key of the right length and a batch size of at least
    one that does not overflow the size of the channel.  Under any schedule
    of its goroutines no goroutine waits on the channel and none panics,
    nil elements included, and every schedule can be continued so that the
    call returns.  When it returns, in each batch the transactions before
    the first nil element or transaction that cannot be marshalled are
    signed, all other transactions are as they were, and an error is
    returned exactly when some element is nil or cannot be marshalled. *)
Theorem BatchSignTransactions_part_002_returns (transactions : list (option nat))
        (h : shared.heap) (edPrivateKey : list byte) (batchSize : Z) (schedule : list nat) :
  length edPrivateKey = 64%nat ->
  1 <= batchSize ->
  Z.of_nat (length transactions) + batchSize <= MaxInt64 ->
  NoDup (omap id transactions) ->
  let signedTxs :=
    concat (map (shared_rev.signed_part h)
                (shared.batches (length transactions) (Z.to_nat batchSize) transactions)) in
  match shared_rev.BatchSignTransactions transactions edPrivateKey batchSize schedule h with
  | shared.Finished (h', err) =>
      (forall p, In (Some p) signedTxs -> h' p = shared.signed edPrivateKey (h p))
      /\ (forall p, ~ In (Some p) signedTxs -> h' p = h p)
      /\ (err = None <-> existsb (shared_rev.stops h) transactions = false)
  | shared.Crashed _ => False
  | shared.Blocked => False
  | shared.Running => True
  end
  /\ exists more h' err,
       shared_rev.BatchSignTransactions transactions edPrivateKey batchSize (schedule ++ more) h
       = shared.Finished (h', err).
Proof.
  intros Hlen Hsize Hmax Hnd signedTxs. unfold shared_rev.BatchSignTransactions. cbv zeta.
  destruct (batchSize <? 1) eqn:H1; [apply Z.ltb_lt in H1; lia|].
  unfold MaxInt64 in Hmax.
  rewrite (int_small (Z.of_nat (length transactions) + batchSize)) by lia.
  rewrite int_small by lia.
  assert (Hq : 0 <= Z.quot (Z.of_nat (length transactions) + batchSize - 1) batchSize).
  { rewrite Z.quot_div_nonneg by lia. apply Z.div_pos; lia. }
  destruct (Z.quot (Z.of_nat (length transactions) + batchSize - 1) batchSize <? 0) eqn:Hneg;
    [apply Z.ltb_lt in Hneg; lia|].
  set (capacity := Z.to_nat (Z.quot (Z.of_nat (length transactions) + batchSize - 1) batchSize)).
  set (bs := shared.batches (length transactions) (Z.to_nat batchSize) transactions) in *.
  assert (Hbs : concat bs = transactions) by (apply batches_concat; lia).
  assert (Hcount : (length bs <= capacity)%nat).
  { pose proof (batches_length (length transactions) (Z.to_nat batchSize) transactions
                  ltac:(lia) (Nat.le_refl _)) as Hb.
    fold bs in Hb. unfold capacity. rewrite Z.quot_div_nonneg by lia.
    apply Nat2Z.inj_le. rewrite Z2Nat.id by (apply Z.div_pos; lia).
    apply Z.div_le_lower_bound; [lia|]. nia. }
  destruct (indicators_of_batches h bs) as [Hle Hzero].
  assert (Hall : concat (map (fun w : shared.worker => w.1 ++ w.2)
                             (map (fun batch => ([], batch)) bs)) = transactions)
    by (rewrite all_of_batches; exact Hbs).
  assert (Hinit : concat (map fst (map (fun batch : list (option nat) =>
                                          ([] : list (option nat), batch)) bs)) = [])
    by apply handled_of_batches.
  split.
  - pose proof (rev_run_spec capacity edPrivateKey h schedule Hlen [] h
                  (map (fun batch => ([], batch)) bs)) as Hrun.
    rewrite Hall, Hinit, views_of_batches in Hrun.
    specialize (Hrun Hnd ltac:(intros p []) ltac:(intros p _; reflexivity)
                     ltac:(simpl; lia)).
    destruct (shared_rev.run capacity edPrivateKey schedule [] h _) as [[h' err]|msg| |];
      [|exact Hrun|exact Hrun|exact I].
    destruct Hrun as (Hs & Ho & Herr). split; [exact Hs|]. split; [exact Ho|].
    rewrite Herr. simpl. rewrite Hzero, Hbs. reflexivity.
  - apply (rev_run_extends capacity edPrivateKey h schedule Hlen [] h).
    + rewrite Hall. exact Hnd.
    + rewrite Hinit. intros p [].
    + intros p _. reflexivity.
    + simpl. lia.
Qed.

Lemma BatchSignTransactions_part_002_returns_witness :
  let h : shared.heap := fun p => if (p =? 2)%nat then examples.local_transfer
                                  else examples.garbled in
  let transactions := [Some 2; None; Some 0; Some 1; Some 3]%nat in
  let signedTxs :=
    concat (map (shared_rev.signed_part h)
                (shared.batches (length transactions) (Z.to_nat 2) transactions)) in
  signedTxs = [Some 2%nat]
  /\ match shared_rev.BatchSignTransactions transactions examples.private_key 2
             [0; 1; 2; 0; 0]%nat h with
     | shared.Finished (h', err) =>
         (forall p, In (Some p) signedTxs -> h' p = shared.signed examples.private_key (h p))
         /\ (forall p, ~ In (Some p) signedTxs -> h' p = h p)
         /\ (err = None <-> existsb (shared_rev.stops h) transactions = false)
     | shared.Crashed _ => False
     | shared.Blocked => False
     | shared.Running => True
     end
     /\ exists more h' err,
          shared_rev.BatchSignTransactions transactions examples.private_key 2
                                           ([0; 1; 2; 0; 0]%nat ++ more) h
          = shared.Finished (h', err).
Proof.
  intros h transactions signedTxs. split; [vm_compute; reflexivity|].
  apply (BatchSignTransactions_part_002_returns transactions h).
  - vm_compute. reflexivity.
  - lia.
  - vm_compute. discriminate.
  - apply (bool_decide_unpack (NoDup (omap id transactions))). vm_compute. reflexivity.
Defined.

(** The bound on the batch size is needed: with two transactions and the
    largest batch size the sum that sizes the channel wraps around, and
    making the channel panics. *)
Example BatchSignTransactions_part_002_overflow :
  shared_rev.BatchSignTransactions [Some 0; Some 1]%nat examples.private_key MaxInt64 []
                                   (fun _ => examples.local_transfer)
  = shared.Crashed "makechan: size out of range".
Proof. vm_compute. reflexivity. Qed.

(** ** Tampering with a ciphertext *)

Lemma byte_xor_swap z m k : byte_xor (byte_xor z m) k = byte_xor (byte_xor z k) m.
Proof.
  unfold byte_xor.
  rewrite !byte_to_of_Z by (apply lxor_byte_range; apply byte_to_Z_range).
  rewrite !Z.lxor_assoc, (Z.lxor_comm (byte_to_Z m)). reflexivity.
Qed.

Lemma XORKeyStream_length b decrypt src : forall next out outUsed,
  length (cipher.XORKeyStream b decrypt next out outUsed src) = length src.
Proof.
  induction src as [|s src IH]; intros next out outUsed; [reflexivity|].
  cbn [cipher.XORKeyStream]. unfold aes.BlockSize.
  destruct (outUsed =? 16)%nat; cbn [length]; rewrite IH; reflexivity.
Qed.

(** When decrypting, the key stream byte for the last byte of the input
    depends on what comes before it only. *)
Lemma XORKeyStream_last b src : forall next out outUsed,
  exists k, forall z,
    cipher.XORKeyStream b true next out outUsed (src ++ [z])
    = cipher.XORKeyStream b true next out outUsed src ++ [byte_xor z k].
Proof.
  induction src as [|s src IH]; intros next out outUsed.
  - cbn [app cipher.XORKeyStream]. unfold aes.BlockSize.
    destruct (outUsed =? 16)%nat; eexists; intros z; reflexivity.
  - cbn [app cipher.XORKeyStream]. unfold aes.BlockSize.
    destruct (outUsed =? 16)%nat.
    + destruct (IH (<[0%nat := s]> next) (aes.Encrypt b next) 1%nat) as [k Hk].
      exists k. intros z. cbv beta iota zeta. rewrite Hk. reflexivity.
    + destruct (IH (<[outUsed := s]> next) out (S outUsed)) as [k Hk].
      exists k. intros z. cbv beta iota zeta. rewrite Hk. reflexivity.
Qed.

(** X26: the encryption carries no integrity check.  With a valid key
    [DecryptWithAES] accepts every input of 16 bytes or more and returns as
    many bytes as follow the IV; decrypting a prefix gives the prefix of
    the plaintext, and flipping bits in the last byte of the ciphertext
    flips the same bits in the last byte of the plaintext and changes
    nothing else. *)
Theorem DecryptWithAES_malleable (key iv body : list byte) (last mask : byte) :
  (length key = 16 \/ length key = 24 \/ length key = 32)%nat ->
  length iv = 16%nat ->
  exists plain x,
    shared.DecryptWithAES key (iv ++ body) = Ok plain
    /\ length plain = length body
    /\ shared.DecryptWithAES key (iv ++ body ++ [last]) = Ok (plain ++ [x])
    /\ shared.DecryptWithAES key (iv ++ body ++ [byte_xor last mask])
       = Ok (plain ++ [byte_xor x mask]).
Proof.
  intros Hkey Hiv. unfold shared.DecryptWithAES.
  rewrite (NewCipher_valid_key key Hkey). unfold aes.BlockSize.
  assert (Hlong : forall rest, (length (iv ++ rest) <? 16)%nat = false).
  { intros rest. apply Nat.ltb_ge. rewrite length_app. lia. }
  rewrite !Hlong.
  rewrite !(take_app_length' iv _ 16 (eq_sym Hiv)), !(drop_app_length' iv _ 16 (eq_sym Hiv)).
  unfold cipher.CFB.
  destruct (XORKeyStream_last (aes.KeyExpansion (map byte_to_Z key)) body iv
              (repeat x00 aes.BlockSize) aes.BlockSize) as [k Hk].
  exists (cipher.XORKeyStream (aes.KeyExpansion (map byte_to_Z key)) true iv
            (repeat x00 aes.BlockSize) aes.BlockSize body), (byte_xor last k).
  split; [reflexivity|]. split; [apply XORKeyStream_length|].
  rewrite !Hk, byte_xor_swap. split; reflexivity.
Qed.

Lemma DecryptWithAES_malleable_witness :
  exists plain x,
    shared.DecryptWithAES (bytes_of_string "sixteen byte key")
      (bytes_of_string "0123456789abcdef" ++ bytes_of_string "pay 1") = Ok plain
    /\ length plain = length (bytes_of_string "pay 1")
    /\ shared.DecryptWithAES (bytes_of_string "sixteen byte key")
         (bytes_of_string "0123456789abcdef" ++ bytes_of_string "pay 1" ++ ["0"%byte])
       = Ok (plain ++ [x])
    /\ shared.DecryptWithAES (bytes_of_string "sixteen byte key")
         (bytes_of_string "0123456789abcdef" ++ bytes_of_string "pay 1"
          ++ [byte_xor "0"%byte x09])
       = Ok (plain ++ [byte_xor x x09]).
Proof.
  apply DecryptWithAES_malleable.
  - left. reflexivity.
  - reflexivity.
Defined.

(** ** The block producer *)

Lemma on_tick_spec {Block : Type} (bp : core.ModernBlockProducer) (produced : list Z)
      (t : core.tick Block) :
  core.tick_time t <= core.finished t ->
  let state := core.on_tick (bp, produced) t in
  core.config state.1 = core.config bp
  /\ core.isProducing state.1 = core.isProducing bp
  /\ ((state.2 = produced /\ core.lastBlockTime state.1 = core.lastBlockTime bp)
      \/ (state.2 = core.finished t :: produced
          /\ core.lastBlockTime state.1 = core.finished t
          /\ core.lastBlockTime bp + core.TargetBlockTime (core.config bp) <= core.finished t
          /\ core.MinTransactions (core.config bp) <= core.pendingCount t)).
Proof.
  intros Hfin. unfold core.on_tick, core.shouldProduceBlock, core.tryProduceBlock. cbv zeta.
  destruct (core.isProducing bp) eqn:Hflag; simpl.
  - rewrite Hflag. split; [reflexivity|]. split; [reflexivity|]. left. split; reflexivity.
  - destruct (core.tick_time t - core.lastBlockTime bp >=? core.TargetBlockTime (core.config bp))
      eqn:Htime; simpl.
    + destruct (core.pendingCount t >=? core.MinTransactions (core.config bp)) eqn:Hpend; simpl.
      * apply Z.geb_le in Htime, Hpend.
        destruct (core.processed t) as [[block|]|err]; simpl;
          (split; [reflexivity|]; split; [reflexivity|]).
        -- right. split; [reflexivity|]. split; [reflexivity|]. split; lia.
        -- left. split; reflexivity.
        -- left. split; reflexivity.
      * rewrite Hflag. split; [reflexivity|]. split; [reflexivity|]. left. split; reflexivity.
    + rewrite Hflag. split; [reflexivity|]. split; [reflexivity|]. left. split; reflexivity.
Qed.

Lemma ticks_spec {Block : Type} (l : list (core.tick Block)) :
  forall (bp : core.ModernBlockProducer) (produced : list Z) (first : Z),
  Forall (fun t => core.tick_time t <= core.finished t) l ->
  Sorted (fun later earlier => earlier + core.TargetBlockTime (core.config bp) <= later)
         (produced ++ [first]) ->
  core.lastBlockTime bp = hd first produced ->
  let state := fold_left core.on_tick l (bp, produced) in
  Sorted (fun later earlier => earlier + core.TargetBlockTime (core.config bp) <= later)
         (state.2 ++ [first])
  /\ core.lastBlockTime state.1 = hd first state.2
  /\ core.isProducing state.1 = core.isProducing bp
  /\ (length state.2
      <= length produced
         + length (List.filter (fun t => core.pendingCount t
                                         >=? core.MinTransactions (core.config bp)) l))%nat.
Proof.
  induction l as [|t l IH]; intros bp produced first Hall Hsorted Hlast.
  - simpl. split; [exact Hsorted|]. split; [exact Hlast|]. split; [reflexivity|lia].
  - inversion Hall as [|? ? Ht Hrest]; subst. cbn [fold_left].
    pose proof (on_tick_spec bp produced t Ht) as Hstep. cbv zeta in Hstep.
    destruct (core.on_tick (bp, produced) t) as [bp' produced'] eqn:Hon.
    simpl in Hstep. destruct Hstep as (Hconfig & Hflag & Hcase).
    assert (Hs' : Sorted (fun later earlier =>
                            earlier + core.TargetBlockTime (core.config bp') <= later)
                         (produced' ++ [first])
                  /\ core.lastBlockTime bp' = hd first produced'
                  /\ (length produced'
                      <= length produced
                         + (if core.pendingCount t >=? core.MinTransactions (core.config bp)
                            then 1 else 0))%nat).
    { rewrite Hconfig. destruct Hcase as [[-> Hl]|(-> & Hl & Hgap & Hmin)].
      - split; [exact Hsorted|]. split; [rewrite Hl; exact Hlast|].
        destruct (_ >=? _); lia.
      - split.
        + simpl. constructor; [exact Hsorted|].
          destruct produced as [|p produced]; simpl in *; constructor; lia.
        + split; [exact Hl|].
          replace (core.pendingCount t >=? core.MinTransactions (core.config bp)) with true
            by (symmetry; apply Z.geb_le; lia).
          simpl. lia. }
    destruct Hs' as (Hsorted' & Hlast' & Hlen').
    destruct (IH bp' produced' first Hrest Hsorted' Hlast') as (H1 & H2 & H3 & H4).
    rewrite Hconfig in H1, H4. split; [exact H1|]. split; [exact H2|].
    split; [rewrite H3; exact Hflag|].
    cbn [List.filter].
    destruct (core.pendingCount t >=? core.MinTransactions (core.config bp));
      simpl in *; lia.
Qed.

(** X27: the loop that [Start] runs never produces two blocks closer
    together than the target block time, and with the configuration of
    [NewBlockProducer] never more blocks than there were ticks with a
    pending transaction: whatever the ticks bring, the times at which
    blocks were produced, from the creation of the producer on, lie at
    least 1.2 seconds apart. *)
Theorem NewBlockProducer_spacing (Block : Type) (now : Z) (l : list (core.tick Block)) :
  Forall (fun t => core.tick_time t <= core.finished t) l ->
  let state := core.ticks (core.NewBlockProducer now) l in
  Sorted (fun later earlier => earlier + 1200000000 <= later) (state.2 ++ [now])
  /\ core.lastBlockTime state.1 = hd now state.2
  /\ core.isProducing state.1 = false
  /\ (length state.2 <= length (List.filter (fun t => core.pendingCount t >=? 1) l))%nat.
Proof.
  intros Hall. unfold core.ticks.
  destruct (ticks_spec l (core.NewBlockProducer now) [] now Hall) as (H1 & H2 & H3 & H4).
  - simpl. repeat constructor.
  - reflexivity.
  - split; [exact H1|]. split; [exact H2|]. split; [exact H3|exact H4].
Qed.

(** X28: [Stop] does not stop the producer.  It only clears the flag that
    marks a production under way, which is clear between ticks anyway: the
    loop of [Start] goes on as if [Stop] had not been called, and the next
    tick that finds the target time elapsed and enough transactions
    pending produces a block. *)
Theorem Stop_does_not_stop (Block : Type) (bp : core.ModernBlockProducer)
        (l : list (core.tick Block)) (t : core.tick Block) (newBlock : Block) :
  core.isProducing bp = false ->
  core.processed t = Ok (Some newBlock) ->
  core.TargetBlockTime (core.config bp) <= core.tick_time t - core.lastBlockTime bp ->
  core.MinTransactions (core.config bp) <= core.pendingCount t ->
  core.ticks (core.Stop bp) l = core.ticks bp l
  /\ (core.ticks (core.Stop bp) [t]).2 = [core.finished t].
Proof.
  intros Hflag Hproc Htime Hpend.
  assert (Hstop : core.Stop bp = bp).
  { unfold core.Stop. destruct bp as [c f last]. simpl in Hflag. subst f. reflexivity. }
  rewrite Hstop. split; [reflexivity|].
  unfold core.ticks. cbn [fold_left]. unfold core.on_tick, core.shouldProduceBlock,
    core.tryProduceBlock. cbv zeta. rewrite Hflag, Hproc.
  replace (core.tick_time t - core.lastBlockTime bp >=? core.TargetBlockTime (core.config bp))
    with true by (symmetry; apply Z.geb_le; lia).
  replace (core.pendingCount t >=? core.MinTransactions (core.config bp))
    with true by (symmetry; apply Z.geb_le; lia).
  reflexivity.
Qed.

Lemma NewBlockProducer_spacing_witness :
  (core.ticks (core.NewBlockProducer 0) examples.two_ticks).2 = [1300000000]
  /\ let state := core.ticks (core.NewBlockProducer 0) examples.two_ticks in
     Sorted (fun later earlier => earlier + 1200000000 <= later) (state.2 ++ [0])
     /\ core.lastBlockTime state.1 = hd 0 state.2
     /\ core.isProducing state.1 = false
     /\ (length state.2
         <= length (List.filter (fun t => core.pendingCount t >=? 1) examples.two_ticks))%nat.
Proof.
  split; [vm_compute; reflexivity|].
  apply (NewBlockProducer_spacing unit 0 examples.two_ticks).
  unfold examples.two_ticks.
  repeat (apply List.Forall_cons; [simpl; lia|]). apply List.Forall_nil.
Defined.

Lemma Stop_does_not_stop_witness :
  core.ticks (core.Stop (core.NewBlockProducer 0)) examples.two_ticks
  = core.ticks (core.NewBlockProducer 0) examples.two_ticks
  /\ (core.ticks (core.Stop (core.NewBlockProducer 0))
        [ {| core.tick_time := 1200000000; core.pendingCount := 1;
             core.processed := Ok (Some tt); core.finished := 1300000000 |} ]).2
     = [1300000000].
Proof.
  apply (Stop_does_not_stop unit (core.NewBlockProducer 0) examples.two_ticks
           {| core.tick_time := 1200000000; core.pendingCount := 1;
              core.processed := Ok (Some tt); core.finished := 1300000000 |} tt).
  - reflexivity.
  - reflexivity.
  - simpl. lia.
  - simpl. lia.
Defined.
